(** * pandas/io/pytables.py: a shallow embedding of the table storage engine

    The development follows the layout of [pandas/io/pytables.py]:
    the predicate normaliser [_ensure_term], the [Selection] engine, the
    row-deletion algorithm of [AppendableTable.delete], the chunked append
    path [write_data] / [write_data_chunk], the column descriptors
    ([IndexCol] / [DataCol]) and the fixed-format read guard.

    Python integers are [Z]; [None]-able values are [option]; a raised
    exception is the [Raise] constructor of [res]; code that mutates the
    on-disk node threads an explicit state. *)

From Stdlib Require Import ZArith Lia Sorted Permutation.
From stdpp Require Import base option list list_numbers sorting strings gmap.

Open Scope Z_scope.

(** ** Exceptions and results *)

(** The exception classes raised by the modelled code.  The payload is the
    static part of the message; [StringTooLong] is the [ValueError] of
    [IndexCol.validate_col], whose message names the requested size, the
    on-disk column name and the size limit of that column. *)
Inductive exn : Type :=
| TypeError (msg : string)
| ValueError (msg : string)
| IndexError (msg : string)
| KeyError (msg : string)
| NameError (msg : string)
| PyException (msg : string)
| StringTooLong (itemsize : Z) (cname : string) (limit : Z).

Inductive res (A : Type) : Type :=
| Ok (a : A)
| Raise (e : exn).
Arguments Ok {A} a.
Arguments Raise {A} e.

Definition bind {A B : Type} (k : A -> res B) (r : res A) : res B :=
  match r with
  | Ok a => k a
  | Raise e => Raise e
  end.

#[global] Instance res_ret : MRet res := fun A a => Ok a.
#[global] Instance res_bind : MBind res := fun A B k r => bind k r.

Definition is_ValueError (e : exn) : bool :=
  match e with
  | ValueError _ | StringTooLong _ _ _ => true
  | _ => false
  end.

(** [np.arange(start, stop)] *)
Definition arange (start stop : Z) : list Z := seqZ start (stop - start).

(** Ascending order on coordinates, duplicates allowed. *)
Definition ascending (l : list Z) : Prop := Sorted Z.le l.

Fixpoint ascendingb (l : list Z) : bool :=
  match l with
  | [] => true
  | x :: tl =>
      match tl with
      | [] => true
      | y :: _ => (x <=? y) && ascendingb tl
      end
  end.

(** ** Predicates ([where] arguments) *)

(** A one-dimensional [numpy] array handed in as a predicate: integer row
    positions, a boolean row mask, or an array of some other dtype (only
    its length matters). *)
Inductive ndarray : Type :=
| A_int (l : list Z)
| A_bool (l : list bool)
| A_other (n : nat).

Section Where.

(** [E] stands for a predicate source handled by the expression
    collaborator: a string or an already built [Term]. *)
Context {E : Type}.

Inductive item : Type :=
| I_none
| I_int (z : Z)
| I_bool (b : bool)
| I_expr (e : E).

Inductive where_t : Type :=
| W_none
| W_list (l : list item)
| W_array (a : ndarray)
| W_term (e : E).

Definition is_I_none (i : item) : bool :=
  match i with I_none => true | _ => false end.

Definition is_W_none (w : where_t) : bool :=
  match w with W_none => true | _ => false end.

Definition ndarray_len (a : ndarray) : nat :=
  match a with
  | A_int l => length l
  | A_bool l => length l
  | A_other n => n
  end.

End Where.

Arguments item : clear implicits.
Arguments where_t : clear implicits.

(** ** External collaborators

    The expression parser ([pandas.core.computation.pytables]) and the
    container's filtered read are consumed through this interface.
    [get_where_list] is PyTables' [Table.get_where_list(cond, start, stop,
    sort=True)]; the only fact used about it is that [sort=True] yields
    ascending row numbers. *)
Class Collaborators : Type := {
  E : Type;
  Condition : Type;
  Filter : Type;
  maybe_expression : E -> bool;
  Term : E -> E;
  expr_len : E -> nat;
  PyTablesExpr : where_t E -> res E;
  evaluate : E -> res (option Condition * option Filter);
  get_where_list : Condition -> Z -> Z -> list Z;
  get_where_list_sorted : forall c a b, ascending (get_where_list c a b)
}.

(** ** [_ensure_term] *)

Section EnsureTerm.
Context `{C : Collaborators}.

(** [len(where)] for a normalised predicate. *)
Definition where_len (w : where_t E) : nat :=
  match w with
  | W_none => 0%nat
  | W_list l => length l
  | W_array a => ndarray_len a
  | W_term e => expr_len e
  end.

Definition ensure_item (w : item E) : item E :=
  match w with
  | I_expr e => if maybe_expression e then I_expr (Term e) else I_expr e
  | other => other
  end.

(** [_ensure_term(where, scope_level)]: lists and tuples are mapped
    element-wise after dropping the [None] entries, a lone expression is
    wrapped in a [Term], and a predicate of length zero becomes [None]. *)
Definition _ensure_term (w : where_t E) : where_t E :=
  let w1 :=
    match w with
    | W_list l => W_list (map ensure_item (List.filter (fun x => negb (is_I_none x)) l))
    | W_term e => if maybe_expression e then W_term (Term e) else W_term e
    | other => other
    end in
  match w1 with
  | W_none => W_none
  | _ => if (0 <? where_len w1)%nat then w1 else W_none
  end.

End EnsureTerm.

(** ** The [Selection] engine *)

Section Selection.
Context `{C : Collaborators}.

Inductive inferred : Type :=
| Inf_empty
| Inf_integer
| Inf_boolean
| Inf_mixed.

Definition is_I_int (i : item E) : bool :=
  match i with I_int _ => true | _ => false end.

Definition is_I_bool (i : item E) : bool :=
  match i with I_bool _ => true | _ => false end.

(** Modelled from the spec: [lib.infer_dtype] (pandas/_libs/lib.pyx) is not
    part of the source at hand; a list-like predicate denotes explicit
    integer row positions when all its entries are integers and a boolean
    row mask when all its entries are booleans. *)
Definition infer_dtype (l : list (item E)) : inferred :=
  match l with
  | [] => Inf_empty
  | _ =>
      if forallb is_I_int l then Inf_integer
      else if forallb is_I_bool l then Inf_boolean
      else Inf_mixed
  end.

Definition item_int (i : item E) : Z :=
  match i with I_int z => z | _ => 0 end.

Definition item_bool (i : item E) : bool :=
  match i with I_bool b => b | _ => false end.

(** [np.asarray(where)] on the branch where the inferred dtype is
    ["integer"] or ["boolean"]; [None] when that branch is not taken. *)
Definition coordinate_array (w : where_t E) : option ndarray :=
  match w with
  | W_list l =>
      match infer_dtype l with
      | Inf_integer => Some (A_int (map item_int l))
      | Inf_boolean => Some (A_bool (map item_bool l))
      | _ => None
      end
  | W_array (A_int l) => Some (A_int l)
  | W_array (A_bool l) => Some (A_bool l)
  | _ => None
  end.

(** [xs[mask]] for a boolean [mask]: the lengths must agree. *)
Definition bool_index (xs : list Z) (m : list bool) : res (list Z) :=
  if (length m =? length xs)%nat
  then Ok (map fst (List.filter snd (zip xs m)))
  else Raise (IndexError "boolean index did not match indexed array along dimension 0").

Definition any_lt (p : list Z) (bound : option Z) : bool :=
  match bound with
  | Some s => existsb (fun x => x <? s) p
  | None => false
  end.

Definition any_ge (p : list Z) (bound : option Z) : bool :=
  match bound with
  | Some s => existsb (fun x => s <=? x) p
  | None => false
  end.

(** The body of the [try] block of [Selection.__init__], after
    [where = np.asarray(where)]. *)
Definition infer_coordinates (nrows : Z) (start stop : option Z) (a : ndarray)
  : res (option (list Z)) :=
  match a with
  | A_bool m =>
      let start' := default 0 start in
      let stop' := default nrows stop in
      c ← bool_index (arange start' stop') m; Ok (Some c)
  | A_int p =>
      if any_lt p start || any_ge p stop
      then Raise (ValueError "where must have index locations >= start and < stop")
      else Ok (Some p)
  | A_other _ => Ok None
  end.

(** [except ValueError: pass] around the block above. *)
Definition except_ValueError_pass {A : Type} (r : res (option A)) : res (option A) :=
  match r with
  | Raise e => if is_ValueError e then Ok None else Raise e
  | Ok a => Ok a
  end.

Record Selection : Type := {
  sel_nrows : Z;
  sel_where : where_t E;
  sel_start : option Z;
  sel_stop : option Z;
  sel_condition : option Condition;
  sel_filter : option Filter;
  sel_terms : option E;
  sel_coordinates : option (list Z)
}.

(** [Selection.generate] *)
Definition generate (w : where_t E) : res (option E) :=
  match w with
  | W_none => Ok None
  | _ =>
      match PyTablesExpr w with
      | Ok t => Ok (Some t)
      | Raise (NameError _) =>
          Raise (ValueError "The passed where expression contains an invalid variable reference")
      | Raise e => Raise e
      end
  end.

(** The block [if self.coordinates is None:] of [Selection.__init__]:
    the predicate [w'] (as rebound by [np.asarray]) goes to the expression
    collaborator. *)
Definition init_terms (nrows : Z) (w w' : where_t E) (start stop : option Z)
  : res Selection :=
  terms ← generate w';
  match terms with
  | None =>
      Ok {| sel_nrows := nrows; sel_where := w; sel_start := start; sel_stop := stop;
            sel_condition := None; sel_filter := None; sel_terms := None;
            sel_coordinates := None |}
  | Some t =>
      cf ← evaluate t;
      Ok {| sel_nrows := nrows; sel_where := w; sel_start := start; sel_stop := stop;
            sel_condition := cf.1; sel_filter := cf.2; sel_terms := Some t;
            sel_coordinates := None |}
  end.

(** [Selection.__init__(table, where, start, stop)]; [nrows] is
    [table.nrows]. *)
Definition Selection_init (nrows : Z) (w : where_t E) (start stop : option Z)
  : res Selection :=
  let arr := coordinate_array w in
  let w' := match arr with Some a => W_array a | None => w end in
  coords ← match arr with
           | Some a => except_ValueError_pass (infer_coordinates nrows start stop a)
           | None => Ok None
           end;
  match coords with
  | Some c =>
      Ok {| sel_nrows := nrows; sel_where := w; sel_start := start; sel_stop := stop;
            sel_condition := None; sel_filter := None; sel_terms := None;
            sel_coordinates := Some c |}
  | None => init_terms nrows w w' start stop
  end.

(** [Selection.select_coords] *)
Definition select_coords (s : Selection) : list Z :=
  let nrows := sel_nrows s in
  let start :=
    match sel_start s with
    | None => 0
    | Some st => if st <? 0 then st + nrows else st
    end in
  let stop :=
    match sel_stop s with
    | None => nrows
    | Some sp => if sp <? 0 then sp + nrows else sp
    end in
  match sel_condition s with
  | Some c => get_where_list c start stop
  | None =>
      match sel_coordinates s with
      | Some co => co
      | None => arange start stop
      end
  end.

End Selection.

(** ** Row deletion: [AppendableTable.delete] *)

(** Operations issued against the underlying container node. *)
Inductive op : Type :=
| Op_remove_rows (start stop : Z)
| Op_flush
| Op_remove_node
| Op_append (nrows : nat).

(** A [Series] with integer labels and integer values, in positional
    order: [(label, value)]. *)
Definition Series : Type := list (Z * Z).

(** [Series(values)]: the default labels are the positions. *)
Definition Series_of (values : list Z) : Series :=
  imap (fun i v => (Z.of_nat i, v)) values.

Fixpoint insert_by_value (x : Z * Z) (s : Series) : Series :=
  match s with
  | [] => [x]
  | y :: tl => if x.2 <=? y.2 then x :: s else y :: insert_by_value x tl
  end.

(** [Series.sort_values()]: rows are reordered by value and keep their
    labels.  On distinct values every sorting algorithm gives this
    result. *)
Definition sort_values (s : Series) : Series := foldr insert_by_value [] s.

Fixpoint diff_from (prev : Z) (s : Series) : list (Z * option Z) :=
  match s with
  | [] => []
  | (l, v) :: tl => (l, Some (v - prev)) :: diff_from v tl
  end.

(** [Series.diff()]: the first entry is NaN ([None]). *)
Definition diff (s : Series) : list (Z * option Z) :=
  match s with
  | [] => []
  | (l, v) :: tl => (l, None) :: diff_from v tl
  end.

Definition gt_one (d : Z * option Z) : bool :=
  match d.2 with
  | Some x => 1 <? x
  | None => false
  end.

(** [list(diff[diff > 1].index)]: the labels at which the gap to the
    previous sorted value exceeds one. *)
Definition gap_labels (s : Series) : list Z :=
  map fst (List.filter gt_one (diff s)).

(** [rows[label]] on an integer-labelled series. *)
Fixpoint lookup_label (s : Series) (label : Z) : option Z :=
  match s with
  | [] => None
  | (l, v) :: tl => if l =? label then Some v else lookup_label tl label
  end.

(** [sorted_series.take(range(g, pg))] for [0 <= g]. *)
Definition take_range (s : Series) (g pg : Z) : Series :=
  take (Z.to_nat (pg - g)) (drop (Z.to_nat g) s).

(** The three adjustments of [groups] before the removal loop. *)
Definition close_groups (groups : list Z) (ln : Z) : list Z :=
  let g1 := match groups with [] => [0] | _ => groups end in
  let g2 := if bool_decide (List.last g1 0 = ln) then g1 else g1 ++ [ln] in
  match g2 with
  | [] => g2
  | h :: _ => if bool_decide (h = 0) then g2 else 0 :: g2
  end.

(** PyTables' [Table.remove_rows(start, stop)]: both bounds are
    normalised like a slice against the current row count, and the rows
    in [[start, stop)] are dropped.  Returns the number of removed rows. *)
Definition clip_index (n x : Z) : Z :=
  if x <? 0 then Z.max 0 (x + n) else Z.min x n.

Definition remove_rows {A : Type} (start stop : Z) (rows : list A) : Z * list A :=
  let n := Z.of_nat (length rows) in
  let s := clip_index n start in
  let e := clip_index n stop in
  if s <? e
  then (e - s, take (Z.to_nat s) rows ++ drop (Z.to_nat e) rows)
  else (0, rows).

(** State of the table node: its rows ([None] once the node is removed)
    and the operations issued so far, oldest first. *)
Record tstate (A : Type) : Type := {
  t_rows : option (list A);
  t_ops : list op
}.
Arguments t_rows {A} _.
Arguments t_ops {A} _.

Definition do_remove_rows {A : Type} (start stop : Z) (st : tstate A) : Z * tstate A :=
  match t_rows st with
  | Some rows =>
      let r := remove_rows start stop rows in
      (r.1, {| t_rows := Some r.2; t_ops := t_ops st ++ [Op_remove_rows start stop] |})
  | None => (0, st)
  end.

Definition do_flush {A : Type} (st : tstate A) : tstate A :=
  {| t_rows := t_rows st; t_ops := t_ops st ++ [Op_flush] |}.

Definition do_remove_node {A : Type} (st : tstate A) : tstate A :=
  {| t_rows := None; t_ops := t_ops st ++ [Op_remove_node] |}.

(** The loop [for g in reversed(groups)]: [rgroups] is the reversed list,
    [pg] the previous (upper) group bound. *)
Fixpoint remove_groups {A : Type} (sorted_series : Series) (rgroups : list Z) (pg : Z)
  (st : tstate A) : res unit * tstate A :=
  match rgroups with
  | [] => (Ok tt, st)
  | g :: rest =>
      let rows := take_range sorted_series g pg in
      match head rows, List.last (map Some rows) None with
      | Some first, Some final =>
          match lookup_label rows first.1, lookup_label rows final.1 with
          | Some start, Some stop1 =>
              let st' := (do_remove_rows start (stop1 + 1) st).2 in
              remove_groups sorted_series rest g st'
          | _, _ => (Raise (KeyError "label"), st)
          end
      | _, _ => (Raise (IndexError "index 0 is out of bounds for axis 0 with size 0"), st)
      end
  end.

(** The part of [delete] that follows [values = selection.select_coords()]. *)
Definition delete_coords {A : Type} (values : list Z) (st : tstate A)
  : res (option Z) * tstate A :=
  let sorted_series := sort_values (Series_of values) in
  let ln := Z.of_nat (length sorted_series) in
  if bool_decide (ln = 0) then (Ok (Some ln), st)
  else
    let groups := close_groups (gap_labels sorted_series) ln in
    let pg := List.last groups 0 in
    let groups' := removelast groups in
    match remove_groups sorted_series (rev groups') pg st with
    | (Ok _, st') => (Ok (Some ln), do_flush st')
    | (Raise e, st') => (Raise e, st')
    end.

(** *** Specification side: runs of consecutive coordinates *)

(** The maximal runs of consecutive coordinates of an ascending list: a
    new run starts wherever the gap to the previous coordinate exceeds
    one. *)
Fixpoint runs (l : list Z) : list (list Z) :=
  match l with
  | [] => []
  | x :: tl =>
      match runs tl with
      | (y :: r) :: rs =>
          if 1 <? y - x then [x] :: (y :: r) :: rs else (x :: y :: r) :: rs
      | _ => [[x]]
      end
  end.

(** The one contiguous removal issued for a run: from its first
    coordinate up to and including its last. *)
Definition remove_run {A : Type} (r : list Z) (st : tstate A) : tstate A :=
  (do_remove_rows (hd 0 r) (List.last r 0 + 1) st).2.

Definition run_op (r : list Z) : op :=
  Op_remove_rows (hd 0 r) (List.last r 0 + 1).

(** The rows left when the coordinates [cs] are deleted: [rows] holds the
    rows at positions [k], [k + 1], ...; those whose position is in [cs]
    are dropped and the others keep their order. *)
Fixpoint drop_coords {A : Type} (k : Z) (cs : list Z) (rows : list A) : list A :=
  match rows with
  | [] => []
  | r :: tl =>
      if bool_decide (k ∈ cs) then drop_coords (k + 1) cs tl
      else r :: drop_coords (k + 1) cs tl
  end.

(** Values labelled with consecutive positions from [k] on, and the
    labels at which the gap to the previous value exceeds one. *)
Fixpoint label_from (k : Z) (values : list Z) : Series :=
  match values with
  | [] => []
  | v :: tl => (k, v) :: label_from (k + 1) tl
  end.

Fixpoint gaps (k prev : Z) (values : list Z) : list Z :=
  match values with
  | [] => []
  | v :: tl => (if 1 <? v - prev then [k] else []) ++ gaps (k + 1) v tl
  end.

Section Delete.
Context `{C : Collaborators}.
Context {A : Type}.

(** [AppendableTable.delete(where, start, stop)] on an existing table
    holding [rows]. *)
Definition AppendableTable_delete (rows : list A) (w : where_t E) (start stop : option Z)
  : res (option Z) * tstate A :=
  let st := {| t_rows := Some rows; t_ops := [] |} in
  let nrows := Z.of_nat (length rows) in
  if is_W_none w || (where_len w =? 0)%nat then
    match start, stop with
    | None, None => (Ok (Some nrows), do_remove_node st)
    | _, _ =>
        let stop' := default nrows stop in
        let r := do_remove_rows (default 0 start) stop' st in
        (Ok (Some r.1), do_flush r.2)
    end
  else
    match Selection_init nrows w start stop with
    | Raise e => (Raise e, st)
    | Ok selection => delete_coords (select_coords selection) st
    end.

End Delete.

(** ** Appending rows: [AppendableTable.write_data] and [write_data_chunk] *)

Section WriteData.

(** A cell is an [option V]: [None] when it holds a missing value
    ([isna]). *)
Context {V : Type}.

Definition isna (c : option V) : bool :=
  match c with None => true | Some _ => false end.

(** One on-disk record: the index fields followed by the value fields,
    one (possibly shaped) payload per value block. *)
Definition record : Type := list (option V) * list (list (option V)).

(** [a[start:end]] for [0 <= start]. *)
Definition slice {X : Type} (l : list X) (start stop : Z) : list X :=
  take (Z.to_nat (stop - start)) (drop (Z.to_nat start) l).

(** [np.tile(idx, r)] and [np.repeat(idx, r)] *)
Definition np_tile {X : Type} (idx : list X) (r : nat) : list X :=
  mjoin (replicate r idx).

Definition np_repeat {X : Type} (idx : list X) (r : nat) : list X :=
  idx ≫= replicate r.

Definition prod_lengths {X : Type} (ls : list (list X)) : nat :=
  foldr (fun l acc => (length l * acc)%nat) 1%nat ls.

(** Broadcasting of the index columns over the cartesian product of all
    index axes. *)
Definition broadcast_indexes {X : Type} (indexes : list (list X)) : list (list X) :=
  let nindexes := length indexes in
  imap (fun i idx =>
          let idx1 :=
            if bool_decide (0 < i < nindexes)%nat
            then np_tile idx (prod_lengths (take i indexes))
            else idx in
          if bool_decide (i < nindexes - 1)%nat
          then np_repeat idx1 (prod_lengths (drop (S i) indexes))
          else idx1)
       indexes.

(** [isna(a.data).all(axis=0)] for one value block given row by row. *)
Definition all_missing (block : list (list (option V))) : list bool :=
  map (forallb isna) block.

(** The consolidated mask: the conjunction over all value blocks, [None]
    when [dropna] is off (or when there is no value block). *)
Definition consolidate_masks (dropna : bool) (values : list (list (list (option V))))
  : option (list bool) :=
  if dropna then
    match map all_missing values with
    | [] => None
    | m :: ms => Some (foldl (zip_with andb) m ms)
    end
  else None.

(** [np.prod(v.shape)] of a chunk of one value block. *)
Definition prod_shape (v : list (list (option V))) : nat :=
  (length v * match v with [] => 0 | r :: _ => length r end)%nat.

(** The assignments [rows[names[i]] = idx] and [rows[names[i + nindexes]] = v]
    fill record [k] with entry [k] of every column. *)
Definition assemble (nrows : nat) (indexes : list (list (option V)))
  (values : list (list (list (option V)))) : list record :=
  map (fun k => (map (fun c => mjoin (c !! k)) indexes, map (fun v => default [] (v !! k)) values))
      (seq 0 nrows).

(** [rows[m]] with [m = ~mask]. *)
Definition drop_masked {X : Type} (rows : list X) (mask : list bool) : list X :=
  map fst (List.filter (fun p => negb p.2) (zip rows mask)).

Definition do_append {X : Type} (new : list X) (st : tstate X) : tstate X :=
  {| t_rows := Some (default [] (t_rows st) ++ new);
     t_ops := t_ops st ++ [Op_append (length new)] |}.

(** [write_data_chunk(rows, indexes, mask, values)] *)
Definition write_data_chunk (indexes : list (list (option V))) (mask : option (list bool))
  (values : list (list (list (option V)))) (st : tstate record) : res unit * tstate record :=
  if existsb (fun v => (prod_shape v =? 0)%nat) values then (Ok tt, st)
  else
    match indexes with
    | [] => (Raise (IndexError "list index out of range"), st)
    | idx0 :: _ =>
        let nrows := length idx0 in
        let rows := assemble nrows indexes values in
        let rows' :=
          match mask with
          | Some m => if forallb negb m then rows else drop_masked rows m
          | None => rows
          end in
        if (0 <? length rows')%nat
        then (Ok tt, do_flush (do_append rows' st))
        else (Ok tt, st)
    end.

(** [mask[start_i:end_i] if mask is not None else None] *)
Definition slice_mask (mask : option (list bool)) (start stop : Z) : option (list bool) :=
  (fun m => slice m start stop) <$> mask.

(** The loop [for i in range(chunks)], counted down by [fuel] from
    [chunks]; [i] is the current chunk number. *)
Fixpoint write_chunks (fuel : nat) (i : Z) (chunksize nrows : Z)
  (bindexes : list (list (option V))) (mask : option (list bool))
  (bvalues : list (list (list (option V)))) (st : tstate record) : res unit * tstate record :=
  match fuel with
  | O => (Ok tt, st)
  | S fuel' =>
      let start_i := i * chunksize in
      let end_i := Z.min ((i + 1) * chunksize) nrows in
      if end_i <=? start_i then (Ok tt, st)
      else
        match write_data_chunk (map (fun a => slice a start_i end_i) bindexes)
                               (slice_mask mask start_i end_i)
                               (map (fun v => slice v start_i end_i) bvalues) st with
        | (Ok _, st') => write_chunks fuel' (i + 1) chunksize nrows bindexes mask bvalues st'
        | (Raise e, st') => (Raise e, st')
        end
  end.

(** [write_data(chunksize, dropna)].  [indexes] are the index columns
    ([a.cvalues] for the index axes), [values] the value blocks already in
    row-major shape [(nrows, ...)].  [int(nrows / chunksize)] is the
    truncated quotient; the float division of the source agrees with it
    for row counts below [2^53]. *)
Definition write_data (chunksize : option Z) (dropna : bool)
  (indexes : list (list (option V))) (values : list (list (list (option V))))
  (st : tstate record) : res unit * tstate record :=
  let nrows := Z.of_nat (prod_lengths indexes) in
  let mask := consolidate_masks dropna values in
  let bindexes := broadcast_indexes indexes in
  let chunksize := default 100000 chunksize in
  if bool_decide (chunksize = 0) then
    (Raise (PyException "cannot convert float infinity to integer"), st)
  else if Z.min chunksize nrows <? 0 then
    (Raise (ValueError "negative dimensions are not allowed"), st)
  else
    let chunks := Z.quot nrows chunksize + 1 in
    write_chunks (Z.to_nat chunks) 0 chunksize nrows bindexes mask values st.

(** Chunk [i] of the row range [[0, nrows)]. *)
Definition chunk_range (chunksize nrows i : Z) : Z * Z :=
  (i * chunksize, Z.min ((i + 1) * chunksize) nrows).

(** The rows of [rows] that the optional mask does not suppress, and the
    same mask restricted to a row range. *)
Definition unmasked {X : Type} (rows : list X) (mask : option (list bool)) : list X :=
  match mask with
  | Some m => drop_masked rows m
  | None => rows
  end.

(** What one chunk contributes to the operation log when [kept] of its
    rows survive the mask. *)
Definition chunk_ops (kept : nat) : list op :=
  if (0 <? kept)%nat then [Op_append kept; Op_flush] else [].

End WriteData.

(** ** Reading back a categorical column: [DataCol.convert] *)

Section Categorical.

(** Category labels; a stored category list may hold nulls ([None]). *)
Context {L : Type}.

(** [isna] on one stored category. *)
Definition is_null (c : option L) : bool :=
  match c with None => true | Some _ => false end.

(** [mask.astype(int).cumsum().values] for [mask = isna(categories)]. *)
Fixpoint cumsum_from (acc : Z) (mask : list bool) : list Z :=
  match mask with
  | [] => []
  | b :: tl => let acc' := acc + (if b then 1 else 0) in acc' :: cumsum_from acc' tl
  end.

Definition mask_cumsum (mask : list bool) : list Z := cumsum_from 0 mask.

(** Position-wise subtraction of [rhs] from the selected entries of
    [codes], consuming one entry of [rhs] per selected code. *)
Fixpoint isub_zip (codes : list Z) (rhs : list Z) : list Z :=
  match codes with
  | [] => []
  | c :: tl =>
      if bool_decide (c = -1) then c :: isub_zip tl rhs
      else
        match rhs with
        | r :: rtl => (c - r) :: isub_zip tl rtl
        | [] => c :: isub_zip tl rhs
        end
  end.

(** [codes[codes != -1] -= rhs] with numpy's broadcasting rule: [rhs] must
    have as many entries as there are selected codes, or exactly one entry
    (which is then subtracted from every selected code). *)
Definition isub_selected (codes : list Z) (rhs : list Z) : res (list Z) :=
  let k := length (List.filter (fun c => negb (bool_decide (c = -1))) codes) in
  if (length rhs =? k)%nat then Ok (isub_zip codes rhs)
  else
    match rhs with
    | [r] => Ok (map (fun c => if bool_decide (c = -1) then c else c - r) codes)
    | _ => Raise (ValueError "operands could not be broadcast together")
    end.

(** Modelled from the spec: [Categorical.from_codes]
    (pandas/core/arrays/categorical.py) is not part of the source at hand;
    a categorical is reconstructed from integer codes and a category list,
    code [-1] standing for a missing value.  Codes outside
    [[-1, len(categories))] are rejected. *)
Definition from_codes (codes : list Z) (categories : list L) : res (list (option L)) :=
  if forallb (fun c => (-1 <=? c) && (c <? Z.of_nat (length categories))) codes
  then Ok (map (fun c => if c <? 0 then None else categories !! Z.to_nat c) codes)
  else Raise (ValueError "codes need to be between -1 and len(categories)-1").

(** The branch [meta == "category"] of [DataCol.convert]: [metadata] is
    the stored category list ([None] when the side table is absent) and
    [codes] the stored integer codes. *)
Definition convert_category (metadata : option (list (option L))) (codes : list Z)
  : res (list (option L)) :=
  match metadata with
  | None => from_codes codes []
  | Some categories =>
      let mask := map is_null categories in
      if existsb id mask then
        let categories' := omap id categories in
        codes' ← isub_selected codes (mask_cumsum mask);
        from_codes codes' categories'
      else from_codes codes (omap id categories)
  end.

(** The remapping the way the specification words it: every non-negative
    code is decremented by the number of removed (null) categories at
    original positions up to that code; [-1] is kept. *)
Definition remap_code_spec (categories : list (option L)) (c : Z) : Z :=
  if c <? 0 then c
  else c - Z.of_nat (length (List.filter is_null (take (S (Z.to_nat c)) categories))).

Definition convert_category_spec (metadata : option (list (option L))) (codes : list Z)
  : res (list (option L)) :=
  match metadata with
  | None => from_codes codes []
  | Some categories =>
      from_codes (map (remap_code_spec categories) codes) (omap id categories)
  end.

(** The values a categorical had when it was written with the given
    category list and codes: a code that points at a null category, like
    code [-1], denotes a missing value. *)
Definition written_values (categories : list (option L)) (codes : list Z)
  : list (option L) :=
  map (fun c => if c <? 0 then None else mjoin (categories !! Z.to_nat c)) codes.

End Categorical.

(** ** Informational attributes: [IndexCol.update_info] *)

(** [info] maps a column name to that column's recorded annotations; a
    recorded annotation may be [None]. *)
Abbreviation info_idx := (gmap string (option string)).
Abbreviation info_t := (gmap string (gmap string (option string))).

(** [_info_fields] of [IndexCol] and of [DataCol] *)
Definition IndexCol_info_fields : list string := ["freq"; "tz"; "index_name"].
Definition DataCol_info_fields : list string := ["tz"; "ordered"].

(** The in-memory column as far as [update_info] sees it: its name and
    the attributes read by [getattr(self, key, None)]. *)
Record col_info : Type := {
  ci_name : string;
  ci_attrs : gmap string string
}.

(** [AttributeConflictWarning] for a key, with the recorded and the new
    value. *)
Record warning : Type := {
  w_key : string;
  w_existing : option string;
  w_value : string
}.

Record info_state : Type := {
  is_info : info_t;
  is_col : col_info;
  is_warnings : list warning
}.

(** [_get_info(info, name)]: the entry for [name], created empty when
    missing. *)
Definition _get_info (info : info_t) (name : string) : info_t * info_idx :=
  match info !! name with
  | Some idx => (info, idx)
  | None => (<[name := ∅]> info, ∅)
  end.

Definition set_idx (info : info_t) (name key : string) (v : option string) : info_t :=
  <[name := <[key := v]> (default ∅ (info !! name))]> info.

Definition is_conflict (idx : info_idx) (key : string) (value : option string) : bool :=
  match idx !! key, value with
  | Some existing_value, Some v => negb (bool_decide (existing_value = Some v))
  | _, _ => false
  end.

(** One iteration of the loop [for key in self._info_fields]. *)
Definition update_info_key (key : string) (st : info_state) : res info_state :=
  let value := ci_attrs (is_col st) !! key in
  let name := ci_name (is_col st) in
  let '(info, idx) := _get_info (is_info st) name in
  let existing_value := mjoin (idx !! key) in
  if is_conflict idx key value then
    if bool_decide (key ∈ ["freq"; "index_name"]) then
      Ok {| is_info := set_idx info name key None;
            is_col := {| ci_name := name; ci_attrs := delete key (ci_attrs (is_col st)) |};
            is_warnings := is_warnings st ++
              [{| w_key := key; w_existing := existing_value; w_value := default "" value |}] |}
    else
      Raise (ValueError "invalid info: existing_value conflicts with new value")
  else
    if bool_decide (is_Some value) || bool_decide (is_Some existing_value)
    then Ok {| is_info := set_idx info name key value;
               is_col := is_col st; is_warnings := is_warnings st |}
    else Ok {| is_info := info; is_col := is_col st; is_warnings := is_warnings st |}.

(** [update_info(info)] over the given [_info_fields]. *)
Fixpoint update_info (fields : list string) (st : info_state) : res info_state :=
  match fields with
  | [] => Ok st
  | key :: rest => st' ← update_info_key key st; update_info rest st'
  end.

(** ** Fixed-format storers: [GenericFixed.validate_read] and [read] *)

Section FixedRead.

(** [Arg] is the type of keyword-argument values, [Obj] the type of
    stored objects. *)
Context {Arg Obj : Type}.

(** [kwargs.pop(key, None)] on a keyword dictionary whose values may be
    [None]. *)
Definition kwargs_pop (key : string) (kwargs : gmap string (option Arg))
  : option Arg * gmap string (option Arg) :=
  (mjoin (kwargs !! key), delete key kwargs).

(** [GenericFixed.validate_read(kwargs)] *)
Definition validate_read (kwargs : gmap string (option Arg))
  : res (gmap string (option Arg)) :=
  let '(columns, kwargs1) := kwargs_pop "columns" kwargs in
  match columns with
  | Some _ =>
      Raise (TypeError "cannot pass a column specification when reading a Fixed format store")
  | None =>
      let '(where_, kwargs2) := kwargs_pop "where" kwargs1 in
      match where_ with
      | Some _ =>
          Raise (TypeError "cannot pass a where specification when reading from a Fixed format store")
      | None => Ok kwargs2
      end
  end.

(** The fixed-format storers with a [read] of their own. *)
Inductive fixed_storer : Type :=
| SeriesFixed
| FrameFixed.

(** [SeriesFixed.read] and [BlockManagerFixed.read]: the guard, then the
    reconstruction of the object from the stored arrays ([retrieve], which
    sees only [start] and [stop]). *)
Definition Fixed_read (retrieve : fixed_storer -> option Z -> option Z -> res Obj)
  (s : fixed_storer) (where_ columns : option Arg) (start stop : option Z) : res Obj :=
  match s with
  | SeriesFixed =>
      _ ← validate_read (<["columns" := columns]> (<["where" := where_]> ∅));
      retrieve s start stop
  | FrameFixed =>
      _ ← validate_read (<["where" := where_]> (<["columns" := columns]> ∅));
      retrieve s start stop
  end.

End FixedRead.

(** ** String atoms: [DataCol.set_atom_string] and [IndexCol.validate_col] *)

Section StringAtom.

(** [Series.str.encode(encoding, errors)] on one string. *)
Variable encode : string -> string.

(** A cell of an object-dtype block. *)
Inductive scell : Type :=
| S_str (s : string)
| S_nan
| S_other.

(** The caller's [min_itemsize]: absent, one integer, or a dictionary
    keyed by column name. *)
Inductive min_itemsize_t : Type :=
| MI_none
| MI_int (n : Z)
| MI_dict (d : gmap string Z).

(** What [validate_col] reads of a column: its on-disk name, its kind,
    [self.col] (the width of the column of that name in the table
    description, [None] when there is no such column) and [self.itemsize]. *)
Record col_view : Type := {
  cv_cname : string;
  cv_kind : option string;
  cv_col : option Z;
  cv_itemsize : option Z
}.

(** [IndexCol.validate_col(itemsize=None)] *)
Definition validate_col (self : col_view) (itemsize : option Z) : res (option Z) :=
  if bool_decide (cv_kind self = Some "string") then
    match cv_col self with
    | Some c_itemsize =>
        let itemsize' := match itemsize with None => cv_itemsize self | Some i => Some i end in
        match itemsize' with
        | None => Raise (TypeError "'<' not supported between instances of 'int' and 'NoneType'")
        | Some i =>
            if c_itemsize <? i
            then Raise (StringTooLong i (cv_cname self) c_itemsize)
            else Ok (Some c_itemsize)
        end
    | None => Ok None
    end
  else Ok None.

(** Python's [a or b] on optional integers. *)
Definition py_or (a b : option Z) : option Z :=
  match a with
  | Some x => if bool_decide (x = 0) then b else Some x
  | None => b
  end.

(** The normalisation of [min_itemsize] inside [set_atom_string], down to
    [min_itemsize or 0]. *)
Definition min_itemsize_for (name : string) (mi : min_itemsize_t) : Z :=
  match mi with
  | MI_none => 0
  | MI_int n => n
  | MI_dict d => default 0 (py_or (d !! name) (py_or (d !! "values") (Some 0)))
  end.

Definition fillna (nan_rep : string) (c : scell) : scell :=
  match c with S_nan => S_str nan_rep | other => other end.

Definition is_S_str (c : scell) : bool :=
  match c with S_str _ => true | _ => false end.

(** [lib.infer_dtype(cells, skipna=False) == "string"] *)
Definition infer_string (cells : list scell) : bool :=
  match cells with
  | [] => false
  | _ => forallb is_S_str cells
  end.

(** The column-by-column report when the block as a whole is not of
    string type. *)
Fixpoint check_columns (block_items : list string) (block : list (list scell)) : res unit :=
  match block_items, block with
  | item :: items, col :: cols =>
      if infer_string col then check_columns items cols
      else Raise (TypeError ("Cannot serialize the column [" ++ item ++ "]"))
  | _, _ => Ok tt
  end.

Definition cell_bytes (c : scell) : string :=
  match c with S_str s => encode s | _ => "" end.

(** [max(1, libwriters.max_len_string_array(ensured))]: the probed size. *)
Definition probe_itemsize (data : list (list string)) : Z :=
  Z.max 1 (foldr Z.max 0 (map (fun s => Z.of_nat (String.length s)) (mjoin data))).

(** What [set_atom_string] leaves on the column. *)
Record string_atom : Type := {
  sa_itemsize : Z;
  sa_kind : string;
  sa_typ_itemsize : Z;
  sa_data : list (list string)
}.

(** [DataCol.set_atom_string(block, block_items, existing_col,
    min_itemsize, nan_rep, encoding, errors)] for the column [name];
    [block] is given item by item. *)
Definition set_atom_string (name : string) (block : list (list scell))
  (block_items : list string) (existing_col : option col_view)
  (min_itemsize : min_itemsize_t) (nan_rep : string) : res string_atom :=
  let block := map (map (fillna nan_rep)) block in
  _ ← (if infer_string (mjoin block) then Ok tt else check_columns block_items block);
  let data_converted := map (map cell_bytes) block in
  let itemsize := probe_itemsize data_converted in
  let itemsize := Z.max (min_itemsize_for name min_itemsize) itemsize in
  itemsize ← match existing_col with
             | None => Ok itemsize
             | Some ec =>
                 eci ← validate_col ec (Some itemsize);
                 match eci with
                 | None =>
                     Raise (TypeError "'>' not supported between instances of 'NoneType' and 'int'")
                 | Some e => Ok (if itemsize <? e then e else itemsize)
                 end
             end;
  Ok {| sa_itemsize := itemsize; sa_kind := "string"; sa_typ_itemsize := itemsize;
        sa_data := data_converted |}.

(** The size asked for by the data and the caller together, before an
    existing column is consulted: [max(min_itemsize or 0, probed)]. *)
Definition requested_itemsize (name : string) (block : list (list scell))
  (min_itemsize : min_itemsize_t) (nan_rep : string) : Z :=
  Z.max (min_itemsize_for name min_itemsize)
        (probe_itemsize (map (map cell_bytes) (map (map (fillna nan_rep)) block))).

(** The column an append sees after a table was created from [atom]: the
    description holds a string column of width [sa_typ_itemsize atom] under
    [cname], and the inferred kind is ["string"]. *)
Definition persisted_col (cname : string) (atom : string_atom) : col_view :=
  {| cv_cname := cname; cv_kind := Some (sa_kind atom);
     cv_col := Some (sa_typ_itemsize atom); cv_itemsize := None |}.

End StringAtom.

(** ** The append protocol: [Table.validate], [validate_and_set],
       [AppendableTable.write] *)

Section Append.
Context {V : Type}.

Record IndexCol : Type := {
  ic_name : string;
  ic_cname : string;
  ic_axis : option Z;
  ic_pos : option Z;
  ic_kind : option string;
  ic_itemsize : option Z
}.

Record DataCol : Type := {
  dc_name : string;
  dc_cname : string;
  dc_pos : option Z;
  dc_dtype : option string;
  dc_kind : option string;
  dc_values : list string;
  dc_meta : option string;
  dc_metadata : option (list string);
  dc_itemsize : option Z
}.

(** [IndexCol.__eq__]: name, cname, axis, pos. *)
Definition IndexCol_eq (a b : IndexCol) : bool :=
  bool_decide (ic_name a = ic_name b) && bool_decide (ic_cname a = ic_cname b)
  && bool_decide (ic_axis a = ic_axis b) && bool_decide (ic_pos a = ic_pos b).

(** [DataCol.__eq__]: name, cname, dtype, pos. *)
Definition DataCol_eq (a b : DataCol) : bool :=
  bool_decide (dc_name a = dc_name b) && bool_decide (dc_cname a = dc_cname b)
  && bool_decide (dc_dtype a = dc_dtype b) && bool_decide (dc_pos a = dc_pos b).

Definition axis_eq (a b : Z * list string) : bool := bool_decide (a = b).

(** Python's [==] on lists, element-wise through [eqb]. *)
Fixpoint py_list_eq {X : Type} (eqb : X -> X -> bool) (sv ov : list X) : bool :=
  match sv, ov with
  | [], [] => true
  | s :: sv', o :: ov' => eqb s o && py_list_eq eqb sv' ov'
  | _, _ => false
  end.

(** The loop of [Table.validate] that reports the first differing axis;
    running off the end of [sv] reaches the final [raise Exception]. *)
Fixpoint report_mismatch {X : Type} (eqb : X -> X -> bool) (c : string) (sv ov : list X)
  : exn :=
  match sv with
  | [] => PyException ("invalid combinate of [" ++ c ++ "] on appending data")
  | sax :: sv' =>
      match ov with
      | [] => IndexError "list index out of range"
      | oax :: ov' =>
          if eqb sax oax then report_mismatch eqb c sv' ov'
          else ValueError ("invalid combinate of [" ++ c ++ "] on appending data")
      end
  end.

Definition validate_axes {X : Type} (eqb : X -> X -> bool) (c : string) (sv ov : list X)
  : res unit :=
  if py_list_eq eqb sv ov then Ok tt else Raise (report_mismatch eqb c sv ov).

(** The in-memory table after the body of [create_axes]: the schema
    derived from the incoming object, and the data to append. *)
Record schema : Type := {
  s_index_axes : list IndexCol;
  s_non_index_axes : list (Z * list string);
  s_values_axes : list DataCol;
  s_data_columns : list string;
  s_nan_rep : option string;
  s_encoding : option string;
  s_errors : string;
  s_levels : option (list string);
  s_metadata : list string;
  s_info : gmap string (gmap string (option string));
  s_index_data : list (list (option V));
  s_value_data : list (list (list (option V)))
}.

(** [Table.validate(other)]; [self_type] and [other_type] are the
    [table_type] of the two tables. *)
Definition Table_validate (self_type other_type : string) (self : schema)
  (other : option schema) : res unit :=
  match other with
  | None => Ok tt
  | Some other =>
      if negb (bool_decide (other_type = self_type))
      then Raise (TypeError "incompatible table_type with existing")
      else
        _ ← validate_axes IndexCol_eq "index_axes" (s_index_axes self) (s_index_axes other);
        _ ← validate_axes axis_eq "non_index_axes"
              (s_non_index_axes self) (s_non_index_axes other);
        validate_axes DataCol_eq "values_axes" (s_values_axes self) (s_values_axes other)
  end.

(** Attributes of the table node ([_v_attrs]); reading a missing
    attribute gives [None]. *)
Inductive attr_val : Type :=
| AV_none
| AV_int (z : Z)
| AV_str (s : string)
| AV_strs (l : list string)
| AV_index_cols (l : list (Z * string))
| AV_axes (l : list (Z * list string))
| AV_info (i : gmap string (gmap string (option string))).

#[local] Instance attr_val_eq_dec : EqDecision attr_val.
Proof. solve_decision. Defined.

(** The group on disk: the attributes of the group ([self.attrs]), the
    attributes of the table node (the columns' [self.attrs]), the table
    description ([cname] to the item size of that column), the table rows
    with the operations issued on them ([t_rows] is [None] while no table
    exists), and the metadata side tables. *)
Record disk : Type := {
  d_attrs : gmap string attr_val;
  d_table_attrs : gmap string attr_val;
  d_description : gmap string Z;
  d_node : tstate (@record V);
  d_metadata : gmap string (list string)
}.

Definition getattr (attrs : gmap string attr_val) (key : string) : attr_val :=
  default AV_none (attrs !! key).

Definition set_group_attr (key : string) (v : attr_val) (d : disk) : disk :=
  {| d_attrs := <[key := v]> (d_attrs d); d_table_attrs := d_table_attrs d;
     d_description := d_description d; d_node := d_node d; d_metadata := d_metadata d |}.

Definition set_table_attr (key : string) (v : attr_val) (d : disk) : disk :=
  {| d_attrs := d_attrs d; d_table_attrs := <[key := v]> (d_table_attrs d);
     d_description := d_description d; d_node := d_node d; d_metadata := d_metadata d |}.

Definition set_metadata (key : string) (v : list string) (d : disk) : disk :=
  {| d_attrs := d_attrs d; d_table_attrs := d_table_attrs d;
     d_description := d_description d; d_node := d_node d;
     d_metadata := <[key := v]> (d_metadata d) |}.

Definition set_node (n : tstate (@record V)) (d : disk) : disk :=
  {| d_attrs := d_attrs d; d_table_attrs := d_table_attrs d;
     d_description := d_description d; d_node := n; d_metadata := d_metadata d |}.

(** [is_exists]: ["table" in self.group] *)
Definition is_exists (d : disk) : bool := bool_decide (is_Some (t_rows (d_node d))).

Definition opt_str (o : option string) : attr_val :=
  match o with Some s => AV_str s | None => AV_none end.

(** [DataCol.set_kind] *)
Definition set_kind (dtype : option string) : res (option string) :=
  match dtype with
  | None => Ok None
  | Some dt =>
      if String.prefix "string" dt || String.prefix "bytes" dt then Ok (Some "string")
      else if String.prefix "float" dt then Ok (Some "float")
      else if String.prefix "complex" dt then Ok (Some "complex")
      else if String.prefix "int" dt || String.prefix "uint" dt then Ok (Some "integer")
      else if String.prefix "date" dt then Ok (Some "datetime")
      else if String.prefix "timedelta" dt then Ok (Some "timedelta")
      else if String.prefix "bool" dt then Ok (Some "bool")
      else Raise (PyException "AssertionError: cannot interpret dtype")
  end.

Definition attr_str (v : attr_val) : option string :=
  match v with AV_str s => Some s | _ => None end.

Definition attr_strs (v : attr_val) : list string :=
  match v with AV_strs l => l | _ => [] end.

(** [a.infer(self)] for the index columns listed by [indexables]. *)
Definition infer_index (d : disk) (i : nat) (p : Z * string) : IndexCol :=
  {| ic_name := p.2; ic_cname := p.2; ic_axis := Some p.1; ic_pos := Some (Z.of_nat i);
     ic_kind := attr_str (getattr (d_table_attrs d) (p.2 ++ "_kind"));
     ic_itemsize := None |}.

(** [a.infer(self)] for the value columns: [DataCol.get_attr] reads the
    items, the dtype and the meta tag, then [set_kind]. *)
Definition infer_data (d : disk) (base_pos : nat) (i : nat) (c : string) : res DataCol :=
  let dtype := attr_str (getattr (d_table_attrs d) (c ++ "_dtype")) in
  kind ← set_kind dtype;
  Ok {| dc_name := c; dc_cname := c; dc_pos := Some (Z.of_nat (base_pos + i));
        dc_dtype := dtype; dc_kind := kind;
        dc_values := attr_strs (getattr (d_table_attrs d) (c ++ "_kind"));
        dc_meta := attr_str (getattr (d_table_attrs d) (c ++ "_meta"));
        dc_metadata := d_metadata d !! c; dc_itemsize := None |}.

(** [existing_table = self.copy(); existing_table.infer_axes()]: the
    schema read back from the persisted attributes, [None] when there is
    no table. *)
Definition infer_existing (d : disk) : res (option schema) :=
  if is_exists d then
    let index_cols :=
      match getattr (d_attrs d) "index_cols" with AV_index_cols l => l | _ => [] end in
    let values_cols := attr_strs (getattr (d_attrs d) "values_cols") in
    values_axes ← mapM id (imap (infer_data d (length index_cols)) values_cols);
    Ok (Some {| s_index_axes := imap (infer_index d) index_cols;
                s_non_index_axes :=
                  match getattr (d_attrs d) "non_index_axes" with
                  | AV_axes l => l
                  | _ => []
                  end;
                s_values_axes := values_axes;
                s_data_columns := attr_strs (getattr (d_attrs d) "data_columns");
                s_nan_rep := attr_str (getattr (d_attrs d) "nan_rep");
                s_encoding := attr_str (getattr (d_attrs d) "encoding");
                s_errors := default "strict" (attr_str (getattr (d_attrs d) "errors"));
                s_levels := match getattr (d_attrs d) "levels" with
                            | AV_strs l => Some l
                            | _ => None
                            end;
                s_metadata := attr_strs (getattr (d_attrs d) "metadata");
                s_info := match getattr (d_attrs d) "info" with AV_info i => i | _ => ∅ end;
                s_index_data := []; s_value_data := [] |})
  else Ok None.

(** [create_axes(..., validate)]: [derive] stands for the body that
    builds the axes of the incoming object from the object and the
    existing table; it only reads.  The existing table is a copy of the
    table being written, so both carry the same [table_type]. *)
Definition create_axes (table_type : string) (derive : option schema -> res schema)
  (validate : bool) (d : disk) : res schema :=
  existing ← infer_existing d;
  s ← derive existing;
  _ ← (if validate then Table_validate table_type table_type s existing else Ok tt);
  Ok s.

(** The steps of [validate_and_set] for an index column. *)
Definition IndexCol_validate_attr (append : bool) (a : IndexCol) (d : disk) : res unit :=
  if append then
    let existing_kind := getattr (d_table_attrs d) (ic_name a ++ "_kind") in
    if negb (bool_decide (existing_kind = AV_none))
       && negb (bool_decide (existing_kind = opt_str (ic_kind a)))
    then Raise (TypeError "incompatible kind in col")
    else Ok tt
  else Ok tt.

Definition IndexCol_validate_and_set (append : bool) (a : IndexCol) (d : disk)
  : res unit * disk :=
  let view := {| cv_cname := ic_cname a; cv_kind := ic_kind a;
                 cv_col := d_description d !! ic_cname a; cv_itemsize := ic_itemsize a |} in
  match validate_col view None with
  | Raise e => (Raise e, d)
  | Ok _ =>
      match IndexCol_validate_attr append a d with
      | Raise e => (Raise e, d)
      | Ok _ => (Ok tt, set_table_attr (ic_name a ++ "_kind") (opt_str (ic_kind a)) d)
      end
  end.

(** [DataCol.validate_attr(append)] *)
Definition DataCol_validate_attr (append : bool) (a : DataCol) (d : disk) : res unit :=
  if append then
    let existing_fields := getattr (d_table_attrs d) (dc_name a ++ "_kind") in
    if negb (bool_decide (existing_fields = AV_none))
       && negb (bool_decide (existing_fields = AV_strs (dc_values a)))
    then Raise (ValueError "appended items do not match existing items in table!")
    else
      let existing_dtype := getattr (d_table_attrs d) (dc_name a ++ "_dtype") in
      if negb (bool_decide (existing_dtype = AV_none))
         && negb (bool_decide (existing_dtype = opt_str (dc_dtype a)))
      then Raise (ValueError "appended items dtype do not match existing items dtype in table!")
      else Ok tt
  else Ok tt.

(** [DataCol.validate_metadata(handler)] *)
Definition DataCol_validate_metadata (a : DataCol) (d : disk) : res unit :=
  if bool_decide (dc_meta a = Some "category") then
    match dc_metadata a, d_metadata d !! dc_cname a with
    | Some new_metadata, Some cur_metadata =>
        if bool_decide (new_metadata = cur_metadata) then Ok tt
        else Raise (ValueError "cannot append a categorical with different categories")
    | _, _ => Ok tt
    end
  else Ok tt.

(** [write_metadata] followed by [DataCol.set_attr] *)
Definition DataCol_set (a : DataCol) (d : disk) : disk :=
  let d1 := match dc_metadata a with
            | Some m => set_metadata (dc_cname a) m d
            | None => d
            end in
  let d2 := set_table_attr (dc_name a ++ "_kind") (AV_strs (dc_values a)) d1 in
  let d3 := set_table_attr (dc_name a ++ "_meta") (opt_str (dc_meta a)) d2 in
  match dc_dtype a with
  | Some dt => set_table_attr (dc_name a ++ "_dtype") (AV_str dt) d3
  | None => d3
  end.

Definition DataCol_validate_and_set (append : bool) (a : DataCol) (d : disk)
  : res unit * disk :=
  let view := {| cv_cname := dc_cname a; cv_kind := dc_kind a;
                 cv_col := d_description d !! dc_cname a; cv_itemsize := dc_itemsize a |} in
  match validate_col view None with
  | Raise e => (Raise e, d)
  | Ok _ =>
      match DataCol_validate_attr append a d with
      | Raise e => (Raise e, d)
      | Ok _ =>
          match DataCol_validate_metadata a d with
          | Raise e => (Raise e, d)
          | Ok _ => (Ok tt, DataCol_set a d)
          end
      end
  end.

(** [self.axes]: the index columns, then the value columns. *)
Inductive axis_col : Type :=
| AIndex (a : IndexCol)
| AData (a : DataCol).

Definition axes (s : schema) : list axis_col :=
  map AIndex (s_index_axes s) ++ map AData (s_values_axes s).

(** The loop [for a in self.axes: a.validate_and_set(self, append)]; an
    exception leaves what was written so far in place. *)
Fixpoint validate_and_set_all (append : bool) (l : list axis_col) (d : disk)
  : res unit * disk :=
  match l with
  | [] => (Ok tt, d)
  | a :: rest =>
      let r := match a with
               | AIndex c => IndexCol_validate_and_set append c d
               | AData c => DataCol_validate_and_set append c d
               end in
      match r with
      | (Ok _, d') => validate_and_set_all append rest d'
      | (Raise e, d') => (Raise e, d')
      end
  end.

(** [self._handle.remove_node(self.group, "table")] *)
Definition remove_table (d : disk) : disk :=
  {| d_attrs := d_attrs d; d_table_attrs := ∅; d_description := ∅;
     d_node := do_remove_node (d_node d); d_metadata := d_metadata d |}.

Definition cname_width (a : axis_col) : string * Z :=
  match a with
  | AIndex c => (ic_cname c, default 8 (ic_itemsize c))
  | AData c => (dc_cname c, default 8 (dc_itemsize c))
  end.

(** [Table.set_attrs] *)
Definition set_attrs (table_type : string) (s : schema) (d : disk) : disk :=
  let d := set_group_attr "table_type" (AV_str table_type) d in
  let d := set_group_attr "index_cols"
             (AV_index_cols (map (fun c => (default 0 (ic_axis c), ic_cname c))
                                 (s_index_axes s))) d in
  let d := set_group_attr "values_cols" (AV_strs (map dc_cname (s_values_axes s))) d in
  let d := set_group_attr "non_index_axes" (AV_axes (s_non_index_axes s)) d in
  let d := set_group_attr "data_columns" (AV_strs (s_data_columns s)) d in
  let d := set_group_attr "nan_rep" (opt_str (s_nan_rep s)) d in
  let d := set_group_attr "encoding" (opt_str (s_encoding s)) d in
  let d := set_group_attr "errors" (AV_str (s_errors s)) d in
  let d := set_group_attr "levels"
             (match s_levels s with Some l => AV_strs l | None => AV_int 1 end) d in
  let d := set_group_attr "metadata" (AV_strs (s_metadata s)) d in
  set_group_attr "info" (AV_info (s_info s)) d.

(** [create_description], [set_attrs] and [create_table]: the record
    layout is created from the axes ([cname] to the item size of the
    column atom; the size of a non-string atom plays no role here and is
    put at 8), the table attributes are written and an empty table is
    created. *)
Definition create_table (table_type : string) (s : schema) (d : disk) : disk :=
  let d1 := set_attrs table_type s d in
  {| d_attrs := d_attrs d1; d_table_attrs := ∅;
     d_description := list_to_map (map cname_width (axes s));
     d_node := {| t_rows := Some []; t_ops := t_ops (d_node d1) |};
     d_metadata := d_metadata d1 |}.

(** [AppendableTable.write(obj, append, chunksize, dropna, ...)].  The
    loop [for a in self.axes: a.validate(self, append)] between
    [create_axes] and the creation of the table only checks that the
    labels of a data column are of object dtype; labels are strings here. *)
Definition AppendableTable_write (table_type : string)
  (derive : option schema -> res schema) (append : bool)
  (chunksize : option Z) (dropna : bool) (d : disk) : res unit * disk :=
  let d1 := if negb append && is_exists d then remove_table d else d in
  match create_axes table_type derive append d1 with
  | Raise e => (Raise e, d1)
  | Ok s =>
      let d2 := if is_exists d1 then d1 else create_table table_type s d1 in
      let d3 := set_group_attr "info" (AV_info (s_info s)) d2 in
      match validate_and_set_all append (axes s) d3 with
      | (Raise e, d4) => (Raise e, d4)
      | (Ok _, d4) =>
          let r := write_data chunksize dropna (s_index_data s) (s_value_data s) (d_node d4) in
          (r.1, set_node r.2 d4)
      end
  end.

End Append.

(** ** The store facade: [HDFStore.remove] *)

Section Remove.
Context `{C : Collaborators}.
Context {A : Type}.

(** What [get_storer(key)] finds under a key: a table with its rows, a
    fixed-format object, or a bare group for which no storer can be
    created ([_create_storer] raises [TypeError]). *)
Inductive node : Type :=
| N_table (rows : list A)
| N_fixed
| N_group.

(** [com.all_none(where, start, stop)] *)
Definition all_none (w : where_t E) (start stop : option Z) : bool :=
  is_W_none w && bool_decide (start = None) && bool_decide (stop = None).

(** [node._f_remove(recursive=True)]: the node and everything below it. *)
Definition remove_subtree (key : string) (st : gmap string node) : gmap string node :=
  filter (fun kv => kv.1 ≠ key ∧ ¬ String.prefix (key ++ "/") kv.1) st.

(** [HDFStore.remove(key, where, start, stop)] *)
Definition HDFStore_remove (st : gmap string node) (key : string) (w : where_t E)
  (start stop : option Z) : res (option Z) * gmap string node :=
  let w := _ensure_term w in
  match st !! key with
  | None => (Raise (KeyError "No object named key in the file"), st)
  | Some N_group =>
      if negb (is_W_none w)
      then (Raise (ValueError "trying to remove a node with a non-None where clause!"), st)
      else (Ok None, remove_subtree key st)
  | Some N_fixed =>
      if all_none w start stop then (Ok None, remove_subtree key st)
      else (Raise (ValueError "can only remove with where on objects written as tables"), st)
  | Some (N_table rows) =>
      if all_none w start stop then (Ok None, remove_subtree key st)
      else
        let r := AppendableTable_delete rows w start stop in
        (r.1, match t_rows r.2 with
              | Some rows' => <[key := N_table rows']> st
              | None => remove_subtree key st
              end)
  end.

End Remove.

(** ** Chunked reads: [TableIterator] *)

(** [l[a:b]] on a Python sequence: negative bounds count from the end and
    both bounds are clipped to the length. *)
Definition py_slice {X : Type} (l : list X) (a b : Z) : list X :=
  let n := Z.of_nat (length l) in
  let a' := clip_index n a in
  let b' := clip_index n b in
  take (Z.to_nat (b' - a')) (drop (Z.to_nat a') l).

Section TableIterator.

(** [W] is the type of predicates handed to the read function, [Row] the
    type of the rows of a result; [len(value)] is the number of rows. *)
Context {W Row : Type}.

(** The predicate argument of [func]: the caller's [where], or a slice of
    the coordinates. *)
Inductive func_where : Type :=
| FW_where (w : W)
| FW_coords (c : list Z).

Record TableIterator : Type := {
  ti_is_table : bool;
  ti_where : W;
  ti_nrows : option Z;
  ti_start : option Z;
  ti_stop : option Z;
  ti_coordinates : option (list Z);
  ti_chunksize : option Z;
  ti_auto_close : bool
}.

(** [TableIterator.__init__(store, s, func, where, nrows, start, stop,
    iterator, chunksize, auto_close)]; [is_table] is [s.is_table], which
    for the storers of this module is the same as [isinstance(s, Table)]. *)
Definition TableIterator_init (is_table : bool) (w : W) (nrows start stop : option Z)
  (iterator : bool) (chunksize : option Z) (auto_close : bool) : TableIterator :=
  let bounds :=
    if is_table then
      let nrows := default 0 nrows in
      let start := default 0 start in
      let stop := default nrows stop in
      (Some nrows, Some start, Some (Z.min nrows stop))
    else (nrows, start, stop) in
  {| ti_is_table := is_table; ti_where := w;
     ti_nrows := bounds.1.1; ti_start := bounds.1.2; ti_stop := bounds.2;
     ti_coordinates := None;
     ti_chunksize :=
       if iterator || bool_decide (is_Some chunksize)
       then Some (default 100000 chunksize) else None;
     ti_auto_close := auto_close |}.

(** How a run of the generator ends: exhausted (after [self.close()],
    which closes the store when [auto_close] is set), with an exception,
    or still running when the allotted turns of the loop are used up. *)
Inductive iter_end : Type :=
| Exhausted (store_closed : bool)
| Failed (e : exn)
| Running.

(** [self.func]: the read function, called with [start], [stop] and a
    predicate; it returns the object read ([None] or a list of rows). *)
Variable func : option Z -> option Z -> func_where -> res (option (list Row)).

(** The loop [while current < self.stop] of [__iter__]; the values
    yielded are collected in order. *)
Fixpoint iter_loop (fuel : nat) (current stop chunksize : Z) (coordinates : list Z)
  (auto_close : bool) : list (list Row) * iter_end :=
  match fuel with
  | O => ([], Running)
  | S fuel' =>
      if current <? stop then
        let stop' := Z.min (current + chunksize) stop in
        match func None None (FW_coords (py_slice coordinates current stop')) with
        | Raise e => ([], Failed e)
        | Ok value =>
            let r := iter_loop fuel' stop' stop chunksize coordinates auto_close in
            match value with
            | None | Some [] => r
            | Some v => (v :: r.1, r.2)
            end
        end
      else ([], Exhausted auto_close)
  end.

(** [TableIterator.__iter__], consumed for at most [fuel] turns of the
    loop.  Comparing or adding [None] raises [TypeError]. *)
Definition TableIterator_iter (fuel : nat) (it : TableIterator) : list (list Row) * iter_end :=
  match ti_start it, ti_stop it, ti_chunksize it, ti_coordinates it with
  | Some start, Some stop, Some chunksize, Some coordinates =>
      iter_loop fuel start stop chunksize coordinates (ti_auto_close it)
  | Some start, Some stop, _, _ =>
      if start <? stop
      then ([], Failed (TypeError "unsupported operand or subscript on NoneType"))
      else ([], Exhausted (ti_auto_close it))
  | _, _, _, _ =>
      ([], Failed (TypeError "'<' not supported between instances of 'NoneType' and 'int'"))
  end.

(** What [get_result] returns: the iterator itself, or the object read in
    one go together with the state of the store handle after
    [self.close()]. *)
Inductive iterator_result : Type :=
| R_iterator (it : TableIterator)
| R_value (v : option (list Row)) (store_closed : bool).

(** [self.s.read_coordinates(where, start, stop)] *)
Variable read_coordinates : W -> option Z -> option Z -> res (list Z).

(** [TableIterator.get_result(coordinates)] *)
Definition get_result (it : TableIterator) (coordinates : bool) : res iterator_result :=
  match ti_chunksize it with
  | Some _ =>
      if negb (ti_is_table it)
      then Raise (TypeError "can only use an iterator or chunksize on a table")
      else
        c ← read_coordinates (ti_where it) None None;
        Ok (R_iterator
              {| ti_is_table := ti_is_table it; ti_where := ti_where it;
                 ti_nrows := ti_nrows it; ti_start := ti_start it; ti_stop := ti_stop it;
                 ti_coordinates := Some c; ti_chunksize := ti_chunksize it;
                 ti_auto_close := ti_auto_close it |})
  | None =>
      w ← (if coordinates then
             if negb (ti_is_table it)
             then Raise (TypeError "can only read_coordinates on a table")
             else
               c ← read_coordinates (ti_where it) (ti_start it) (ti_stop it);
               Ok (FW_coords c)
           else Ok (FW_where (ti_where it)));
      results ← func (ti_start it) (ti_stop it) w;
      Ok (R_value results (ti_auto_close it))
  end.

(** *** Specification side: the chunks of a coordinate list *)

(** The read function run over a list of coordinate chunks in order: the
    non-empty results up to the first exception. *)
Fixpoint yield_chunks (chunks : list (list Z)) (auto_close : bool)
  : list (list Row) * iter_end :=
  match chunks with
  | [] => ([], Exhausted auto_close)
  | c :: rest =>
      match func None None (FW_coords c) with
      | Raise e => ([], Failed e)
      | Ok value =>
          let r := yield_chunks rest auto_close in
          match value with
          | None | Some [] => r
          | Some v => (v :: r.1, r.2)
          end
      end
  end.

End TableIterator.

(** Chunk number [i] of the positions [[start, stop)] of a coordinate
    list, for chunk size [c]. *)
Definition coordinate_chunk (coordinates : list Z) (start stop c : Z) (i : nat) : list Z :=
  slice coordinates (start + Z.of_nat i * c) (Z.min (start + (Z.of_nat i + 1) * c) stop).

(** ** Groups of the file: [_is_metadata_of] and [read_hdf] *)

(** A group by its place in the hierarchy: the root, or the child
    [_v_name] of [_v_parent].  Two groups are the same node exactly when
    they are at the same place. *)
Inductive group : Type :=
| Root
| Child (_v_parent : group) (_v_name : string).

#[global] Instance group_eq_dec : EqDecision group.
Proof. solve_decision. Defined.

Fixpoint _v_depth (g : group) : Z :=
  match g with
  | Root => 0
  | Child parent _ => _v_depth parent + 1
  end.

(** The names on the way from the root down to the group. *)
Fixpoint path_names (g : group) : list string :=
  match g with
  | Root => []
  | Child parent name => path_names parent ++ [name]
  end.

(** [_v_pathname]: ["/"] for the root, ["/a/b"] below it. *)
Definition _v_pathname (g : group) : string :=
  match g with
  | Root => "/"
  | _ => String.concat "" (map (fun n => ("/" ++ n)%string) (path_names g))
  end.

(** The loop [while current._v_depth > 1] of [_is_metadata_of]. *)
Fixpoint metadata_walk (current parent_group : group) : bool :=
  match current with
  | Root => false
  | Child parent name =>
      if 1 <? _v_depth current then
        if bool_decide (parent = parent_group) && bool_decide (name = "meta") then true
        else metadata_walk parent parent_group
      else false
  end.

(** [_is_metadata_of(group, parent_group)] *)
Definition _is_metadata_of (g parent_group : group) : bool :=
  if _v_depth g <=? _v_depth parent_group then false
  else metadata_walk g parent_group.

Section ReadHdf.
Context `{C : Collaborators}.
Context {Obj : Type}.

(** What [read_hdf] is pointed at: an [HDFStore] (open or closed), a path
    (to an existing file or not), or anything else.  [groups] is what
    [store.groups()] lists once the store is open. *)
Inductive hdf_source : Type :=
| From_store (is_open : bool) (groups : list group)
| From_path (path : string) (file_exists : bool) (groups : list group)
| From_buffer.

(** [HDFStore(path_or_buf, mode=mode, **kwargs)] and
    [store.select(key, auto_close=auto_close, **kwargs)] *)
Variable open_store : string -> res unit.
Variable select : string -> bool -> option (where_t E) -> res Obj.

(** The clause [except (ValueError, TypeError, KeyError)]. *)
Definition is_read_error (e : exn) : bool :=
  match e with
  | ValueError _ | StringTooLong _ _ _ | TypeError _ | KeyError _ => true
  | _ => false
  end.

(** The [try] block of [read_hdf]. *)
Definition read_hdf_select (groups : list group) (key : option string) (auto_close : bool)
  (w : option (where_t E)) : res Obj :=
  key ← match key with
        | Some k => Ok k
        | None =>
            match groups with
            | [] => Raise (ValueError "No dataset in HDF5 file.")
            | candidate_only_group :: rest =>
                if forallb (fun g => _is_metadata_of g candidate_only_group) rest
                then Ok (_v_pathname candidate_only_group)
                else Raise (ValueError
                       "key must be provided when HDF5 file contains multiple datasets.")
            end
        end;
  select key auto_close w.

(** [read_hdf(path_or_buf, key, mode, **kwargs)]; [w] is the [where]
    keyword when given.  The second component tells whether [read_hdf]
    closed the store on the way out of its exception handler.  The
    exceptions outside the classes of [exn] are carried by
    [PyException]. *)
Definition read_hdf (src : hdf_source) (key : option string) (mode : string)
  (w : option (where_t E)) : res Obj * bool :=
  if negb (bool_decide (mode ∈ ["r"; "r+"; "a"]))
  then (Raise (ValueError ("mode " ++ mode ++ " is not allowed while performing a read. "
                           ++ "Allowed modes are r, r+ and a.")), false)
  else
    let w := _ensure_term <$> w in
    match src with
    | From_store false _ =>
        (Raise (PyException "IOError: The HDFStore must be open for reading."), false)
    | From_store true groups => (read_hdf_select groups key false w, false)
    | From_buffer =>
        (Raise (PyException
           "NotImplementedError: Support for generic buffers has not been implemented."),
         false)
    | From_path path false _ =>
        (Raise (PyException ("FileNotFoundError: File " ++ path ++ " does not exist")), false)
    | From_path _ true groups =>
        match open_store mode with
        | Raise e => (Raise e, false)
        | Ok _ =>
            match read_hdf_select groups key true w with
            | Raise e => (Raise e, is_read_error e)
            | Ok obj => (Ok obj, false)
            end
        end
    end.

End ReadHdf.

(** ** Data columns: [Table.validate_data_columns] *)

(** The [data_columns] argument: [None], [True], or a list of labels. *)
Inductive data_columns_t : Type :=
| DC_none
| DC_true
| DC_list (l : list string).

(** The truth value of a [data_columns] argument. *)
Definition data_columns_truthy (dc : data_columns_t) : bool :=
  match dc with
  | DC_none => false
  | DC_true => true
  | DC_list l => negb (bool_decide (l = []))
  end.

(** [min_itemsize] where the order of the dictionary keys matters: the
    items in insertion order, each key once. *)
Inductive min_itemsize_items : Type :=
| MII_none
| MII_int (n : Z)
| MII_dict (items : list (string * Z)).

(** [min_itemsize.keys()] when [min_itemsize] is a dictionary. *)
Definition min_itemsize_keys (mi : min_itemsize_items) : list string :=
  match mi with
  | MII_dict items => map fst items
  | _ => []
  end.

(** [Table.validate_data_columns(data_columns, min_itemsize)];
    [non_index_axes] is [self.non_index_axes], [info_type axis] is
    [self.info.get(axis, dict()).get("type")], and [str_axis] and
    [str_data_columns] print the axis and the argument for the error
    message. *)
Definition validate_data_columns (str_axis : Z -> string)
  (str_data_columns : data_columns_t -> string)
  (non_index_axes : list (Z * list string))
  (info_type : Z -> option string) (data_columns : data_columns_t)
  (min_itemsize : min_itemsize_items) : res (list string) :=
  match non_index_axes with
  | [] => Ok []
  | (axis, axis_labels) :: _ =>
      if bool_decide (info_type axis = Some "MultiIndex") && data_columns_truthy data_columns
      then Raise (ValueError ("cannot use a multi-index on axis [" ++ str_axis axis
                              ++ "] with data_columns " ++ str_data_columns data_columns))
      else
        let data_columns :=
          match data_columns with
          | DC_true => axis_labels
          | DC_none => []
          | DC_list l => l
          end in
        let data_columns :=
          match min_itemsize with
          | MII_dict items =>
              data_columns ++
              List.filter (fun k => negb (bool_decide (k = "values"))
                                    && negb (bool_decide (k ∈ data_columns)))
                          (map fst items)
          | _ => data_columns
          end in
        Ok (List.filter (fun c => bool_decide (c ∈ axis_labels)) data_columns)
  end.

(** ** Reading the annotations back: [IndexCol.set_info] *)

(** [IndexCol.set_info(info)]: every annotation recorded under the
    column's name becomes an attribute of the column, a recorded [None]
    included.  [ci_attrs] holds the attributes other than the name. *)
Definition set_info (info : info_t) (c : col_info) : col_info :=
  match info !! ci_name c with
  | Some idx =>
      {| ci_name := ci_name c;
         ci_attrs := merge (fun a (i : option (option string)) =>
                              match i with Some v => v | None => a end)
                           (ci_attrs c) idx |}
  | None => c
  end.

(** The annotation recorded for [key] under a column name, [None] when
    nothing is recorded. *)
Definition recorded (info : info_t) (name key : string) : option string :=
  mjoin (default ∅ (info !! name) !! key).

(** ** Boolean masks as coordinates *)

(** The row numbers [k], [k + 1], ... at which a mask holds [True]. *)
Fixpoint mask_positions (k : Z) (m : list bool) : list Z :=
  match m with
  | [] => []
  | b :: tl => (if b then [k] else []) ++ mask_positions (k + 1) tl
  end.

(** ** Matching the blocks of an append to the existing table:
       the reordering step of [create_axes] *)

Section ReorderBlocks.

(** [B] is the type of a block's payload; a block is paired with its
    items. *)
Context {B : Type}.

(** The dictionary [by_items] from the items of a block (as a tuple) to
    the block; of two blocks with the same items the later one stays. *)
Definition by_items (blocks : list (list string * B)) : gmap (list string) B :=
  foldl (fun m b => <[b.1 := b.2]> m) ∅ blocks.

(** The loop [for ea in existing_table.values_axes] with
    [by_items.pop(items)]; [existing] holds [ea.values] for the value
    axes of the existing table, in order.  The items are column labels,
    strings that [pprint_thing] prints as they are. *)
Fixpoint pop_blocks (by_items : gmap (list string) B) (existing : list (list string))
  : res (list (list string * B)) :=
  match existing with
  | [] => Ok []
  | items :: rest =>
      match by_items !! items with
      | Some b =>
          new_blocks ← pop_blocks (delete items by_items) rest;
          Ok ((items, b) :: new_blocks)
      | None =>
          Raise (ValueError ("cannot match existing table structure for ["
                             ++ String.concat "," items ++ "] on appending data"))
      end
  end.

(** The block [if existing_table is not None:] that reorders [blocks]
    and [blk_items] after the existing table. *)
Definition reorder_blocks (blocks : list (list string * B))
  (existing : option (list (list string))) : res (list (list string * B)) :=
  match existing with
  | None => Ok blocks
  | Some existing => pop_blocks (by_items blocks) existing
  end.

End ReorderBlocks.

(** ** Reading several tables together: [HDFStore.select_as_multiple] *)

Section SelectAsMultiple.
Context `{C : Collaborators}.
Context {Row : Type}.

(** A storer as [select_as_multiple] sees it: its pathname, whether it
    is a table, its row count, and the axis number [non_index_axes[0][0]]
    when there is a non-index axis. *)
Record storer_view : Type := {
  sv_pathname : string;
  sv_is_table : bool;
  sv_nrows : option Z;
  sv_axis : option Z
}.

(** The [keys] argument: one string, a list or tuple of strings, or
    anything else. *)
Inductive keys_t : Type :=
| K_str (k : string)
| K_list (l : list string)
| K_other.

(** [self.get_storer(key)] (it raises [KeyError] when there is no node,
    so the test [t is None] of the source never fires),
    [self.select(key, where, start, stop, iterator, chunksize)],
    [t.read(where, start, stop)] for the table under a key,
    [s.read_coordinates(where, start, stop)] for the selector,
    [concat(objs, axis)._consolidate()], and the element that
    [list(set)[0]] picks from the axis numbers. *)
Variable get_storer : string -> res storer_view.
Variable select :
  string -> where_t E -> option Z -> option Z -> bool -> option Z
  -> res (@iterator_result (where_t E) Row).
Variable read :
  string -> option Z -> option Z -> @func_where (where_t E) -> res (option (list Row)).
Variable read_coordinates : string -> where_t E -> option Z -> option Z -> res (list Z).
Variable concat_objs : list (option (list Row)) -> Z -> res (option (list Row)).
Variable first_of_set : list Z -> Z.

(** The loop [for t, k in itertools.chain([(s, selector)], zip(tbls, keys))]. *)
Fixpoint validate_rows (l : list (storer_view * string)) (nrows : option Z)
  : res (option Z) :=
  match l with
  | [] => Ok nrows
  | (t, k) :: rest =>
      if negb (sv_is_table t)
      then Raise (TypeError ("object [" ++ sv_pathname t
                             ++ "] is not a table, and cannot be used in all select as multiple"))
      else
        match nrows with
        | None => validate_rows rest (sv_nrows t)
        | Some n =>
            if bool_decide (sv_nrows t = Some n) then validate_rows rest nrows
            else Raise (ValueError "all tables must have exactly the same nrows!")
        end
  end.

(** The inner function [func] of [select_as_multiple]. *)
Definition read_all (keys : list string) (axis : Z) (_start _stop : option Z)
  (_where : @func_where (where_t E)) : res (option (list Row)) :=
  objs ← mapM (fun k => read k _start _stop _where) keys;
  concat_objs objs axis.

(** [HDFStore.select_as_multiple(keys, where, selector, start, stop,
    iterator, chunksize, auto_close)] *)
Definition select_as_multiple (keys : keys_t) (w : where_t E) (selector : option string)
  (start stop : option Z) (iterator : bool) (chunksize : option Z) (auto_close : bool)
  : res (@iterator_result (where_t E) Row) :=
  let w := _ensure_term w in
  let keys := match keys with K_list [k] => K_str k | other => other end in
  match keys with
  | K_str k => select k w start stop iterator chunksize
  | K_other => Raise (TypeError "keys must be a list/tuple")
  | K_list [] => Raise (ValueError "keys must have a non-zero length")
  | K_list ((k0 :: _) as keys) =>
      let selector := default k0 selector in
      tbls ← mapM get_storer keys;
      s ← get_storer selector;
      nrows ← validate_rows ((s, selector) :: zip tbls keys) None;
      axes ← mapM (fun t => match sv_axis t with
                            | Some a => Ok a
                            | None => Raise (IndexError "list index out of range")
                            end) tbls;
      let axis := first_of_set axes in
      get_result (read_all keys axis) (read_coordinates selector)
        (TableIterator_init (sv_is_table s) w nrows start stop iterator chunksize auto_close)
        true
  end.

End SelectAsMultiple.

(** ** The store file: [get_node], [_create_storer], [_write_to_group],
       [put] and [append] *)

Section StorePaths.
Import Stdlib.Strings.Ascii.

(** The character [/]. *)
Definition slash : Ascii.ascii := "/"%char.

(** [s.split(sep)] for a separator of one character. *)
Fixpoint split_on (sep : Ascii.ascii) (s : string) : list string :=
  match s with
  | EmptyString => [EmptyString]
  | String c rest =>
      if Ascii.eqb c sep then EmptyString :: split_on sep rest
      else
        match split_on sep rest with
        | [] => [String c EmptyString]
        | w :: ws => String c w :: ws
        end
  end.

(** [s.endswith(c)] for one character. *)
Fixpoint endswith_char (c : Ascii.ascii) (s : string) : bool :=
  match s with
  | EmptyString => false
  | String a rest =>
      match rest with
      | EmptyString => Ascii.eqb a c
      | String _ _ => endswith_char c rest
      end
  end.

(** [needle in hay] on strings. *)
Fixpoint contains (needle hay : string) : bool :=
  String.prefix needle hay
  || match hay with
     | EmptyString => false
     | String _ rest => contains needle rest
     end.

(** [s.lower()] on ASCII letters. *)
Definition lower_ascii (c : Ascii.ascii) : Ascii.ascii :=
  let n := Ascii.nat_of_ascii c in
  if (65 <=? n)%nat && (n <=? 90)%nat then Ascii.ascii_of_nat (n + 32) else c.

Fixpoint lower (s : string) : string :=
  match s with
  | EmptyString => EmptyString
  | String c rest => String (lower_ascii c) (lower rest)
  end.

(** A name of a node: not empty, without a slash. *)
Fixpoint no_slash (s : string) : bool :=
  match s with
  | EmptyString => true
  | String a rest => negb (Ascii.eqb a slash) && no_slash rest
  end.

Definition valid_name (n : string) : Prop := n <> "" /\ no_slash n = true.

(** The pathname of the node reached from the root by the given names. *)
Fixpoint pathname (names : list string) : string :=
  match names with
  | [] => ""
  | n :: rest => "/" +:+ n +:+ pathname rest
  end.

(** A key made absolute, as [get_node] does. *)
Definition absolute (key : string) : string :=
  if String.prefix "/" key then key else "/" +:+ key.

End StorePaths.

(** What the store reads of a node of the file: the attributes
    [pandas_type], [table_type] and [pandas_version], the row count of
    the child [table] when there is one, whether the node is itself a
    PyTables table, and [table._v_attrs.fields]. *)
Record gnode : Type := {
  n_pandas_type : option string;
  n_table_type : option string;
  n_pandas_version : option string;
  n_table : option Z;
  n_is_table : bool;
  n_fields : option (list string)
}.

(** The group that [create_group] makes. *)
Definition new_group : gnode :=
  {| n_pandas_type := None; n_table_type := None; n_pandas_version := None;
     n_table := None; n_is_table := false; n_fields := None |}.

(** The store: its path, whether the handle is open, and the nodes of
    the file below the root by their pathname. *)
Record hdfstore : Type := {
  h_path : string;
  h_is_open : bool;
  h_nodes : gmap string gnode
}.

Definition set_nodes (nodes : gmap string gnode) (store : hdfstore) : hdfstore :=
  {| h_path := h_path store; h_is_open := h_is_open store; h_nodes := nodes |}.

(** [HDFStore.get_node(key)]: the node with its pathname, [None] when
    there is none.  The key, made absolute, is a pathname in normal form
    (names separated by single slashes) other than the root. *)
Definition get_node (store : hdfstore) (key : string) : res (option (string * gnode)) :=
  if negb (h_is_open store)
  then Raise (PyException ("ClosedFileError: " ++ h_path store ++ " file is not open!"))
  else
    let key := absolute key in
    Ok ((fun n => (key, n)) <$> h_nodes store !! key).

(** Whether a pathname is [path] or lies below it. *)
Definition under (path p : string) : bool :=
  bool_decide (p = path) || String.prefix (path ++ "/") p.

(** [self._handle.remove_node(group, recursive=True)]: the node and
    everything below it go. *)
Definition remove_node (path : string) (store : hdfstore) : hdfstore :=
  set_nodes (filter (fun kv => under path kv.1 = false) (h_nodes store)) store.

(** The object handed to a write: its class, [value.empty], and
    [value.index.nlevels] when it has an index. *)
Inductive value_class : Type :=
| Is_Series
| Is_DataFrame
| Is_other.

Record value_view : Type := {
  v_class : value_class;
  v_empty : bool;
  v_nlevels : option Z
}.

(** The table classes of [_TABLE_MAP], and the storer classes. *)
Inductive table_storer : Type :=
| GenericTable
| AppendableSeriesTable
| AppendableMultiSeriesTable
| AppendableFrameTable
| AppendableMultiFrameTable
| WORMTable.

Inductive storer_class : Type :=
| Fixed_storer (c : fixed_storer)
| Table_storer (c : table_storer).

Definition _STORER_MAP (pt : string) : option fixed_storer :=
  if bool_decide (pt = "series") then Some SeriesFixed
  else if bool_decide (pt = "frame") then Some FrameFixed
  else None.

Definition _TABLE_MAP (tt : string) : option table_storer :=
  if bool_decide (tt = "generic_table") then Some GenericTable
  else if bool_decide (tt = "appendable_series") then Some AppendableSeriesTable
  else if bool_decide (tt = "appendable_multiseries") then Some AppendableMultiSeriesTable
  else if bool_decide (tt = "appendable_frame") then Some AppendableFrameTable
  else if bool_decide (tt = "appendable_multiframe") then Some AppendableMultiFrameTable
  else if bool_decide (tt = "worm") then Some WORMTable
  else None.

(** The class attributes [is_table], [pandas_kind] and [table_type], and
    the property [is_exists] on a group. *)
Definition is_table (s : storer_class) : bool :=
  match s with Fixed_storer _ => false | Table_storer _ => true end.

Definition pandas_kind (s : storer_class) : string :=
  match s with
  | Fixed_storer SeriesFixed => "series"
  | Fixed_storer FrameFixed => "frame"
  | Table_storer GenericTable => "frame_table"
  | Table_storer AppendableSeriesTable => "series_table"
  | Table_storer AppendableMultiSeriesTable => "series_table"
  | Table_storer AppendableFrameTable => "frame_table"
  | Table_storer AppendableMultiFrameTable => "frame_table"
  | Table_storer WORMTable => "wide_table"
  end.

Definition table_type (c : table_storer) : string :=
  match c with
  | GenericTable => "generic_table"
  | AppendableSeriesTable => "appendable_series"
  | AppendableMultiSeriesTable => "appendable_multiseries"
  | AppendableFrameTable => "appendable_frame"
  | AppendableMultiFrameTable => "appendable_multiframe"
  | WORMTable => "worm"
  end.

Definition storer_is_exists (s : storer_class) (group : gnode) : bool :=
  match s with
  | Fixed_storer _ => true
  | Table_storer _ => bool_decide (is_Some (n_table group))
  end.

(** The truth value of [getattr(group, "table", None)]: a PyTables table
    without rows has length zero and counts as false. *)
Definition table_truthy (group : gnode) : bool :=
  match n_table group with
  | Some nrows => negb (bool_decide (nrows = 0))
  | None => false
  end.

(** The table type that [_create_storer] infers for a writer when the
    node records none. *)
Definition writer_table_type (pt : string) (v : value_view) : option string :=
  if bool_decide (pt = "series_table") then
    match v_nlevels v with
    | Some n =>
        if bool_decide (n = 1) then Some "appendable_series"
        else if 1 <? n then Some "appendable_multiseries"
        else None
    | None => None
    end
  else if bool_decide (pt = "frame_table") then
    match v_nlevels v with
    | Some n =>
        if bool_decide (n = 1) then Some "appendable_frame"
        else if 1 <? n then Some "appendable_multiframe"
        else None
    | None => None
    end
  else if bool_decide (pt = "wide_table") then Some "appendable_panel"
  else if bool_decide (pt = "ndim_table") then Some "appendable_ndim"
  else None.

(** The table type of an existing node that records none. *)
Definition legacy_table_type (group : gnode) : res (option string) :=
  match n_table group with
  | None => Raise (PyException "NoSuchNodeError: group has no child named table")
  | Some _ =>
      match n_fields group with
      | None => Raise (PyException "AttributeError: fields")
      | Some fields =>
          if bool_decide (fields = ["value"]) then Ok (Some "legacy_frame")
          else Ok (Some "legacy_panel")
      end
  end.

(** [Fixed.set_object_info] and the table type that [Table.set_attrs]
    records, on the group at [path]. *)
Definition with_object_info (s : storer_class) (g : gnode) : gnode :=
  {| n_pandas_type := Some (pandas_kind s);
     n_table_type := n_table_type g;
     n_pandas_version := Some "0.15.2";
     n_table := n_table g; n_is_table := n_is_table g; n_fields := n_fields g |}.

Definition with_table_type (c : table_storer) (g : gnode) : gnode :=
  {| n_pandas_type := n_pandas_type g;
     n_table_type := Some (table_type c);
     n_pandas_version := n_pandas_version g;
     n_table := n_table g; n_is_table := n_is_table g; n_fields := n_fields g |}.

Definition set_object_info (s : storer_class) (path : string) (store : hdfstore) : hdfstore :=
  set_nodes (alter (with_object_info s) path (h_nodes store)) store.

(** The loop of [_write_to_group] that creates the groups on the way to
    the key; [path] is the path reached so far and [group] the last
    group found or created. *)
Fixpoint create_groups (paths : list string) (path : string)
  (group : option (string * gnode)) (nodes : gmap string gnode)
  : option (string * gnode) * gmap string gnode :=
  match paths with
  | [] => (group, nodes)
  | p :: rest =>
      if bool_decide (p = "") then create_groups rest path group nodes
      else
        let new_path :=
          ((if endswith_char slash path then path else path ++ "/") ++ p)%string in
        match nodes !! new_path with
        | Some g => create_groups rest new_path (Some (new_path, g)) nodes
        | None =>
            create_groups rest new_path (Some (new_path, new_group))
              (<[new_path := new_group]> nodes)
        end
  end.

(** The path that the loop of [_write_to_group] has reached after the
    names [pre]. *)
Definition reached (pre : list string) : string :=
  match pre with
  | [] => "/"
  | _ => pathname pre
  end.

(** [_FORMAT_MAP] and [HDFStore._validate_format] *)
Definition _FORMAT_MAP (f : string) : option string :=
  if bool_decide (f = "f") || bool_decide (f = "fixed") then Some "fixed"
  else if bool_decide (f = "t") || bool_decide (f = "table") then Some "table"
  else None.

Definition _validate_format (format : string) : res string :=
  match _FORMAT_MAP (lower format) with
  | Some f => Ok f
  | None => Raise (TypeError ("invalid HDFStore format specified [" ++ format ++ "]"))
  end.

Section WriteToGroup.

(** The tail of the message of [_create_storer]'s error (the group, the
    type of the value and the format, as printed),
    [s.write(obj=value, append=append, ...)] and
    [s.create_index(columns=index)] on the group at a path, and the
    options [io.hdf.default_format] and [io.hdf.dropna_table]. *)
Variable error_context : gnode -> option value_view -> option string -> string.
Variable storer_write :
  storer_class -> string -> value_view -> bool -> bool -> hdfstore -> res unit * hdfstore.
Variable create_index : storer_class -> string -> hdfstore -> res unit * hdfstore.
Variable default_format : option string.
Variable dropna_table : bool.

Definition storer_error (t : string) (group : gnode) (value : option value_view)
  (format : option string) : exn :=
  TypeError ("cannot properly create the storer for: [" ++ t ++ "] "
             ++ error_context group value format).

(** [HDFStore._create_storer(group, format, value)] *)
Definition _create_storer (group : gnode) (format : option string)
  (value : option value_view) : res storer_class :=
  ptt ← match n_pandas_type group with
        | Some pt => Ok (pt, n_table_type group)
        | None =>
            match value with
            | None =>
                if table_truthy group || n_is_table group
                then Ok ("frame_table", Some "generic_table")
                else Raise (TypeError
                       "cannot create a storer if the object is not existing nor a value are passed")
            | Some v =>
                pt ← match v_class v with
                     | Is_Series => Ok "series"
                     | Is_DataFrame => Ok "frame"
                     | Is_other => Raise (storer_error "_TYPE_MAP" group value format)
                     end;
                Ok (if bool_decide (format = Some "table") then (pt ++ "_table")%string else pt,
                    n_table_type group)
            end
        end;
  let pt := ptt.1 in
  if negb (contains "table" pt) then
    match _STORER_MAP pt with
    | Some c => Ok (Fixed_storer c)
    | None => Raise (storer_error "_STORER_MAP" group value format)
    end
  else
    t ← match ptt.2 with
        | Some t => Ok (Some t)
        | None =>
            match value with
            | Some v => Ok (writer_table_type pt v)
            | None => legacy_table_type group
            end
        end;
    match t ≫= _TABLE_MAP with
    | Some c => Ok (Table_storer c)
    | None => Raise (storer_error "_TABLE_MAP" group value format)
    end.

(** [HDFStore._write_to_group(key, value, format, index, append,
    complib, dropna, ...)]; [index] and [complib] stand for the truth
    values of these arguments. *)
Definition _write_to_group (store : hdfstore) (key : string) (value : value_view)
  (format : string) (index append complib dropna : bool) : res unit * hdfstore :=
  match get_node store key with
  | Raise e => (Raise e, store)
  | Ok found =>
      let '(group, store) :=
        match found with
        | Some (path, _) =>
            if negb append then (None, remove_node path store) else (found, store)
        | None => (None, store)
        end in
      if v_empty value && (bool_decide (format = "table") || append) then (Ok tt, store)
      else
        let '(group, store) :=
          match group with
          | Some _ => (group, store)
          | None =>
              let r := create_groups (split_on slash key) "/" None (h_nodes store) in
              (r.1, set_nodes r.2 store)
          end in
        match group with
        | None =>
            (Raise (PyException
                      "AttributeError: 'NoneType' object has no attribute '_v_attrs'"), store)
        | Some (path, g) =>
            match _create_storer g (Some format) (Some value) with
            | Raise e => (Raise e, store)
            | Ok s =>
                let checked :=
                  if append then
                    if negb (is_table s)
                       || (is_table s && bool_decide (format = "fixed") && storer_is_exists s g)
                    then (Raise (ValueError "Can only append to Tables"), store)
                    else if negb (storer_is_exists s g)
                         then (Ok tt, set_object_info s path store)
                         else (Ok tt, store)
                  else (Ok tt, set_object_info s path store) in
                match checked with
                | (Raise e, store) => (Raise e, store)
                | (Ok _, store) =>
                    if negb (is_table s) && complib
                    then (Raise (ValueError "Compression not supported on Fixed format stores"),
                          store)
                    else
                      match storer_write s path value append dropna store with
                      | (Raise e, store) => (Raise e, store)
                      | (Ok _, store) =>
                          if is_table s && index then create_index s path store
                          else (Ok tt, store)
                      end
                end
            end
        end
  end.

(** [HDFStore.put(key, value, format, append, index, complib, dropna)] *)
Definition HDFStore_put (store : hdfstore) (key : string) (value : value_view)
  (format : option string) (append index complib dropna : bool) : res unit * hdfstore :=
  let format :=
    match format with
    | Some f => f
    | None =>
        match default_format with
        | Some f => if bool_decide (f = "") then "fixed" else f
        | None => "fixed"
        end
    end in
  match _validate_format format with
  | Raise e => (Raise e, store)
  | Ok format => _write_to_group store key value format index append complib dropna
  end.

(** [HDFStore.append(key, value, format, append, columns, dropna, index,
    complib)]; [columns] stands for [columns is not None]. *)
Definition HDFStore_append (store : hdfstore) (key : string) (value : value_view)
  (format : option string) (append columns : bool) (dropna : option bool)
  (index complib : bool) : res unit * hdfstore :=
  if columns
  then (Raise (TypeError "columns is not a supported keyword in append, try data_columns"),
        store)
  else
    let dropna := default dropna_table dropna in
    let format :=
      match format with
      | Some f => f
      | None =>
          match default_format with
          | Some f => if bool_decide (f = "") then "table" else f
          | None => "table"
          end
      end in
    match _validate_format format with
    | Raise e => (Raise e, store)
    | Ok format => _write_to_group store key value format index append complib dropna
    end.

End WriteToGroup.

(** ** Splitting a frame over several tables: [HDFStore.append_to_multiple] *)

(** [Index.difference(other)]: the labels of the index that are not in
    [other], each once, sorted. *)
Definition Index_difference (self other : list string) : list string :=
  merge_sort String.le (List.filter (fun c => bool_decide (c ∉ other)) (remove_dups self)).

(** The position of a label in an index. *)
Fixpoint get_loc (x : string) (l : list string) : option nat :=
  match l with
  | [] => None
  | y :: tl => if bool_decide (y = x) then Some 0%nat else S <$> get_loc x tl
  end.

(** [Index.get_indexer(target)]: the position of each label of the
    target, [-1] for a label that is absent; an index with repeated
    labels refuses. *)
Definition get_indexer (self target : list string) : res (list Z) :=
  if bool_decide (NoDup self)
  then Ok (map (fun x => match get_loc x self with
                         | Some i => Z.of_nat i
                         | None => -1
                         end) target)
  else Raise (PyException
                "InvalidIndexError: Reindexing only valid with uniquely valued Index objects").

(** The positions of the labels kept by a filter, in the order of the
    index. *)
Definition positions (P : string -> bool) (l : list string) : list Z :=
  map (fun x => match get_loc x l with Some i => Z.of_nat i | None => -1 end)
      (List.filter P l).

(** [Index.take(indices)]: a negative position counts from the end. *)
Definition Index_take (self : list string) (indices : list Z) : res (list string) :=
  mapM (fun i =>
          let j := if i <? 0 then i + Z.of_nat (length self) else i in
          match (if j <? 0 then None else self !! Z.to_nat j) with
          | Some x => Ok x
          | None => Raise (IndexError "index out of bounds")
          end) indices.

(** The loop over [d.items()] that finds the key whose value is [None]
    and collects the columns of the other keys. *)
Fixpoint find_remain (items : list (string * option (list string)))
  (remain_key : option string) (remain_values : list string)
  : res (option string * list string) :=
  match items with
  | [] => Ok (remain_key, remain_values)
  | (k, None) :: rest =>
      match remain_key with
      | Some _ =>
          Raise (ValueError "append_to_multiple can only have one value in d that is None")
      | None => find_remain rest (Some k) remain_values
      end
  | (k, Some v) :: rest => find_remain rest remain_key (remain_values ++ v)
  end.

(** The columns given to the key whose value is [None]:
    [ordered.take(sorted(ordered.get_indexer(ordered.difference(remain_values))))]. *)
Definition remaining_columns (ordered remain_values : list string) : res (list string) :=
  let ordd := Index_difference ordered remain_values in
  ordd ← get_indexer ordered ordd;
  Index_take ordered (merge_sort Z.le ordd).

(** The dictionary [d] once the value [None] has been replaced; the keys
    of a dictionary are pairwise different, so the key found is the only
    one whose value is [None]. *)
Definition split_value (ordered : list string) (d : list (string * option (list string)))
  : res (list (string * list string)) :=
  r ← find_remain d None [];
  match r.1 with
  | Some remain_key =>
      remaining ← remaining_columns ordered r.2;
      Ok (map (fun kv => (kv.1, if bool_decide (kv.1 = remain_key) then remaining
                                else default [] kv.2)) d)
  | None => Ok (map (fun kv => (kv.1, default [] kv.2)) d)
  end.

(** [d[k]] on the items of a dictionary. *)
Fixpoint dict_get {A : Type} (k : string) (d : list (string * A)) : option A :=
  match d with
  | [] => None
  | (k', v) :: rest => if bool_decide (k' = k) then Some v else dict_get k rest
  end.

Section AppendToMultiple.

(** [Frame] is the type of the frame written, [St] the state of the
    store. *)
Context {Frame St : Type}.

(** [value.axes[axis]] for the splitting axis of a frame (its columns),
    [value.reindex(v, axis=axis)], the block that keeps the rows having a
    value in every table ([dropna]), and
    [self.append(k, val, data_columns=dc, **kwargs)]. *)
Variable columns_of : Frame -> list string.
Variable reindex : list string -> Frame -> Frame.
Variable sync_rows : list (list string) -> Frame -> res Frame.
Variable append : string -> Frame -> data_columns_t -> St -> res unit * St.

(** The loop [for k, v in d.items()] that appends to each table. *)
Fixpoint append_each (selector : string) (data_columns : data_columns_t) (value : Frame)
  (d : list (string * list string)) (st : St) : res unit * St :=
  match d with
  | [] => (Ok tt, st)
  | (k, v) :: rest =>
      let dc := if bool_decide (k = selector) then data_columns else DC_none in
      match append k (reindex v value) dc st with
      | (Raise e, st) => (Raise e, st)
      | (Ok _, st) => append_each selector data_columns value rest st
      end
  end.

(** [HDFStore.append_to_multiple(d, value, selector, data_columns, axes,
    dropna)] for a frame [value]; [d] is [None] when the argument is not
    a dictionary, and [axes] stands for [axes is not None]. *)
Definition append_to_multiple (d : option (list (string * option (list string))))
  (value : Frame) (selector : string) (data_columns : data_columns_t) (axes dropna : bool)
  (st : St) : res unit * St :=
  if axes
  then (Raise (TypeError ("axes is currently not accepted as a parameter to"
                          ++ " append_to_multiple; you can create the "
                          ++ "tables independently instead")), st)
  else
    match d with
    | None =>
        (Raise (ValueError ("append_to_multiple must have a dictionary specified as the "
                            ++ "way to split the value")), st)
    | Some d =>
        if negb (bool_decide (selector ∈ map fst d))
        then (Raise (ValueError
                       "append_to_multiple requires a selector that is in passed dict"), st)
        else
          match split_value (columns_of value) d with
          | Raise e => (Raise e, st)
          | Ok d =>
              let data_columns :=
                match data_columns with
                | DC_none => DC_list (default [] (dict_get selector d))
                | dc => dc
                end in
              match (if dropna then sync_rows (map snd d) value else Ok value) with
              | Raise e => (Raise e, st)
              | Ok value => append_each selector data_columns value d st
              end
          end
    end.

End AppendToMultiple.

(** ** Coordinates narrowed by filters: [Table.read_coordinates] and
       [Table.read_column] *)

(** [a.min()] and [a.max()] of an array of integers; an empty array has
    neither. *)
Definition np_min (a : list Z) : res Z :=
  match a with
  | [] => Raise (ValueError
                   "zero-size array to reduction operation minimum which has no identity")
  | x :: tl => Ok (foldl Z.min x tl)
  end.

Definition np_max (a : list Z) : res Z :=
  match a with
  | [] => Raise (ValueError
                   "zero-size array to reduction operation maximum which has no identity")
  | x :: tl => Ok (foldl Z.max x tl)
  end.

(** [data.iloc[positions]]: a position below zero counts from the end. *)
Definition iloc {X : Type} (data : list X) (positions : list Z) : res (list X) :=
  mapM (fun i =>
          let j := if i <? 0 then i + Z.of_nat (length data) else i in
          match (if j <? 0 then None else data !! Z.to_nat j) with
          | Some x => Ok x
          | None => Raise (IndexError "positional indexers are out-of-bounds")
          end) positions.

(** The test of a filter on the value that a column holds at a row. *)
Definition passes {V : Type} (column : list V) (test : V -> bool) (c : Z) : bool :=
  match column !! Z.to_nat c with
  | Some v => test v
  | None => false
  end.

Section ReadCoordinates.
Context `{C : Collaborators}.

(** [V] is the type of the values of a column. *)
Context {V : Type}.

(** An axis of the table as [read_column] sees it. *)
Record axis_view : Type := {
  av_name : string;
  av_is_data_indexable : bool
}.

(** The axes of the table; the column of the table under a name, as the
    axis converts it (the conversion works value by value, so that the
    slice of a column converts to the slice of the converted column); and
    [selection.filter.format()], the field of each filter with the test
    that its operator and values make on a value of the column. *)
Variable axes : list axis_view.
Variable column_values : string -> list V.
Variable filter_format : Filter -> list (string * (V -> bool)).

(** [Table.read_column(column, where, start, stop)] for a table whose
    axes can be inferred; [where] stands for [where is not None]. *)
Definition read_column (column : string) (where_ : bool) (start stop : option Z)
  : res (list V) :=
  if where_ then Raise (TypeError "read_column does not currently accept a where clause")
  else
    match List.find (fun a => bool_decide (column = av_name a)) axes with
    | Some a =>
        if negb (av_is_data_indexable a)
        then Raise (ValueError ("column [" ++ column ++ "] can not be extracted individually; "
                                ++ "it is not data indexable"))
        else
          let c := column_values column in
          Ok (py_slice c (default 0 start) (default (Z.of_nat (length c)) stop))
    | None => Raise (KeyError ("column [" ++ column ++ "] not found in the table"))
    end.

(** One turn of the loop over the filters of [read_coordinates]. *)
Definition filter_coords (coords : list Z) (entry : string * (V -> bool)) : res (list Z) :=
  lo ← np_min coords;
  hi ← np_max coords;
  data ← read_column entry.1 false (Some lo) (Some (hi + 1));
  lo' ← np_min coords;
  values ← iloc data (map (fun c => c - lo') coords);
  bool_index coords (map entry.2 values).

Fixpoint filter_all_coords (coords : list Z) (filters : list (string * (V -> bool)))
  : res (list Z) :=
  match filters with
  | [] => Ok coords
  | entry :: rest =>
      coords ← filter_coords coords entry;
      filter_all_coords coords rest
  end.

(** [Table.read_coordinates(where, start, stop)]; the result [None]
    stands for [False], returned when the axes cannot be inferred. *)
Definition Table_read_coordinates (infer_axes : bool) (nrows : Z) (w : where_t E)
  (start stop : option Z) : res (option (list Z)) :=
  if negb infer_axes then Ok None
  else
    selection ← Selection_init nrows w start stop;
    let coords := select_coords selection in
    match sel_filter selection with
    | Some f =>
        coords ← filter_all_coords coords (filter_format f);
        Ok (Some coords)
    | None => Ok (Some coords)
    end.

End ReadCoordinates.

(** ** Indexing the columns of a table: [Table.create_index] *)












(** ** Concrete instances used in the examples *)

(** A concrete instance of the collaborators.

    Predicates of the form [index >= k], pushed down as the condition [k];
    the filtered read scans the addressed range in order.  Anything that
    is not such an expression is refused by the parser. *)
Definition threshold_PyTablesExpr (w : where_t Z) : res Z :=
  match w with
  | W_term e => Ok e
  | W_list [I_expr e] => Ok e
  | _ => Raise (ValueError "cannot process expression")
  end.

Definition threshold_get_where_list (c start stop : Z) : list Z :=
  List.filter (fun i => c <=? i) (arange start stop).

(** A one-column frame table holding one row, and two incoming batches:
    one with the persisted dtype, one with another dtype. *)
Definition sample_disk : disk (V := Z) :=
  {| d_attrs := {["index_cols" := AV_index_cols [(0, "index")];
                  "values_cols" := AV_strs ["values_block_0"]]};
     d_table_attrs := {["index_kind" := AV_str "integer";
                        "values_block_0_kind" := AV_strs ["A"];
                        "values_block_0_dtype" := AV_str "float64"]};
     d_description := {["index" := 8; "values_block_0" := 8]};
     d_node := {| t_rows := Some [([Some 0], [[Some 15]])]; t_ops := [] |};
     d_metadata := ∅ |}.

Definition sample_batch (dtype : string) : schema (V := Z) :=
  {| s_index_axes := [{| ic_name := "index"; ic_cname := "index"; ic_axis := Some 0;
                         ic_pos := Some 0; ic_kind := Some "integer";
                         ic_itemsize := None |}];
     s_non_index_axes := [];
     s_values_axes := [{| dc_name := "values_block_0"; dc_cname := "values_block_0";
                          dc_pos := Some 1; dc_dtype := Some dtype; dc_kind := Some "float";
                          dc_values := ["A"]; dc_meta := None; dc_metadata := None;
                          dc_itemsize := None |}];
     s_data_columns := [];
     s_nan_rep := Some "nan";
     s_encoding := Some "UTF-8";
     s_errors := "strict";
     s_levels := None;
     s_metadata := [];
     s_info := ∅;
     s_index_data := [[Some 1; Some 2]];
     s_value_data := [[[Some 25]; [Some 35]]] |}.

(** * Properties *)

(** ** Ascending coordinate lists *)

Lemma ascendingb_spec (l : list Z) : ascendingb l = true <-> ascending l.
Proof.
  unfold ascending. induction l as [|x [|y tl] IH].
  - split; [constructor | reflexivity].
  - split; [repeat constructor | reflexivity].
  - change (ascendingb (x :: y :: tl)) with ((x <=? y) && ascendingb (y :: tl)).
    rewrite andb_true_iff, Z.leb_le, IH. split.
    + intros [Hxy Hs]. constructor; [exact Hs | constructor; exact Hxy].
    + intros Hs. inversion Hs as [|? ? Hs' Hhd]; subst.
      inversion Hhd; subst. split; assumption.
Qed.

Lemma ascending_arange (start stop : Z) : ascending (arange start stop).
Proof.
  unfold arange, ascending.
  remember (Z.to_nat (stop - start)) as n eqn:Hn.
  revert start stop Hn. induction n as [|n IH]; intros start stop Hn.
  - rewrite seqZ_nil by lia. constructor.
  - rewrite seqZ_cons by lia. constructor.
    + replace (Z.pred (stop - start)) with (stop - Z.succ start) by lia.
      apply IH. lia.
    + destruct (decide (0 < Z.pred (stop - start))) as [Hpos|Hneg].
      * rewrite seqZ_cons by lia. constructor. lia.
      * rewrite seqZ_nil by lia. constructor.
Qed.

(** Keeping a sub-sequence of an ascending list keeps it ascending. *)
Lemma ascending_sublist (l k : list Z) : sublist k l -> ascending l -> ascending k.
Proof.
  unfold ascending. intros Hsub Hl.
  apply Sorted_StronglySorted in Hl; [|intros ? ? ?; lia].
  apply StronglySorted_Sorted.
  induction Hsub as [|x k l Hsub IH|x k l Hsub IH].
  - constructor.
  - inversion Hl as [|? ? Hl' Hall]; subst. constructor; [apply IH; exact Hl'|].
    rewrite Forall_forall in Hall |- *. intros y Hy. apply Hall.
    eapply elem_of_sublist; eassumption.
  - inversion Hl; subst. apply IH. assumption.
Qed.

Lemma filter_sublist {X : Type} (f : X -> bool) (l : list X) : sublist (List.filter f l) l.
Proof.
  induction l as [|x l IH]; simpl.
  - constructor.
  - destruct (f x); [apply sublist_skip | apply sublist_cons]; exact IH.
Qed.

Lemma bool_index_sublist (xs : list Z) (m : list bool) (c : list Z) :
  bool_index xs m = Ok c -> sublist c xs.
Proof.
  unfold bool_index. destruct (length m =? length xs)%nat; [|discriminate].
  intros [= <-]. revert m. induction xs as [|x xs IH]; intros m.
  - destruct m; apply sublist_nil_l.
  - destruct m as [|b m]; [apply sublist_nil_l|].
    destruct b; simpl; [apply sublist_skip | apply sublist_cons]; apply IH.
Qed.

(** The concrete collaborators satisfy the interface. *)
Lemma threshold_get_where_list_sorted (c a b : Z) :
  ascending (threshold_get_where_list c a b).
Proof.
  unfold threshold_get_where_list.
  eapply ascending_sublist; [apply filter_sublist | apply ascending_arange].
Qed.

Definition threshold_collaborators : Collaborators :=
  {| E := Z; Condition := Z; Filter := unit;
     maybe_expression := fun _ => true;
     Term := fun e => e;
     expr_len := fun _ => 1%nat;
     PyTablesExpr := threshold_PyTablesExpr;
     evaluate := fun e => Ok (Some e, None);
     get_where_list := threshold_get_where_list;
     get_where_list_sorted := threshold_get_where_list_sorted |}.

(** ** Selection: the order of the coordinates *)

Section SelectionFacts.
Context `{C : Collaborators}.

Lemma init_terms_coordinates nrows w w' start stop sel :
  init_terms nrows w w' start stop = Ok sel -> sel_coordinates sel = None.
Proof.
  unfold init_terms. destruct (generate w') as [[t|]|e]; simpl; try discriminate.
  - destruct (evaluate t) as [cf|e]; simpl; [|discriminate].
    intros [= <-]. reflexivity.
  - intros [= <-]. reflexivity.
Qed.

(** Without explicit coordinates the result is the container's sorted
    match list or a range: ascending either way. *)
Lemma select_coords_no_coordinates (sel : Selection) :
  sel_coordinates sel = None -> ascending (select_coords sel).
Proof.
  intros Hc. unfold select_coords. rewrite Hc.
  destruct (sel_condition sel) as [c|].
  - apply get_where_list_sorted.
  - apply ascending_arange.
Qed.

(** A boolean mask: the coordinates are the entries of
    [arange(start, stop)] at the [True] positions, with [start]
    defaulting to [0] and [stop] to the row count. *)
Lemma Selection_init_mask nrows (w : where_t E) m start stop sel :
  coordinate_array w = Some (A_bool m) ->
  Selection_init nrows w start stop = Ok sel ->
  length m = Z.to_nat (default nrows stop - default 0 start) /\
  sel_condition sel = None /\
  sel_coordinates sel =
    Some (map fst (List.filter snd (zip (arange (default 0 start) (default nrows stop)) m))).
Proof.
  intros Harr. unfold Selection_init. rewrite Harr. simpl.
  unfold bool_index, arange. rewrite length_seqZ.
  destruct (length m =? _)%nat eqn:Hlen; simpl.
  - intros [= <-]. simpl. apply Nat.eqb_eq in Hlen. auto.
  - discriminate.
Qed.

(** Explicit integer positions inside the addressed range are kept as
    they are. *)
Lemma Selection_init_positions nrows (w : where_t E) p start stop :
  coordinate_array w = Some (A_int p) ->
  any_lt p start || any_ge p stop = false ->
  Selection_init nrows w start stop =
    Ok {| sel_nrows := nrows; sel_where := w; sel_start := start; sel_stop := stop;
          sel_condition := None; sel_filter := None; sel_terms := None;
          sel_coordinates := Some p |}.
Proof.
  intros Harr Hin. unfold Selection_init. rewrite Harr. simpl. rewrite Hin. reflexivity.
Qed.

End SelectionFacts.

(** C4, as the code has it: [select_coords] returns ascending coordinates
    when the predicate is a structured expression condition (sorted by the
    container), a boolean mask, or absent; for an explicit integer
    coordinate sequence it returns that sequence exactly as the caller
    gave it, neither sorted nor deduplicated. *)
Theorem select_coords_order `{C : Collaborators} (nrows : Z) (w : where_t E)
  (start stop : option Z) (sel : Selection) :
  Selection_init nrows w start stop = Ok sel ->
  match coordinate_array w, sel_coordinates sel with
  | Some (A_int p), Some _ => select_coords sel = p
  | _, _ => ascending (select_coords sel)
  end.
Proof.
  intros Hinit.
  destruct (coordinate_array w) as [[p|m|n]|] eqn:Harr.
  - (* integer positions *)
    destruct (sel_coordinates sel) as [c|] eqn:Hc;
      [|apply select_coords_no_coordinates; exact Hc].
    unfold Selection_init in Hinit. rewrite Harr in Hinit. simpl in Hinit.
    destruct (any_lt p start || any_ge p stop); simpl in Hinit.
    + apply init_terms_coordinates in Hinit. congruence.
    + injection Hinit as <-. reflexivity.
  - (* boolean mask *)
    destruct (Selection_init_mask _ _ _ _ _ _ Harr Hinit) as (_ & Hcond & Hc).
    assert (ascending (select_coords sel)) as Hasc.
    { unfold select_coords. rewrite Hcond, Hc.
      eapply ascending_sublist; [|apply ascending_arange].
      apply (bool_index_sublist _ m). unfold bool_index.
      destruct (length m =? _)%nat eqn:Hlen; [reflexivity|].
      destruct (Selection_init_mask _ _ _ _ _ _ Harr Hinit) as (Hl & _).
      unfold arange in Hlen. rewrite length_seqZ in Hlen.
      apply Nat.eqb_neq in Hlen. contradiction. }
    destruct (sel_coordinates sel); exact Hasc.
  - (* an array of another dtype *)
    unfold Selection_init in Hinit. rewrite Harr in Hinit. simpl in Hinit.
    assert (ascending (select_coords sel)) as Hasc.
    { apply select_coords_no_coordinates. eapply init_terms_coordinates. exact Hinit. }
    destruct (sel_coordinates sel); exact Hasc.
  - (* an expression, or no predicate *)
    unfold Selection_init in Hinit. rewrite Harr in Hinit. simpl in Hinit.
    apply select_coords_no_coordinates. eapply init_terms_coordinates. exact Hinit.
Qed.

Lemma select_coords_order_witness :
  let w := W_array (A_bool [true; false; true]) in
  let sel := {| sel_nrows := 10; sel_where := w; sel_start := Some 2; sel_stop := Some 5;
                sel_condition := None; sel_filter := None; sel_terms := None;
                sel_coordinates := Some [2; 4] |} in
  Selection_init (C := threshold_collaborators) 10 w (Some 2) (Some 5) = Ok sel /\
  ascending (select_coords (C := threshold_collaborators) sel).
Proof.
  split; [reflexivity|].
  exact (select_coords_order (C := threshold_collaborators) 10
           (W_array (A_bool [true; false; true])) (Some 2) (Some 5) _ eq_refl).
Defined.

(** C4 as stated fails: the explicit coordinate sequence [[5; 1]] comes
    back from [select_coords] in the caller's order. *)
Lemma select_coords_explicit_unsorted :
  exists sel,
    Selection_init (C := threshold_collaborators) 10 (W_array (A_int [5; 1])) None None
      = Ok sel /\
    select_coords sel = [5; 1] /\
    ~ ascending (select_coords sel).
Proof.
  eexists. split; [reflexivity|]. split; [reflexivity|].
  intros Hasc. apply ascendingb_spec in Hasc. discriminate Hasc.
Qed.

(** ** Selection: out-of-range positions *)

(** When an integer position lies below [start] or at or above [stop],
    the [ValueError] raised inside the [try] block is caught by its own
    [except ValueError: pass]; construction goes on as if the array were
    an expression. *)
Lemma Selection_init_out_of_range `{C : Collaborators} nrows (w : where_t E) p start stop :
  coordinate_array w = Some (A_int p) ->
  any_lt p start || any_ge p stop = true ->
  Selection_init nrows w start stop = init_terms nrows w (W_array (A_int p)) start stop.
Proof.
  intros Harr Hout. unfold Selection_init. rewrite Harr. simpl. rewrite Hout. reflexivity.
Qed.

(** C5 at the failing input: positions [[0; 1; 2]] with [start = 1] on a
    10-row table.  Position [0] is below [start], yet for every
    expression collaborator the constructor does not stop at the range
    error: it hands the array to [generate] and returns whatever the
    collaborator makes of it. *)
Theorem range_error_is_swallowed `{C : Collaborators} :
  infer_coordinates 10 (Some 1) None (A_int [0; 1; 2])
    = Raise (ValueError "where must have index locations >= start and < stop") /\
  Selection_init 10 (W_array (A_int [0; 1; 2])) (Some 1) None
    = init_terms 10 (W_array (A_int [0; 1; 2])) (W_array (A_int [0; 1; 2])) (Some 1) None.
Proof.
  split; [reflexivity|].
  apply Selection_init_out_of_range; reflexivity.
Qed.

(** With the concrete collaborators the error that reaches the caller is
    the parser's, not the range error. *)
Example range_error_threshold :
  Selection_init (C := threshold_collaborators) 10 (W_array (A_int [0; 1; 2])) (Some 1) None
  = Raise (ValueError "cannot process expression").
Proof. reflexivity. Qed.

(** The first half of C5 holds: a boolean mask yields the positions of
    its [True] entries offset by [start]. *)
Example mask_positions_offset :
  select_coords (C := threshold_collaborators) <$>
    match Selection_init (C := threshold_collaborators) 10
            (W_array (A_bool [true; false; true])) (Some 2) (Some 5) with
    | Ok s => Some s
    | Raise _ => None
    end
  = Some [2; 4].
Proof. reflexivity. Qed.

(** ** Row removal with an empty predicate *)

Section RemoveFacts.
Context `{C : Collaborators}.
Context {A : Type}.

Lemma filter_not_none_nil (l : list (item E)) :
  forallb is_I_none l = true ->
  List.filter (fun x => negb (is_I_none x)) l = [].
Proof.
  induction l as [|x l IH]; simpl; [reflexivity|].
  rewrite andb_true_iff. intros [Hx Hl]. rewrite Hx. simpl. apply IH, Hl.
Qed.

(** A list or tuple holding nothing but [None] entries, in particular the
    empty list, is normalised to [None]. *)
Lemma _ensure_term_empty (l : list (item E)) :
  forallb is_I_none l = true -> _ensure_term (W_list l) = W_none.
Proof.
  intros Hl. unfold _ensure_term. rewrite filter_not_none_nil by exact Hl. reflexivity.
Qed.

(** [delete] with a [None] or empty predicate and neither [start] nor
    [stop] removes the node and returns the row count it had. *)
Lemma delete_no_predicate (rows : list A) (w : where_t E) :
  is_W_none w || (where_len w =? 0)%nat = true ->
  AppendableTable_delete rows w None None =
    (Ok (Some (Z.of_nat (length rows))), {| t_rows := None; t_ops := [Op_remove_node] |}).
Proof.
  intros Hw. unfold AppendableTable_delete. rewrite Hw. reflexivity.
Qed.

Lemma remove_subtree_lookup (key : string) (st : gmap string (@node A)) :
  remove_subtree key st !! key = None.
Proof.
  unfold remove_subtree. apply map_lookup_filter_None. right.
  intros x _ [Hne _]. apply Hne. reflexivity.
Qed.

End RemoveFacts.

(** C10: an empty predicate list is the same as no predicate.
    [_ensure_term] turns it into [None]; [delete] with a [None] or empty
    predicate and no bounds removes the whole node and returns the
    previous row count; [remove(key, where=[])] therefore removes the node
    under [key], exactly as [remove(key)] does. *)
Theorem remove_empty_where_removes_all `{C : Collaborators} {A : Type}
  (st : gmap string (@node A)) (key : string) (rows : list A) :
  st !! key = Some (N_table rows) ->
  _ensure_term (W_list []) = W_none /\
  (forall w : where_t E,
     is_W_none w || (where_len w =? 0)%nat = true ->
     AppendableTable_delete rows w None None =
       (Ok (Some (Z.of_nat (length rows))), {| t_rows := None; t_ops := [Op_remove_node] |})) /\
  HDFStore_remove st key (W_list []) None None = HDFStore_remove st key W_none None None /\
  HDFStore_remove st key (W_list []) None None = (Ok None, remove_subtree key st) /\
  remove_subtree key st !! key = None.
Proof.
  intros Hkey. split; [reflexivity|]. split; [apply delete_no_predicate|].
  split; [reflexivity|]. split.
  - unfold HDFStore_remove. simpl. rewrite Hkey. reflexivity.
  - apply remove_subtree_lookup.
Qed.

Lemma remove_empty_where_removes_all_witness :
  let st : gmap string (@node Z) := {["/df" := N_table [10; 20; 30]]} in
  st !! "/df" = Some (N_table [10; 20; 30]) /\
  HDFStore_remove (C := threshold_collaborators) st "/df" (W_list []) None None
    = (Ok None, remove_subtree "/df" st).
Proof.
  split; [reflexivity|].
  destruct (remove_empty_where_removes_all (C := threshold_collaborators)
              ({["/df" := N_table [10; 20; 30]]} : gmap string (@node Z))
              "/df" [10; 20; 30]) as (_ & _ & _ & Hremove & _);
    [reflexivity | exact Hremove].
Defined.

(** ** Fixed format: [read] takes no selection *)

Section FixedReadFacts.
Context {Arg Obj : Type}.

Lemma validate_read_columns (kwargs : gmap string (option Arg)) (c : Arg) :
  kwargs !! "columns" = Some (Some c) ->
  exists msg, validate_read kwargs = Raise (TypeError msg).
Proof.
  intros Hc. unfold validate_read, kwargs_pop. rewrite Hc. simpl. eauto.
Qed.

Lemma validate_read_where (kwargs : gmap string (option Arg)) (w : Arg) :
  kwargs !! "where" = Some (Some w) ->
  exists msg, validate_read kwargs = Raise (TypeError msg).
Proof.
  intros Hw. unfold validate_read, kwargs_pop.
  destruct (mjoin (kwargs !! "columns")) as [c|]; [eauto|].
  rewrite lookup_delete_ne by discriminate. rewrite Hw. simpl. eauto.
Qed.

Lemma validate_read_none (kwargs : gmap string (option Arg)) :
  mjoin (kwargs !! "columns") = None ->
  mjoin (kwargs !! "where") = None ->
  validate_read kwargs = Ok (delete "where" (delete "columns" kwargs)).
Proof.
  intros Hc Hw. unfold validate_read, kwargs_pop. rewrite Hc.
  rewrite lookup_delete_ne by discriminate. rewrite Hw. reflexivity.
Qed.

End FixedReadFacts.

(** C9: for each fixed-format storer, [read] with a column selection
    raises a [TypeError], [read] with a predicate raises a [TypeError],
    and [read] with neither retrieves the stored object. *)
Theorem fixed_read_whole_object_only {Arg Obj : Type}
  (retrieve : fixed_storer -> option Z -> option Z -> res Obj)
  (s : fixed_storer) (start stop : option Z) :
  (forall (where_ : option Arg) (c : Arg),
     exists msg, Fixed_read retrieve s where_ (Some c) start stop = Raise (TypeError msg)) /\
  (forall (w : Arg) (columns : option Arg),
     exists msg, Fixed_read retrieve s (Some w) columns start stop = Raise (TypeError msg)) /\
  Fixed_read retrieve s (None : option Arg) None start stop = retrieve s start stop.
Proof.
  split; [|split].
  - intros where_ c. destruct s; unfold Fixed_read.
    + destruct (validate_read_columns
                  (<["columns" := Some c]> (<["where" := where_]> ∅)) c) as [msg Hmsg].
      { apply lookup_insert_eq. }
      rewrite Hmsg. simpl. eauto.
    + destruct (validate_read_columns
                  (<["where" := where_]> (<["columns" := Some c]> ∅)) c) as [msg Hmsg].
      { rewrite lookup_insert_ne by discriminate. apply lookup_insert_eq. }
      rewrite Hmsg. simpl. eauto.
  - intros w columns. destruct s; unfold Fixed_read.
    + destruct (validate_read_where
                  (<["columns" := columns]> (<["where" := Some w]> ∅)) w) as [msg Hmsg].
      { rewrite lookup_insert_ne by discriminate. apply lookup_insert_eq. }
      rewrite Hmsg. simpl. eauto.
    + destruct (validate_read_where
                  (<["where" := Some w]> (<["columns" := columns]> ∅)) w) as [msg Hmsg].
      { apply lookup_insert_eq. }
      rewrite Hmsg. simpl. eauto.
  - destruct s; unfold Fixed_read; rewrite validate_read_none; reflexivity.
Qed.

(** ** Conflicting informational attributes *)

Lemma set_idx_lookup (info : info_t) (name key : string) (v : option string) :
  (set_idx info name key v !! name) ≫= (fun idx => idx !! key) = Some v.
Proof.
  unfold set_idx. rewrite lookup_insert_eq. simpl. apply lookup_insert_eq.
Qed.

(** C8: a conflict is a key already recorded for the column whose new
    value is set and differs from the recorded one.  On ["freq"] and
    ["index_name"] the step succeeds, records [None], clears the
    in-memory attribute and emits one warning, and [update_info] goes on
    with the remaining keys; on any other key the step, and with it
    [update_info], raises a [ValueError]. *)
Theorem update_info_conflict (key : string) (st : info_state) (idx : info_idx)
  (existing : option string) (v : string) (rest : list string) :
  is_info st !! ci_name (is_col st) = Some idx ->
  idx !! key = Some existing ->
  ci_attrs (is_col st) !! key = Some v ->
  existing <> Some v ->
  if bool_decide (key ∈ ["freq"; "index_name"]) then
    exists st',
      update_info_key key st = Ok st' /\
      (is_info st' !! ci_name (is_col st)) ≫= (fun i => i !! key) = Some None /\
      ci_attrs (is_col st') !! key = None /\
      is_warnings st' =
        is_warnings st ++ [{| w_key := key; w_existing := existing; w_value := v |}] /\
      update_info (key :: rest) st = update_info rest st'
  else
    exists msg,
      update_info_key key st = Raise (ValueError msg) /\
      update_info (key :: rest) st = Raise (ValueError msg).
Proof.
  intros Hidx Hkey Hval Hne.
  assert (is_conflict idx key (Some v) = true) as Hconf.
  { unfold is_conflict. rewrite Hkey. rewrite bool_decide_eq_false_2 by exact Hne.
    reflexivity. }
  unfold update_info_key, _get_info. rewrite Hidx, Hval, Hconf.
  destruct (bool_decide (key ∈ ["freq"; "index_name"])) eqn:Hk.
  - eexists. split; [reflexivity|]. simpl. split; [apply set_idx_lookup|].
    split; [apply lookup_delete_eq|]. split.
    + rewrite Hkey. reflexivity.
    + unfold update_info_key, _get_info. rewrite Hidx, Hval, Hconf, Hk. reflexivity.
  - eexists. split; [reflexivity|]. simpl.
    unfold update_info_key, _get_info. rewrite Hidx, Hval, Hconf, Hk. reflexivity.
Qed.

Lemma update_info_conflict_witness :
  let st := {| is_info := {["index" := {["freq" := Some "D"]}]};
               is_col := {| ci_name := "index"; ci_attrs := {["freq" := "H"]} |};
               is_warnings := [] |} in
  exists st',
    update_info_key "freq" st = Ok st' /\
    ci_attrs (is_col st') !! "freq" = None /\
    is_warnings st' = [{| w_key := "freq"; w_existing := Some "D"; w_value := "H" |}].
Proof.
  destruct (update_info_conflict "freq"
              {| is_info := {["index" := {["freq" := Some "D"]}]};
                 is_col := {| ci_name := "index"; ci_attrs := {["freq" := "H"]} |};
                 is_warnings := [] |}
              {["freq" := Some "D"]} (Some "D") "H" [])
    as (st' & Hstep & _ & Hattr & Hwarn & _);
    [reflexivity | reflexivity | reflexivity | discriminate |].
  exists st'. split; [exact Hstep|]. split; [exact Hattr | exact Hwarn].
Defined.

(** The other branch at a concrete state: a conflicting time zone aborts
    [update_info] for an index column, although ["freq"] is handled
    first. *)
Example update_info_tz_conflict :
  update_info IndexCol_info_fields
    {| is_info := {["index" := {["freq" := Some "D"; "tz" := Some "UTC"]}]};
       is_col := {| ci_name := "index";
                    ci_attrs := {["freq" := "H"; "tz" := "US/Eastern"]} |};
       is_warnings := [] |}
  = Raise (ValueError "invalid info: existing_value conflicts with new value").
Proof. vm_compute. reflexivity. Qed.

(** ** String columns: the width guard *)

Section StringAtomFacts.
Variable encode : string -> string.

Lemma set_atom_string_new name block items mi nan_rep :
  infer_string (mjoin (map (map (fillna nan_rep)) block)) = true ->
  exists data,
    set_atom_string encode name block items None mi nan_rep =
      Ok {| sa_itemsize := requested_itemsize encode name block mi nan_rep;
            sa_kind := "string";
            sa_typ_itemsize := requested_itemsize encode name block mi nan_rep;
            sa_data := data |}.
Proof.
  intros Hstr. unfold set_atom_string. rewrite Hstr. simpl. eexists. reflexivity.
Qed.

Lemma set_atom_string_existing name block items mi nan_rep (ec : col_view) (e : Z) :
  infer_string (mjoin (map (map (fillna nan_rep)) block)) = true ->
  cv_kind ec = Some "string" ->
  cv_col ec = Some e ->
  let requested := requested_itemsize encode name block mi nan_rep in
  if e <? requested
  then set_atom_string encode name block items (Some ec) mi nan_rep
       = Raise (StringTooLong requested (cv_cname ec) e)
  else exists data,
      set_atom_string encode name block items (Some ec) mi nan_rep =
        Ok {| sa_itemsize := e; sa_kind := "string"; sa_typ_itemsize := e; sa_data := data |}.
Proof.
  intros Hstr Hkind Hcol requested.
  unfold set_atom_string. rewrite Hstr. simpl.
  unfold validate_col. rewrite Hkind, Hcol. simpl.
  fold (requested_itemsize encode name block mi nan_rep). fold requested.
  destruct (e <? requested) eqn:Hlt; simpl; [reflexivity|].
  destruct (requested <? e) eqn:Hlt'; simpl.
  - eexists. reflexivity.
  - apply Z.ltb_ge in Hlt, Hlt'. assert (requested = e) as -> by lia.
    eexists. reflexivity.
Qed.

End StringAtomFacts.

(** C2, as the code has it.  For a block of strings the width asked for
    is [max(min_itemsize, probed)], where [min_itemsize] is the caller's
    value for the column (or the ["values"] default) and [probed] the
    longest encoded string.  Without an existing column this is the chosen
    width.  With an existing string column of width [e] the write raises,
    naming the requested size, the column and [e], as soon as [e] is below
    the requested size (so also when only [min_itemsize] exceeds [e]);
    otherwise the chosen width is [e], the maximum of all three.  In
    particular a column first written with width 5 refuses a value of
    length 10 whatever [min_itemsize] the append passes, and a column
    first written with [min_itemsize] 10 takes it at width 10. *)
Theorem string_width_guard (encode : string -> string) (name : string)
  (block : list (list scell)) (items : list string) (mi : min_itemsize_t)
  (nan_rep : string) :
  infer_string (mjoin (map (map (fillna nan_rep)) block)) = true ->
  let requested := requested_itemsize encode name block mi nan_rep in
  (exists data,
     set_atom_string encode name block items None mi nan_rep =
       Ok {| sa_itemsize := requested; sa_kind := "string";
             sa_typ_itemsize := requested; sa_data := data |}) /\
  (forall (ec : col_view) (e : Z),
     cv_kind ec = Some "string" -> cv_col ec = Some e ->
     if e <? requested
     then set_atom_string encode name block items (Some ec) mi nan_rep
          = Raise (StringTooLong requested (cv_cname ec) e)
     else e = Z.max requested e /\
          exists data,
            set_atom_string encode name block items (Some ec) mi nan_rep =
              Ok {| sa_itemsize := e; sa_kind := "string";
                    sa_typ_itemsize := e; sa_data := data |}) /\
  (forall (block1 : list (list scell)) (mi1 : min_itemsize_t) (first : string_atom),
     infer_string (mjoin (map (map (fillna nan_rep)) block1)) = true ->
     set_atom_string encode name block1 items None mi1 nan_rep = Ok first ->
     requested_itemsize encode name block MI_none nan_rep = 10 ->
     (requested_itemsize encode name block1 mi1 nan_rep = 5 ->
      set_atom_string encode name block items (Some (persisted_col name first)) mi nan_rep
        = Raise (StringTooLong (Z.max (min_itemsize_for name mi) 10) name 5)) /\
     (requested_itemsize encode name block1 mi1 nan_rep = 10 ->
      min_itemsize_for name mi <= 10 ->
      exists data,
        set_atom_string encode name block items (Some (persisted_col name first)) mi nan_rep
          = Ok {| sa_itemsize := 10; sa_kind := "string";
                  sa_typ_itemsize := 10; sa_data := data |})).
Proof.
  intros Hstr requested. split; [apply set_atom_string_new; exact Hstr|]. split.
  - intros ec e Hkind Hcol.
    pose proof (set_atom_string_existing encode name block items mi nan_rep ec e
                  Hstr Hkind Hcol) as H.
    simpl in H. fold requested in H.
    destruct (e <? requested) eqn:Hlt; [exact H|].
    split; [apply Z.ltb_ge in Hlt; lia | exact H].
  - intros block1 mi1 first Hstr1 Hwrite Hprobe.
    destruct (set_atom_string_new encode name block1 items mi1 nan_rep Hstr1)
      as [data1 Hnew].
    assert (sa_kind first = "string" /\
            sa_typ_itemsize first = requested_itemsize encode name block1 mi1 nan_rep)
      as [Hkind1 Hwidth1].
    { rewrite Hnew in Hwrite. injection Hwrite as <-. split; reflexivity. }
    assert (requested = Z.max (min_itemsize_for name mi) 10) as Hreq.
    { unfold requested, requested_itemsize in *. simpl in Hprobe.
      rewrite Z.max_r in Hprobe; [rewrite Hprobe; reflexivity|].
      unfold probe_itemsize. lia. }
    split.
    + intros Hw.
      pose proof (set_atom_string_existing encode name block items mi nan_rep
                    (persisted_col name first) 5 Hstr) as H.
      simpl in H. fold requested in H. rewrite Hreq in H.
      rewrite Hkind1, Hwidth1, Hw in H. specialize (H eq_refl eq_refl).
      replace (5 <? Z.max (min_itemsize_for name mi) 10) with true in H
        by (symmetry; apply Z.ltb_lt; lia).
      exact H.
    + intros Hw Hmi.
      pose proof (set_atom_string_existing encode name block items mi nan_rep
                    (persisted_col name first) 10 Hstr) as H.
      simpl in H. fold requested in H. rewrite Hreq in H.
      rewrite Hkind1, Hwidth1, Hw in H. specialize (H eq_refl eq_refl).
      replace (10 <? Z.max (min_itemsize_for name mi) 10) with false in H
        by (symmetry; apply Z.ltb_ge; lia).
      exact H.
Qed.

Lemma string_width_guard_witness :
  infer_string (mjoin (map (map (fillna "nan")) [[S_str "abcdefghij"; S_nan]])) = true /\
  set_atom_string (fun s => s) "col" [[S_str "abcdefghij"; S_nan]] ["col"]
    (Some {| cv_cname := "col"; cv_kind := Some "string"; cv_col := Some 5;
             cv_itemsize := None |})
    (MI_dict {["col" := 10]}) "nan"
  = Raise (StringTooLong 10 "col" 5).
Proof.
  split; [reflexivity|].
  destruct (string_width_guard (fun s => s) "col" [[S_str "abcdefghij"; S_nan]] ["col"]
              (MI_dict {["col" := 10]}) "nan") as (_ & Hexisting & _);
    [reflexivity|].
  exact (Hexisting {| cv_cname := "col"; cv_kind := Some "string"; cv_col := Some 5;
                      cv_itemsize := None |} 5 eq_refl eq_refl).
Defined.

(** C2 as stated fails in its last sentence: after a first write of a
    string column whose longest value has length 5, appending a value of
    length 10 with [min_itemsize = {"col": 10}] raises; the on-disk width
    of the existing column stays 5. *)
Lemma append_min_itemsize_raises :
  exists first,
    set_atom_string (fun s => s) "col" [[S_str "abcde"]] ["col"] None MI_none "nan"
      = Ok first /\
    sa_typ_itemsize first = 5 /\
    set_atom_string (fun s => s) "col" [[S_str "abcdefghij"]] ["col"]
      (Some (persisted_col "col" first)) (MI_dict {["col" := 10]}) "nan"
    = Raise (StringTooLong 10 "col" 5).
Proof.
  eexists. split; [reflexivity|]. split; reflexivity.
Qed.

(** The two halves of the example that do hold: without [min_itemsize]
    the append raises, and a column created with [min_itemsize] 10 takes
    the longer value at width 10. *)
Example append_without_min_itemsize_raises :
  exists first,
    set_atom_string (fun s => s) "col" [[S_str "abcde"]] ["col"] None MI_none "nan"
      = Ok first /\
    set_atom_string (fun s => s) "col" [[S_str "abcdefghij"]] ["col"]
      (Some (persisted_col "col" first)) MI_none "nan"
    = Raise (StringTooLong 10 "col" 5).
Proof. eexists. split; reflexivity. Qed.

Example create_with_min_itemsize_then_append :
  exists first second,
    set_atom_string (fun s => s) "col" [[S_str "abcde"]] ["col"] None
      (MI_dict {["col" := 10]}) "nan" = Ok first /\
    set_atom_string (fun s => s) "col" [[S_str "abcdefghij"]] ["col"]
      (Some (persisted_col "col" first)) MI_none "nan" = Ok second /\
    sa_typ_itemsize second = 10.
Proof. eexists. eexists. split; [reflexivity|]. split; reflexivity. Qed.

(** ** Appending with a different dtype *)

Section AppendFacts.
Context {V : Type}.

Lemma py_list_eq_lookup {X : Type} (eqb : X -> X -> bool) (sv ov : list X) (i : nat) (a b : X) :
  py_list_eq eqb sv ov = true -> sv !! i = Some a -> ov !! i = Some b -> eqb a b = true.
Proof.
  revert ov i. induction sv as [|s sv IH]; intros [|o ov] i Heq Ha Hb;
    try discriminate.
  simpl in Heq. apply andb_true_iff in Heq as [Hhd Htl].
  destruct i as [|i]; simpl in Ha, Hb.
  - congruence.
  - eapply IH; eassumption.
Qed.

Lemma DataCol_eq_dtype (a b : DataCol) : DataCol_eq a b = true -> dc_dtype a = dc_dtype b.
Proof.
  unfold DataCol_eq. rewrite !andb_true_iff. intros [[[_ _] Hd] _].
  apply bool_decide_eq_true in Hd. exact Hd.
Qed.

(** A differing dtype at some position makes [Table.validate] raise. *)
Lemma Table_validate_dtype (tt : string) (s existing : schema (V := V)) (i : nat)
  (oc nc : DataCol) :
  s_values_axes existing !! i = Some oc ->
  s_values_axes s !! i = Some nc ->
  dc_dtype nc <> dc_dtype oc ->
  exists e, Table_validate tt tt s (Some existing) = Raise e.
Proof.
  intros Ho Hn Hne. unfold Table_validate.
  rewrite bool_decide_eq_true_2 by reflexivity. simpl.
  unfold validate_axes.
  destruct (py_list_eq IndexCol_eq _ _); simpl; [|eauto].
  destruct (py_list_eq axis_eq _ _); simpl; [|eauto].
  destruct (py_list_eq DataCol_eq (s_values_axes s) (s_values_axes existing)) eqn:Heq; [|eauto].
  exfalso. apply Hne. apply DataCol_eq_dtype.
  eapply py_list_eq_lookup; eassumption.
Qed.

Lemma mapM_res_lookup {X : Type} (l : list (res X)) (k : list X) (i : nat) (x : res X) :
  mapM id l = Ok k -> l !! i = Some x -> exists y, x = Ok y /\ k !! i = Some y.
Proof.
  revert k i. induction l as [|r l IH]; intros k i Hm Hl; [discriminate|].
  simpl in Hm. destruct r as [y|e]; simpl in Hm; [|discriminate].
  destruct (mapM id l) as [k'|e] eqn:Hk; simpl in Hm; [|discriminate].
  injection Hm as <-. destruct i as [|i]; simpl in Hl.
  - injection Hl as <-. eauto.
  - exact (IH k' i eq_refl Hl).
Qed.

(** The dtype of an inferred value column is the persisted
    [<name>_dtype] attribute. *)
Lemma infer_existing_dtype (d : disk (V := V)) (existing : schema) (i : nat) (c : string) :
  infer_existing d = Ok (Some existing) ->
  attr_strs (getattr (d_attrs d) "values_cols") !! i = Some c ->
  exists oc,
    s_values_axes existing !! i = Some oc /\
    dc_dtype oc = attr_str (getattr (d_table_attrs d) (c ++ "_dtype")).
Proof.
  unfold infer_existing. destruct (is_exists d); [|discriminate].
  destruct (mapM id _) as [axes_|e] eqn:Hm; simpl; [|discriminate].
  intros [= <-] Hc. simpl.
  destruct (mapM_res_lookup _ _ i
              (infer_data d (length match getattr (d_attrs d) "index_cols" with
                                    | AV_index_cols l => l
                                    | _ => []
                                    end) i c) Hm) as (oc & Hoc & Hlook).
  { rewrite list_lookup_imap, Hc. reflexivity. }
  exists oc. split; [exact Hlook|].
  unfold infer_data in Hoc. destruct (set_kind _); simpl in Hoc; [|discriminate].
  injection Hoc as <-. reflexivity.
Qed.

End AppendFacts.

(** C3: on an existing table, an append whose derived value column at
    some position carries a dtype other than the persisted
    [<name>_dtype] of the column at that position raises, and the group
    on disk is exactly what it was: no attribute written, no metadata
    written, no row appended, no operation issued. *)
Theorem append_dtype_mismatch_unmodified {V : Type} (table_type : string)
  (derive : option (schema (V := V)) -> res schema) (chunksize : option Z)
  (dropna : bool) (d : disk) :
  is_exists d = true ->
  (forall existing s, derive existing = Ok s ->
     exists (i : nat) (c : string) (nc : DataCol),
       attr_strs (getattr (d_attrs d) "values_cols") !! i = Some c /\
       s_values_axes s !! i = Some nc /\
       dc_dtype nc <> attr_str (getattr (d_table_attrs d) (c ++ "_dtype"))) ->
  exists e,
    AppendableTable_write table_type derive true chunksize dropna d = (Raise e, d).
Proof.
  intros Hex Hmis. unfold AppendableTable_write. simpl.
  unfold create_axes.
  destruct (infer_existing d) as [existing|e] eqn:Hinf; simpl; [|eauto].
  destruct (derive existing) as [s|e] eqn:Hder; simpl; [|eauto].
  destruct (Hmis _ _ Hder) as (i & c & nc & Hc & Hnc & Hne).
  destruct existing as [existing|].
  - destruct (infer_existing_dtype d existing i c Hinf Hc) as (oc & Hoc & Hdt).
    destruct (Table_validate_dtype table_type s existing i oc nc Hoc Hnc) as [e He].
    { rewrite Hdt. exact Hne. }
    rewrite He. simpl. eauto.
  - unfold infer_existing in Hinf. rewrite Hex in Hinf.
    destruct (mapM id _); simpl in Hinf; discriminate.
Qed.

Lemma append_dtype_mismatch_unmodified_witness :
  is_exists sample_disk = true /\
  exists e,
    AppendableTable_write "appendable_frame" (fun _ => Ok (sample_batch "int64"))
      true None false sample_disk = (Raise e, sample_disk).
Proof.
  split; [reflexivity|].
  apply (append_dtype_mismatch_unmodified "appendable_frame"
           (fun _ => Ok (sample_batch "int64")) None false sample_disk);
    [reflexivity|].
  intros existing s Hder. injection Hder as <-.
  exists 0%nat, "values_block_0".
  eexists. split; [reflexivity|]. split; [reflexivity|]. discriminate.
Defined.

(** The same batch with the persisted dtype is appended: the model of
    [write] does reach [write_data]. *)
Example append_same_dtype_appends :
  let r := AppendableTable_write "appendable_frame"
             (fun _ => Ok (sample_batch "float64")) true None false sample_disk in
  r.1 = Ok tt /\
  t_rows (d_node r.2) =
    Some [([Some 0], [[Some 15]]); ([Some 1], [[Some 25]]); ([Some 2], [[Some 35]])] /\
  t_ops (d_node r.2) = [Op_append 2; Op_flush].
Proof. vm_compute. repeat split. Qed.

(** ** Categorical columns: remapping the codes *)

Section CategoricalFacts.
Context {L : Type}.

(** Codes [-1] are never touched by the subtraction. *)
Lemma isub_zip_keeps_missing (codes rhs : list Z) (i : nat) :
  codes !! i = Some (-1) -> isub_zip codes rhs !! i = Some (-1).
Proof.
  revert rhs i. induction codes as [|c codes IH]; intros rhs i Hi; [discriminate|].
  simpl. destruct i as [|i]; simpl in Hi.
  - injection Hi as ->. reflexivity.
  - destruct (bool_decide (c = -1)); [apply IH, Hi|].
    destruct rhs; simpl; apply IH, Hi.
Qed.

(** An absent category list stands for the empty category set: codes
    that are all [-1] read back as missing values. *)
Lemma convert_category_absent (n : nat) :
  convert_category (L := L) None (replicate n (-1)) = Ok (replicate n None).
Proof.
  unfold convert_category, from_codes.
  assert (forallb (fun c => (-1 <=? c) && (c <? Z.of_nat (length (@nil L))))
                  (replicate n (-1)) = true) as ->.
  { induction n as [|n IH]; simpl; [reflexivity | exact IH]. }
  f_equal. induction n as [|n IH]; simpl; [reflexivity | f_equal; exact IH].
Qed.

(** Without a null category the codes are used as stored. *)
Lemma convert_category_no_null (categories : list (option L)) (codes : list Z) :
  existsb id (map is_null categories) = false ->
  convert_category (Some categories) codes = from_codes codes (omap id categories).
Proof.
  intros Hnull. unfold convert_category. rewrite Hnull. reflexivity.
Qed.

End CategoricalFacts.

(** C6 at the failing input: categories [["a"; null]] with stored codes
    [[0; 0]].  Both rows were written as ["a"]; the remapping the
    specification describes keeps both codes at [0]; the code subtracts
    the cumulative null count position by position ([[0; 1]]) and reads
    the second row back as missing.  When the number of non-missing codes
    differs from the number of stored categories (and there is more than
    one category) the same statement raises instead. *)
Theorem convert_category_subtracts_by_position :
  written_values [Some "a"; None] [0; 0] = [Some "a"; Some "a"] /\
  convert_category_spec (Some [Some "a"; None]) [0; 0] = Ok [Some "a"; Some "a"] /\
  convert_category (Some [Some "a"; None]) [0; 0] = Ok [Some "a"; None] /\
  convert_category (Some [None; Some "a"; Some "b"]) [1; 2; 1; 2]
    = Raise (ValueError "operands could not be broadcast together").
Proof. repeat split. Qed.

(** ** Chunked append *)

Lemma slice_app {X : Type} (l : list X) (a b c : Z) :
  0 <= a <= b -> b <= c -> slice l a c = slice l a b ++ slice l b c.
Proof.
  intros Hab Hbc. unfold slice.
  replace (Z.to_nat (c - a)) with (Z.to_nat (b - a) + Z.to_nat (c - b))%nat by lia.
  rewrite <- take_take_drop. rewrite drop_drop.
  replace (Z.to_nat a + Z.to_nat (b - a))%nat with (Z.to_nat b) by lia.
  reflexivity.
Qed.

Lemma slice_nil {X : Type} (l : list X) (a b : Z) : b <= a -> slice l a b = [].
Proof.
  intros Hba. unfold slice. replace (Z.to_nat (b - a)) with 0%nat by lia. reflexivity.
Qed.

Lemma slice_all {X : Type} (l : list X) : slice l 0 (Z.of_nat (length l)) = l.
Proof.
  unfold slice. simpl. rewrite drop_0. apply take_ge. lia.
Qed.

Lemma length_slice {X : Type} (l : list X) (a b : Z) :
  0 <= a <= b -> b <= Z.of_nat (length l) -> length (slice l a b) = Z.to_nat (b - a).
Proof.
  intros Hab Hb. unfold slice. rewrite length_take, length_drop. lia.
Qed.

Lemma lookup_slice {X : Type} (l : list X) (a b : Z) (k : nat) :
  0 <= a -> (k < Z.to_nat (b - a))%nat -> slice l a b !! k = l !! (Z.to_nat a + k)%nat.
Proof.
  intros Ha Hk. unfold slice. rewrite lookup_take_lt by exact Hk. apply lookup_drop.
Qed.

Lemma drop_masked_app {X : Type} (l1 l2 : list X) (m1 m2 : list bool) :
  length l1 = length m1 ->
  drop_masked (l1 ++ l2) (m1 ++ m2) = drop_masked l1 m1 ++ drop_masked l2 m2.
Proof.
  intros Hlen. unfold drop_masked.
  rewrite zip_with_app by exact Hlen.
  rewrite List.filter_app, List.map_app. reflexivity.
Qed.

Lemma drop_masked_all_kept {X : Type} (rows : list X) (m : list bool) :
  forallb negb m = true -> length m = length rows -> drop_masked rows m = rows.
Proof.
  revert m. induction rows as [|r rows IH]; intros [|b m] Hall Hlen;
    try discriminate; [reflexivity|].
  simpl in Hall. apply andb_true_iff in Hall as [Hb Hall].
  unfold drop_masked. simpl. rewrite Hb. simpl. f_equal.
  apply IH; [exact Hall | simpl in Hlen; lia].
Qed.

Lemma unmasked_slice_app {X : Type} (rows : list X) (mask : option (list bool)) (a b c : Z) :
  0 <= a <= b -> b <= c -> c <= Z.of_nat (length rows) ->
  (forall m, mask = Some m -> length m = length rows) ->
  unmasked (slice rows a c) (slice_mask mask a c) =
  unmasked (slice rows a b) (slice_mask mask a b) ++
  unmasked (slice rows b c) (slice_mask mask b c).
Proof.
  intros Hab Hbc Hc Hm. destruct mask as [m|]; simpl.
  - rewrite (slice_app rows a b c), (slice_app m a b c) by lia.
    apply drop_masked_app. specialize (Hm m eq_refl).
    rewrite !length_slice by lia. reflexivity.
  - apply slice_app; lia.
Qed.

Section WriteDataFacts.
Context {V : Type}.

Lemma assemble_lookup (n : nat) (cols : list (list (option V)))
  (vals : list (list (list (option V)))) (k : nat) :
  (k < n)%nat ->
  assemble n cols vals !! k =
    Some (map (fun c => mjoin (c !! k)) cols, map (fun v => default [] (v !! k)) vals).
Proof.
  intros Hk. unfold assemble.
  change (map ?f (seq 0 n)) with (f <$> seq 0 n).
  rewrite list_lookup_fmap, lookup_seq_lt by exact Hk. reflexivity.
Qed.

Lemma length_assemble (n : nat) (cols : list (list (option V)))
  (vals : list (list (list (option V)))) : length (assemble n cols vals) = n.
Proof. unfold assemble. rewrite length_map. apply length_seq. Qed.

(** Assembling the records of a chunk from the sliced columns gives the
    chunk of the assembled records. *)
Lemma assemble_slice (n : nat) (cols : list (list (option V)))
  (vals : list (list (list (option V)))) (a b : Z) :
  0 <= a <= b -> b <= Z.of_nat n ->
  assemble (Z.to_nat (b - a)) (map (fun c => slice c a b) cols)
           (map (fun v => slice v a b) vals)
  = slice (assemble n cols vals) a b.
Proof.
  intros Hab Hb. apply list_eq. intros k.
  destruct (decide (k < Z.to_nat (b - a))%nat) as [Hk|Hk].
  - rewrite assemble_lookup by exact Hk.
    rewrite lookup_slice by lia. rewrite assemble_lookup by lia.
    rewrite !List.map_map. f_equal. f_equal.
    + apply List.map_ext. intros c. rewrite lookup_slice by lia. reflexivity.
    + apply List.map_ext. intros v. rewrite lookup_slice by lia. reflexivity.
  - rewrite !lookup_ge_None_2; [reflexivity | |].
    + rewrite length_slice; [lia | lia | rewrite length_assemble; lia].
    + rewrite length_assemble. lia.
Qed.

Lemma length_np_tile {X : Type} (idx : list X) (r : nat) :
  length (np_tile idx r) = (r * length idx)%nat.
Proof.
  unfold np_tile. induction r as [|r IH]; simpl; [reflexivity|].
  rewrite length_app, IH. reflexivity.
Qed.

Lemma length_np_repeat {X : Type} (idx : list X) (r : nat) :
  length (np_repeat idx r) = (length idx * r)%nat.
Proof.
  unfold np_repeat. induction idx as [|x idx IH]; [reflexivity|].
  rewrite bind_cons, length_app, length_replicate, IH. simpl. lia.
Qed.

Lemma prod_lengths_app {X : Type} (l1 l2 : list (list X)) :
  prod_lengths (l1 ++ l2) = (prod_lengths l1 * prod_lengths l2)%nat.
Proof.
  unfold prod_lengths. induction l1 as [|c l1 IH]; simpl; [lia|].
  rewrite IH. lia.
Qed.

(** Every broadcast index column has one entry per row. *)
Lemma length_broadcast_indexes {X : Type} (indexes : list (list X)) (c : list X) :
  c ∈ broadcast_indexes indexes -> length c = prod_lengths indexes.
Proof.
  intros Hc. apply list_elem_of_lookup in Hc as [i Hi].
  unfold broadcast_indexes in Hi. rewrite list_lookup_imap in Hi.
  destruct (indexes !! i) as [idx|] eqn:Hidx; [|discriminate].
  simpl in Hi. injection Hi as <-.
  pose proof (lookup_lt_Some _ _ _ Hidx) as Hlt.
  assert (prod_lengths indexes =
          (prod_lengths (take i indexes)
           * (length idx * prod_lengths (drop (S i) indexes)))%nat) as ->.
  { transitivity (prod_lengths (take i indexes ++ idx :: drop (S i) indexes)).
    - f_equal. symmetry. apply take_drop_middle, Hidx.
    - rewrite prod_lengths_app. reflexivity. }
  assert (length (if bool_decide (0 < i < length indexes)%nat
                  then np_tile idx (prod_lengths (take i indexes)) else idx)
          = (prod_lengths (take i indexes) * length idx)%nat) as Htile.
  { case_bool_decide as Hi.
    - apply length_np_tile.
    - assert (i = 0)%nat as -> by lia. simpl. lia. }
  destruct (bool_decide (i < length indexes - 1)%nat) eqn:Hlast.
  - rewrite length_np_repeat, Htile. lia.
  - apply bool_decide_eq_false in Hlast.
    rewrite Htile. assert (drop (S i) indexes = []) as ->.
    { apply drop_ge. lia. }
    simpl. lia.
Qed.

Lemma length_all_missing (block : list (list (option V))) :
  length (all_missing block) = length block.
Proof. unfold all_missing. apply length_map. Qed.

(** The consolidated mask has one entry per row. *)
Lemma length_consolidate_masks (dropna : bool) (values : list (list (list (option V))))
  (n : nat) (m : list bool) :
  Forall (fun v => length v = n) values ->
  consolidate_masks dropna values = Some m -> length m = n.
Proof.
  intros Hlen. unfold consolidate_masks. destruct dropna; [|discriminate].
  destruct values as [|v vs]; simpl; [discriminate|].
  intros [= <-]. inversion Hlen as [|? ? Hv Hvs]; subst. clear Hlen.
  assert (length (all_missing v) = length v) as Hm0 by apply length_all_missing.
  revert Hm0. generalize (all_missing v) as m0.
  induction vs as [|w vs IH]; intros m0 Hm0; simpl; [exact Hm0|].
  inversion Hvs as [|? ? Hw Hvs']; subst.
  apply IH; [exact Hvs'|].
  rewrite length_zip_with, length_all_missing. lia.
Qed.

End WriteDataFacts.

Lemma chunk_count_gt (cs n i : Z) :
  0 < cs -> 0 <= i -> i * cs < n -> i < (n + cs - 1) / cs.
Proof.
  intros Hcs Hi Hlt.
  assert (i + 1 <= (n + cs - 1) / cs) as H; [|lia].
  apply Z.div_le_lower_bound; [exact Hcs|]. lia.
Qed.

Lemma chunk_count_le (cs n i : Z) :
  0 < cs -> n <= i * cs -> (n + cs - 1) / cs <= i.
Proof.
  intros Hcs Hle.
  assert ((n + cs - 1) / cs < i + 1) as H; [|lia].
  apply Z.div_lt_upper_bound; [exact Hcs|]. lia.
Qed.

Lemma write_data_chunk_head {V : Type} (indexes : list (list (option V)))
  (mask : option (list bool)) (values : list (list (list (option V))))
  (st : tstate record) (idx0 : list (option V)) :
  head indexes = Some idx0 ->
  existsb (fun v => (prod_shape v =? 0)%nat) values = false ->
  write_data_chunk indexes mask values st =
    let rows := assemble (length idx0) indexes values in
    let rows' := match mask with
                 | Some m => if forallb negb m then rows else drop_masked rows m
                 | None => rows
                 end in
    if (0 <? length rows')%nat then (Ok tt, do_flush (do_append rows' st)) else (Ok tt, st).
Proof.
  intros Hhd Hnz. unfold write_data_chunk. rewrite Hnz.
  destruct indexes as [|c cols]; [discriminate|].
  simpl in Hhd. injection Hhd as ->. reflexivity.
Qed.

Section ChunkLoop.
Context {V : Type}.
Variables (cs : Z) (n : nat).
Variable bindexes : list (list (option V)).
Variable mask : option (list bool).
Variable bvalues : list (list (list (option V))).
Hypothesis Hcs : 0 < cs.
Hypothesis Hidx : bindexes <> [].
Hypothesis Hilen : Forall (fun c => length c = n) bindexes.
Hypothesis Hvlen : Forall (fun v => length v = n /\ Forall (fun r => r <> []) v) bvalues.
Hypothesis Hmask : forall m, mask = Some m -> length m = n.

Let rows : list record := assemble n bindexes bvalues.

(** What chunk [[a, b)] keeps after masking. *)
Let kept (a b : Z) : list record := unmasked (slice rows a b) (slice_mask mask a b).

Lemma sliced_blocks_nonzero (vs : list (list (list (option V)))) (a b : Z) :
  Forall (fun v => length v = n /\ Forall (fun r => r <> []) v) vs ->
  0 <= a < b -> b <= Z.of_nat n ->
  existsb (fun v => (prod_shape v =? 0)%nat) (map (fun v => slice v a b) vs) = false.
Proof.
  intros Hvs Hab Hb. induction vs as [|v vs IH]; [reflexivity|].
  apply Forall_cons in Hvs as [[Hlen Hrows] Hvs'].
  cbn [map existsb]. rewrite (IH Hvs'), orb_false_r. apply Nat.eqb_neq.
  assert (length (slice v a b) = Z.to_nat (b - a)) as Hl
    by (apply length_slice; lia).
  unfold prod_shape. rewrite Hl.
  destruct (slice v a b) as [|r tl] eqn:Hs; [simpl in Hl; lia|].
  assert (r ∈ v) as Hr.
  { apply (elem_of_sublist (slice v a b)); [rewrite Hs; left|].
    unfold slice. etransitivity; [apply sublist_take | apply sublist_drop]. }
  rewrite Forall_forall in Hrows. specialize (Hrows r Hr).
  destruct r; [contradiction|]. simpl. lia.
Qed.

Lemma masked_chunk (a b : Z) :
  0 <= a <= b -> b <= Z.of_nat n ->
  match slice_mask mask a b with
  | Some m => if forallb negb m then slice rows a b else drop_masked (slice rows a b) m
  | None => slice rows a b
  end = kept a b.
Proof.
  intros Hab Hb. unfold kept. destruct mask as [m|] eqn:Hm; simpl; [|reflexivity].
  destruct (forallb negb (slice m a b)) eqn:Hall; [|reflexivity].
  symmetry. apply drop_masked_all_kept; [exact Hall|].
  rewrite !length_slice; try lia.
  - unfold rows. rewrite length_assemble. lia.
  - rewrite (Hmask m eq_refl). lia.
Qed.

(** One chunk: the rows of [[a, b)] that the mask keeps are appended and
    the table is flushed, unless none is kept. *)
Lemma write_data_chunk_slice (a b : Z) (st : tstate record) (old : list record) :
  0 <= a < b -> b <= Z.of_nat n -> t_rows st = Some old ->
  exists st',
    write_data_chunk (map (fun c => slice c a b) bindexes) (slice_mask mask a b)
                     (map (fun v => slice v a b) bvalues) st = (Ok tt, st') /\
    t_rows st' = Some (old ++ kept a b) /\
    t_ops st' = t_ops st ++ chunk_ops (length (kept a b)).
Proof.
  intros Hab Hb Hold.
  assert (exists c0, head bindexes = Some c0 /\ length c0 = n) as (c0 & Hhd & Hc0).
  { destruct bindexes as [|c0 cols]; [contradiction|].
    exists c0. split; [reflexivity|]. apply Forall_cons in Hilen as [Hlen _]. exact Hlen. }
  rewrite (write_data_chunk_head _ _ _ _ (slice c0 a b)).
  - cbv zeta. rewrite length_slice by lia.
    rewrite (assemble_slice n) by lia. fold rows.
    rewrite masked_chunk by lia.
    unfold chunk_ops. destruct (0 <? length (kept a b))%nat eqn:Hk.
    + eexists. split; [reflexivity|]. simpl. rewrite Hold. simpl.
      split; [reflexivity|]. rewrite <- app_assoc. reflexivity.
    + exists st. split; [reflexivity|].
      apply Nat.ltb_ge in Hk. assert (kept a b = []) as ->
        by (destruct (kept a b); [reflexivity | simpl in Hk; lia]).
      rewrite !app_nil_r. split; [exact Hold | reflexivity].
  - destruct bindexes; [discriminate|]. simpl in Hhd |- *. congruence.
  - apply sliced_blocks_nonzero; [exact Hvlen | lia | lia].
Qed.

Lemma kept_nil (a b : Z) : b <= a -> kept a b = [].
Proof.
  intros Hba. unfold kept. rewrite slice_nil by exact Hba.
  destruct mask; reflexivity.
Qed.

Lemma kept_app (a b c : Z) :
  0 <= a <= b -> b <= c -> c <= Z.of_nat n -> kept a c = kept a b ++ kept b c.
Proof.
  intros Hab Hbc Hc. unfold kept. apply unmasked_slice_app; try lia.
  - unfold rows. rewrite length_assemble. exact Hc.
  - intros m Hm. unfold rows. rewrite length_assemble. apply Hmask, Hm.
Qed.

(** The trace one chunk number contributes. *)
Let chunk_trace (i : Z) : list op :=
  chunk_ops (length (kept (chunk_range cs (Z.of_nat n) i).1 (chunk_range cs (Z.of_nat n) i).2)).

(** The loop, started at chunk [i] with enough iterations left, appends
    what the mask keeps of rows [[i * cs, n)], chunk by chunk in
    ascending order. *)
Lemma write_chunks_from (fuel : nat) :
  forall (i : Z) (st : tstate record) (old : list record),
    0 <= i -> t_rows st = Some old ->
    Z.of_nat n - i * cs <= Z.of_nat fuel * cs ->
    exists st',
      write_chunks fuel i cs (Z.of_nat n) bindexes mask bvalues st = (Ok tt, st') /\
      t_rows st' = Some (old ++ kept (i * cs) (Z.of_nat n)) /\
      t_ops st' =
        t_ops st ++ flat_map chunk_trace (seqZ i ((Z.of_nat n + cs - 1) / cs - i)).
Proof.
  induction fuel as [|fuel IH]; intros i st old Hi Hold Hfuel.
  - exists st. split; [reflexivity|].
    rewrite kept_nil by lia. rewrite seqZ_nil.
    + simpl. rewrite !app_nil_r. split; [exact Hold | reflexivity].
    + pose proof (chunk_count_le cs (Z.of_nat n) i Hcs). lia.
  - simpl. replace ((i + 1) * cs) with (i * cs + cs) by ring.
    destruct (Z.min (i * cs + cs) (Z.of_nat n) <=? i * cs) eqn:Hbreak.
    + apply Z.leb_le in Hbreak. exists st. split; [reflexivity|].
      rewrite kept_nil by lia. rewrite seqZ_nil.
      * simpl. rewrite !app_nil_r. split; [exact Hold | reflexivity].
      * pose proof (chunk_count_le cs (Z.of_nat n) i Hcs). lia.
    + apply Z.leb_gt in Hbreak.
      assert (0 <= i * cs) as Hnn by (apply Z.mul_nonneg_nonneg; lia).
      destruct (write_data_chunk_slice (i * cs) (Z.min (i * cs + cs) (Z.of_nat n)) st old)
        as (st1 & Hstep & Hrows1 & Hops1); [lia | lia | exact Hold |].
      rewrite Hstep.
      destruct (IH (i + 1) st1 _ ltac:(lia) Hrows1) as (st' & Hloop & Hrows' & Hops').
      { replace ((i + 1) * cs) with (i * cs + cs) by ring.
        replace (Z.of_nat (S fuel) * cs) with (Z.of_nat fuel * cs + cs) in Hfuel
          by (rewrite Nat2Z.inj_succ; ring).
        lia. }
      exists st'. split; [exact Hloop|]. split.
      * rewrite Hrows'. f_equal. rewrite <- app_assoc. f_equal.
        replace ((i + 1) * cs) with (i * cs + cs) by ring.
        rewrite (kept_app (i * cs) (Z.min (i * cs + cs) (Z.of_nat n)) (Z.of_nat n))
          by lia.
        f_equal. destruct (decide (i * cs + cs <= Z.of_nat n)) as [Hfull|Hpart].
        -- rewrite Z.min_l by lia. reflexivity.
        -- rewrite !kept_nil by lia. reflexivity.
      * rewrite Hops', Hops1. rewrite <- app_assoc. f_equal.
        pose proof (chunk_count_gt cs (Z.of_nat n) i Hcs Hi ltac:(lia)) as Hcount.
        rewrite (seqZ_cons i) by lia. simpl.
        replace (Z.succ i) with (i + 1) by lia.
        replace (Z.pred ((Z.of_nat n + cs - 1) / cs - i))
          with ((Z.of_nat n + cs - 1) / cs - (i + 1)) by lia.
        f_equal. unfold chunk_trace, chunk_range. simpl.
        replace ((i + 1) * cs) with (i * cs + cs) by ring. reflexivity.
Qed.

End ChunkLoop.

(** C7: with a positive chunk size [cs] (100000 when the caller passes
    none), [write_data] succeeds; the rows it appends are, in order, the
    assembled rows [0 .. nrows) that the all-missing mask does not
    suppress, each exactly once; and the operations it issues are, for the
    chunk numbers [0, 1, ...] in ascending order, one append of the
    unmasked rows of [[i * cs, min((i + 1) * cs, nrows))] followed by one
    flush, for every chunk in which at least one row survives the mask. *)
Theorem write_data_chunked {V : Type} (chunksize : option Z) (dropna : bool)
  (indexes : list (list (option V))) (values : list (list (list (option V))))
  (st : tstate record) (old : list record) :
  let cs := default 100000 chunksize in
  let n := prod_lengths indexes in
  let rows := assemble n (broadcast_indexes indexes) values in
  let mask := consolidate_masks dropna values in
  0 < cs ->
  indexes <> [] ->
  Forall (fun v => length v = n /\ Forall (fun r => r <> []) v) values ->
  t_rows st = Some old ->
  exists st',
    write_data chunksize dropna indexes values st = (Ok tt, st') /\
    t_rows st' = Some (old ++ unmasked rows mask) /\
    t_ops st' =
      t_ops st ++
      flat_map (fun i =>
                  let r := chunk_range cs (Z.of_nat n) i in
                  chunk_ops (length (unmasked (slice rows r.1 r.2) (slice_mask mask r.1 r.2))))
               (seqZ 0 ((Z.of_nat n + cs - 1) / cs)).
Proof.
  intros cs n rows mask Hcs Hidx Hvlen Hold.
  assert (forall m, mask = Some m -> length m = n) as Hmask.
  { intros m Hm. eapply length_consolidate_masks; [|exact Hm].
    eapply Forall_impl; [exact Hvlen|]. intros v [Hv _]. exact Hv. }
  assert (broadcast_indexes indexes <> []) as Hbidx.
  { intros Hnil. apply (f_equal length) in Hnil.
    unfold broadcast_indexes in Hnil. rewrite length_imap in Hnil.
    destruct indexes; [contradiction | discriminate]. }
  assert (Forall (fun c => length c = n) (broadcast_indexes indexes)) as Hilen.
  { apply Forall_forall. intros c Hc. apply length_broadcast_indexes, Hc. }
  unfold write_data. fold cs n mask.
  rewrite bool_decide_eq_false_2 by lia.
  replace (Z.min cs (Z.of_nat n) <? 0) with false by (symmetry; apply Z.ltb_ge; lia).
  destruct (write_chunks_from cs n (broadcast_indexes indexes) mask values
              Hcs Hbidx Hilen Hvlen Hmask
              (Z.to_nat (Z.of_nat n ÷ cs + 1)) 0 st old) as (st' & Hrun & Hrows & Hops).
  - lia.
  - exact Hold.
  - rewrite Z.quot_div_nonneg by lia.
    pose proof (Z.div_mod (Z.of_nat n) cs ltac:(lia)) as Hdm.
    pose proof (Z.mod_pos_bound (Z.of_nat n) cs Hcs) as Hmod.
    pose proof (Z.div_pos (Z.of_nat n) cs ltac:(lia) Hcs) as Hdiv.
    rewrite Z2Nat.id by lia. lia.
  - exists st'. split; [exact Hrun|]. split.
    + rewrite Hrows. f_equal. f_equal. fold rows. simpl.
      replace (Z.of_nat n) with (Z.of_nat (length rows))
        by (unfold rows; rewrite length_assemble; reflexivity).
      rewrite slice_all. destruct mask as [m|] eqn:Hm; simpl; [|reflexivity].
      replace (Z.of_nat (length rows)) with (Z.of_nat (length m)).
      * rewrite slice_all. reflexivity.
      * rewrite (Hmask m eq_refl). unfold rows. rewrite length_assemble. reflexivity.
    + rewrite Hops. rewrite Z.sub_0_r. reflexivity.
Qed.

Lemma write_data_chunked_witness :
  let indexes := [[Some 10; Some 11; Some 12; Some 13; Some 14]] in
  let values := [[[Some 1]; [None]; [Some 3]; [None]; [Some 5]]] in
  let st := {| t_rows := Some []; t_ops := [] |} in
  exists st',
    write_data (Some 2) true indexes values st = (Ok tt, st') /\
    t_rows st' = Some [([Some 10], [[Some 1]]); ([Some 12], [[Some 3]]); ([Some 14], [[Some 5]])] /\
    t_ops st' = [Op_append 1; Op_flush; Op_append 1; Op_flush; Op_append 1; Op_flush].
Proof.
  destruct (write_data_chunked (Some 2) true
              [[Some 10; Some 11; Some 12; Some 13; Some 14]]
              [[[Some 1]; [None]; [Some 3]; [None]; [Some 5]]]
              {| t_rows := Some []; t_ops := [] |} [])
    as (st' & Hrun & Hrows & Hops).
  - reflexivity.
  - discriminate.
  - repeat constructor; discriminate.
  - reflexivity.
  - exists st'. split; [exact Hrun|]. split; [exact Hrows | exact Hops].
Defined.

(** A chunk whose rows are all masked is skipped without an append or a
    flush; chunk size [2] over five rows gives chunks of 2, 2 and 1. *)
Example write_data_skips_empty_chunk :
  let r := write_data (Some 2) true
             [[Some 10; Some 11; Some 12; Some 13; Some 14]]
             [[[Some 1]; [Some 2]; [None]; [None]; [Some 5]]]
             {| t_rows := Some []; t_ops := [] |} in
  r.1 = Ok tt /\ t_ops r.2 = [Op_append 2; Op_flush; Op_append 1; Op_flush].
Proof. vm_compute. split; reflexivity. Qed.

(** ** Row deletion by coordinates *)

(** The example of the specification, with the coordinates in ascending
    order: three runs, removed from the highest down, 94 rows left in
    their original order. *)
Example delete_runs_descending `{C : Collaborators} :
  AppendableTable_delete (seqZ 0 100)
    (W_list [I_int 1; I_int 2; I_int 3; I_int 7; I_int 8; I_int 20]) None None
  = (Ok (Some 6),
     {| t_rows := Some (seqZ 0 1 ++ seqZ 4 3 ++ seqZ 9 11 ++ seqZ 21 79);
        t_ops := [Op_remove_rows 20 21; Op_remove_rows 7 9; Op_remove_rows 1 4; Op_flush] |}).
Proof. reflexivity. Qed.

(** C1 at the failing input: the explicit coordinates [[5; 1]] on a
    100-row table.  The matching coordinates sort to [[1; 5]], two runs of
    one row each; the code takes the group boundaries from the labels of
    the sorted series, which are positions in the unsorted input, and
    issues the single removal [remove_rows(1, 6)].  Rows 2, 3 and 4 are
    deleted although they were not selected, and the returned count is 2. *)
Theorem delete_unsorted_coordinates `{C : Collaborators} :
  select_coords <$>
    match Selection_init 100 (W_list [I_int 5; I_int 1]) None None with
    | Ok s => Some s
    | Raise _ => None
    end = Some [5; 1] /\
  sort_values (Series_of [5; 1]) = [(1, 1); (0, 5)] /\
  gap_labels (sort_values (Series_of [5; 1])) = [0] /\
  AppendableTable_delete (seqZ 0 100) (W_list [I_int 5; I_int 1]) None None
  = (Ok (Some 2),
     {| t_rows := Some (0 :: seqZ 6 94);
        t_ops := [Op_remove_rows 1 6; Op_flush] |}).
Proof. repeat split. Qed.

(** The same six coordinates as in the specification's example, listed
    with 20 first: rows 1 to 20 are removed in one operation and the loop
    then stops on an empty group. *)
Example delete_unsorted_example `{C : Collaborators} :
  let r := AppendableTable_delete (seqZ 0 100)
             (W_list [I_int 20; I_int 1; I_int 2; I_int 3; I_int 7; I_int 8]) None None in
  r.1 = Raise (IndexError "index 0 is out of bounds for axis 0 with size 0") /\
  t_ops r.2 = [Op_remove_rows 1 21] /\
  length (default [] (t_rows r.2)) = 80%nat.
Proof. repeat split. Qed.

(** *** Ascending coordinates: one removal per run, highest run first *)

Lemma Series_of_label_from (values : list Z) : Series_of values = label_from 0 values.
Proof.
  unfold Series_of.
  assert (forall k, imap (fun i v => (Z.of_nat (k + i), v)) values
                    = label_from (Z.of_nat k) values) as H.
  { induction values as [|v values IH]; intros k; [reflexivity|].
    rewrite imap_cons. simpl. rewrite Nat.add_0_r. f_equal.
    replace (Z.of_nat k + 1) with (Z.of_nat (S k)) by lia.
    rewrite <- IH. apply imap_ext. intros i x _. simpl. f_equal. f_equal. lia. }
  apply (H 0%nat).
Qed.

Lemma sort_values_label_from (k : Z) (values : list Z) :
  ascending values -> sort_values (label_from k values) = label_from k values.
Proof.
  unfold ascending, sort_values. revert k.
  induction values as [|x values IH]; intros k Hasc; [reflexivity|].
  simpl. inversion Hasc as [|? ? Hs Hhd]; subst. rewrite IH by exact Hs.
  destruct values as [|y values]; [reflexivity|].
  simpl. inversion Hhd; subst.
  replace (x <=? y) with true by (symmetry; apply Z.leb_le; assumption).
  reflexivity.
Qed.

Lemma gap_labels_label_from (k x : Z) (l : list Z) :
  gap_labels (label_from k (x :: l)) = gaps (k + 1) x l.
Proof.
  unfold gap_labels. simpl. generalize (k + 1) as j. revert x.
  induction l as [|y l IH]; intros x j; [reflexivity|].
  simpl. unfold gt_one at 1. simpl.
  destruct (1 <? y - x); simpl; rewrite IH; reflexivity.
Qed.

Lemma gaps_bounds (k prev : Z) (l : list Z) (g : Z) :
  g ∈ gaps k prev l -> k <= g < k + Z.of_nat (length l).
Proof.
  revert k prev. induction l as [|y l IH]; intros k prev Hg; simpl in Hg.
  - inversion Hg.
  - apply elem_of_app in Hg as [Hg|Hg].
    + destruct (1 <? y - prev); [|inversion Hg].
      apply list_elem_of_singleton in Hg as ->. simpl. lia.
    + apply IH in Hg. simpl. lia.
Qed.

Lemma length_label_from (k : Z) (l : list Z) : length (label_from k l) = length l.
Proof.
  revert k. induction l as [|x l IH]; intros k; simpl; [reflexivity|].
  rewrite IH. reflexivity.
Qed.

Lemma drop_label_from (k : Z) (pre suf : list Z) :
  drop (length pre) (label_from k (pre ++ suf)) = label_from (k + Z.of_nat (length pre)) suf.
Proof.
  revert k. induction pre as [|p pre IH]; intros k.
  - rewrite drop_0. change (Z.of_nat (length [])) with 0. rewrite Z.add_0_r. reflexivity.
  - change (drop (length (p :: pre)) (label_from k ((p :: pre) ++ suf)))
      with (drop (length pre) (label_from (k + 1) (pre ++ suf))).
    rewrite IH. f_equal. rewrite length_cons. lia.
Qed.

(** The segment of the labelled series from position [length pre] up to
    [pg], when the values there are [x :: rest]. *)
Lemma take_range_cons (pre : list Z) (x : Z) (rest : list Z) (pg : Z) :
  Z.of_nat (length pre) < pg ->
  take_range (label_from 0 (pre ++ x :: rest)) (Z.of_nat (length pre)) pg
  = (Z.of_nat (length pre), x)
      :: take_range (label_from 0 ((pre ++ [x]) ++ rest)) (Z.of_nat (length (pre ++ [x]))) pg.
Proof.
  intros Hpg. unfold take_range. rewrite !Nat2Z.id.
  rewrite (drop_label_from 0 pre (x :: rest)).
  rewrite (drop_label_from 0 (pre ++ [x]) rest).
  rewrite length_app. cbn [length label_from].
  replace (Z.to_nat (pg - Z.of_nat (length pre)))
    with (S (Z.to_nat (pg - Z.of_nat (length pre + 1)))) by lia.
  rewrite firstn_cons, !Z.add_0_l. do 3 f_equal. lia.
Qed.

Lemma take_range_nil (s : Series) (g pg : Z) : pg <= g -> take_range s g pg = [].
Proof.
  intros H. unfold take_range. replace (Z.to_nat (pg - g)) with 0%nat by lia. reflexivity.
Qed.

Lemma lookup_label_label_from (k : Z) (r : list Z) (j : nat) (v : Z) :
  r !! j = Some v -> lookup_label (label_from k r) (k + Z.of_nat j) = Some v.
Proof.
  revert k j. induction r as [|x r IH]; intros k j Hj; [discriminate|].
  cbn [label_from lookup_label]. destruct j as [|j]; simpl in Hj.
  - injection Hj as ->.
    rewrite (proj2 (Z.eqb_eq k (k + Z.of_nat 0))) by lia. reflexivity.
  - rewrite (proj2 (Z.eqb_neq k (k + Z.of_nat (S j)))) by lia.
    replace (k + Z.of_nat (S j)) with (k + 1 + Z.of_nat j) by lia. apply IH, Hj.
Qed.

Lemma last_label_from (k : Z) (r : list Z) (x : Z) :
  List.last (map Some (label_from k (r ++ [x]))) None
  = Some (k + Z.of_nat (length r), x).
Proof.
  revert k. induction r as [|y r IH]; intros k.
  - simpl. f_equal. f_equal. lia.
  - simpl. rewrite IH.
    destruct (map Some (label_from (k + 1) (r ++ [x]))) eqn:Hm.
    + destruct r; discriminate.
    + f_equal. f_equal. lia.
Qed.

(** One iteration of the removal loop on a segment holding the run [r]. *)
Lemma remove_groups_segment {A : Type} (s : Series) (g pg : Z) (r : list Z)
  (st : tstate A) :
  r <> [] -> take_range s g pg = label_from g r ->
  remove_groups s [g] pg st = (Ok tt, remove_run r st).
Proof.
  intros Hr Hseg. cbn [remove_groups]. rewrite Hseg.
  destruct r as [|x r]; [contradiction|].
  assert (exists r0 z, x :: r = r0 ++ [z]) as (r0 & z & Hsnoc).
  { destruct (@exists_last _ (x :: r)) as (r0 & z & H); [discriminate|]. eauto. }
  assert (List.last (x :: r) 0 = z) as Hlast.
  { rewrite Hsnoc. apply List.last_last. }
  assert (List.last (map Some (label_from g (x :: r))) None
          = Some (g + Z.of_nat (length r0), z)) as ->.
  { rewrite Hsnoc. apply last_label_from. }
  change (head (label_from g (x :: r))) with (Some (g, x)). cbn [fst].
  pose proof (lookup_label_label_from g (x :: r) 0 x eq_refl) as Hfirst.
  replace (g + Z.of_nat 0) with g in Hfirst by lia. rewrite Hfirst.
  rewrite (lookup_label_label_from g (x :: r) (length r0) z).
  - unfold remove_run. rewrite Hlast. reflexivity.
  - rewrite Hsnoc. rewrite lookup_app_r by lia.
    replace (length r0 - length r0)%nat with 0%nat by lia. reflexivity.
Qed.

Lemma last_cons_default {X : Type} (g : X) (rest : list X) (d : X) :
  List.last (g :: rest) d = List.last rest g.
Proof.
  revert g d. induction rest as [|h rest IH]; intros g d; [reflexivity|].
  change (List.last (g :: h :: rest) d) with (List.last (h :: rest) d).
  rewrite (IH h d), (IH h g). reflexivity.
Qed.

(** The loop over a concatenation: the second part starts with the last
    group of the first as its upper bound. *)
Lemma remove_groups_app {A : Type} (s : Series) (l1 l2 : list Z) (pg : Z) (st : tstate A) :
  remove_groups s (l1 ++ l2) pg st =
  match remove_groups s l1 pg st with
  | (Ok _, st') => remove_groups s l2 (List.last l1 pg) st'
  | (Raise e, st') => (Raise e, st')
  end.
Proof.
  revert pg st. induction l1 as [|g l1 IH]; intros pg st; [reflexivity|].
  cbn [app remove_groups].
  destruct (head (take_range s g pg)) as [first|]; [|reflexivity].
  destruct (List.last (map Some (take_range s g pg)) None) as [final|]; [|reflexivity].
  destruct (lookup_label _ first.1) as [start|]; [|reflexivity].
  destruct (lookup_label _ final.1) as [stop1|]; [|reflexivity].
  rewrite IH. rewrite last_cons_default. reflexivity.
Qed.

Lemma last_rev_hd {X : Type} (l : list X) (d : X) : List.last (rev l) d = hd d l.
Proof.
  destruct l as [|x l]; [reflexivity|]. simpl. apply List.last_last.
Qed.

(** The invariant of the removal loop, read from the left: for the
    values [x :: l] that follow [pre], the groups found after position
    [length pre] are removed run by run, and the segment that starts at
    [length pre] holds the first run. *)
Lemma removal_loop_invariant {A : Type} (l : list Z) :
  forall (x : Z) (pre : list Z) (st : tstate A),
    ascending (x :: l) ->
    exists t rs,
      runs (x :: l) = (x :: t) :: rs /\
      remove_groups (label_from 0 (pre ++ x :: l))
                    (rev (gaps (Z.of_nat (length pre) + 1) x l))
                    (Z.of_nat (length (pre ++ x :: l))) st
        = (Ok tt, foldr remove_run st rs) /\
      take_range (label_from 0 (pre ++ x :: l)) (Z.of_nat (length pre))
                 (hd (Z.of_nat (length (pre ++ x :: l)))
                     (gaps (Z.of_nat (length pre) + 1) x l))
        = label_from (Z.of_nat (length pre)) (x :: t).
Proof.
  induction l as [|y l IH]; intros x pre st Hasc.
  - exists [], []. split; [reflexivity|]. split; [reflexivity|].
    cbn [gaps hd]. rewrite take_range_cons by (rewrite length_app; simpl; lia).
    rewrite take_range_nil by (rewrite !length_app; simpl; lia). reflexivity.
  - unfold ascending in Hasc. inversion Hasc as [|? ? Hasc' Hhd]; subst.
    destruct (IH y (pre ++ [x]) st Hasc') as (t' & rs' & Hruns' & Hloop' & Hseg').
    assert ((pre ++ [x]) ++ y :: l = pre ++ x :: y :: l) as Hv
      by (rewrite <- app_assoc; reflexivity).
    assert (Z.of_nat (length (pre ++ [x])) = Z.of_nat (length pre) + 1) as Hk
      by (rewrite length_app; simpl; lia).
    rewrite Hv, Hk in Hloop'. rewrite Hv, Hk in Hseg'.
    assert (forall pg, Z.of_nat (length pre) < pg ->
              take_range (label_from 0 (pre ++ x :: y :: l)) (Z.of_nat (length pre)) pg
              = (Z.of_nat (length pre), x)
                  :: take_range (label_from 0 (pre ++ x :: y :: l))
                                (Z.of_nat (length pre) + 1) pg) as Hcons.
    { intros pg Hpg. rewrite take_range_cons by exact Hpg.
      rewrite Hv, Hk. reflexivity. }
    set (k := Z.of_nat (length pre)) in *.
    set (ln := Z.of_nat (length (pre ++ x :: y :: l))) in *.
    set (s := label_from 0 (pre ++ x :: y :: l)) in *.
    set (G' := gaps (k + 1 + 1) y l) in *.
    rename Hseg' into Hseg.
    change (runs (x :: y :: l)) with
      (match runs (y :: l) with
       | (y0 :: r) :: rs =>
           if 1 <? y0 - x then [x] :: (y0 :: r) :: rs else (x :: y0 :: r) :: rs
       | _ => [[x]]
       end).
    rewrite Hruns'.
    change (gaps (k + 1) x (y :: l)) with ((if 1 <? y - x then [k + 1] else []) ++ G').
    destruct (1 <? y - x) eqn:Hgap.
    + exists [], ((y :: t') :: rs'). split; [reflexivity|]. split.
      * cbn [app rev]. rewrite remove_groups_app, Hloop'.
        rewrite last_rev_hd.
        rewrite (remove_groups_segment s (k + 1) (hd ln G') (y :: t'));
          [reflexivity | discriminate | exact Hseg].
      * cbn [app hd]. rewrite Hcons by lia.
        rewrite take_range_nil by lia. reflexivity.
    + exists (y :: t'), rs'. split; [reflexivity|]. split; [exact Hloop'|].
      cbn [app]. rewrite Hcons.
      * rewrite Hseg. reflexivity.
      * destruct (decide (k + 1 < hd ln G')) as [Hlt|Hge]; [lia|].
        rewrite take_range_nil in Hseg by lia. discriminate.
Qed.

Lemma close_groups_gaps (x : Z) (l : list Z) :
  close_groups (gaps 1 x l) (Z.of_nat (length (x :: l)))
  = 0 :: gaps 1 x l ++ [Z.of_nat (length (x :: l))].
Proof.
  unfold close_groups.
  destruct (gaps 1 x l) as [|g G] eqn:HG.
  - cbn [List.last].
    destruct (bool_decide (0 = Z.of_nat (length (x :: l)))) eqn:Hd.
    + apply bool_decide_eq_true in Hd. simpl in Hd. lia.
    + reflexivity.
  - assert (forall h, h ∈ g :: G -> 1 <= h < Z.of_nat (length (x :: l))) as Hb.
    { intros h Hh. rewrite <- HG in Hh. apply gaps_bounds in Hh. simpl. lia. }
    rewrite bool_decide_eq_false_2.
    + cbn [app]. rewrite bool_decide_eq_false_2; [reflexivity|].
      specialize (Hb g ltac:(left)). lia.
    + intros Hlast.
      assert (List.last (g :: G) 0 ∈ g :: G) as Hin.
      { destruct (@exists_last _ (g :: G)) as (G0 & z & ->); [discriminate|].
        rewrite List.last_last. apply elem_of_app. right. left. }
      specialize (Hb _ Hin). lia.
Qed.

(** Strictly ascending coordinates are in particular ascending. *)
Lemma strictly_ascending_ascending (l : list Z) : Sorted Z.lt l -> ascending l.
Proof.
  unfold ascending. induction 1 as [|x l Hs IH Hhd]; constructor; [exact IH|].
  destruct Hhd; constructor. lia.
Qed.

(** On strictly ascending coordinates [delete] issues exactly one removal per
    maximal run of consecutive coordinates, visiting the runs from the
    highest down, flushes, and returns the number of coordinates. *)
Theorem delete_coords_ascending {A : Type} (values : list Z) (st : tstate A) :
  values <> [] -> Sorted Z.lt values ->
  delete_coords values st
  = (Ok (Some (Z.of_nat (length values))), do_flush (foldr remove_run st (runs values))).
Proof.
  intros Hne Hasc. apply strictly_ascending_ascending in Hasc.
  destruct values as [|x l]; [contradiction|].
  unfold delete_coords.
  rewrite Series_of_label_from, sort_values_label_from by exact Hasc.
  rewrite length_label_from.
  rewrite bool_decide_eq_false_2 by (simpl; lia).
  rewrite gap_labels_label_from. rewrite Z.add_0_l.
  rewrite close_groups_gaps.
  assert (List.last (0 :: gaps 1 x l ++ [Z.of_nat (length (x :: l))]) 0
          = Z.of_nat (length (x :: l))) as ->.
  { rewrite app_comm_cons. apply List.last_last. }
  assert (removelast (0 :: gaps 1 x l ++ [Z.of_nat (length (x :: l))])
          = 0 :: gaps 1 x l) as ->.
  { rewrite app_comm_cons. apply List.removelast_last. }
  destruct (removal_loop_invariant l x [] st Hasc) as (t & rs & Hruns & Hloop & Hseg).
  change ([] ++ x :: l) with (x :: l) in Hloop, Hseg.
  change (Z.of_nat (length (@nil Z)) + 1) with 1 in Hloop, Hseg.
  change (Z.of_nat (length (@nil Z))) with 0 in Hseg.
  cbn [rev]. rewrite remove_groups_app, Hloop, last_rev_hd.
  rewrite (remove_groups_segment (label_from 0 (x :: l)) 0 _ (x :: t));
    [| discriminate | exact Hseg].
  rewrite Hruns. reflexivity.
Qed.

(** The operations issued: the removals of the runs, highest first, then
    one flush. *)
Lemma remove_runs_ops {A : Type} (rs : list (list Z)) (st : tstate A) :
  is_Some (t_rows st) ->
  is_Some (t_rows (foldr remove_run st rs)) /\
  t_ops (foldr remove_run st rs) = t_ops st ++ map run_op (rev rs).
Proof.
  intros Hrows. induction rs as [|r rs [IHrows IHops]].
  - simpl. rewrite app_nil_r. split; [exact Hrows | reflexivity].
  - cbn [foldr]. unfold remove_run at 1 3, do_remove_rows.
    destruct IHrows as [rows Hr]. rewrite Hr. simpl. split; [eauto|].
    rewrite IHops, map_app, <- app_assoc. reflexivity.
Qed.

(** *** The rows that remain *)

Lemma drop_coords_app {A : Type} (k : Z) (cs : list Z) (p q : list A) :
  drop_coords k cs (p ++ q) = drop_coords k cs p ++ drop_coords (k + Z.of_nat (length p)) cs q.
Proof.
  revert k. induction p as [|r p IH]; intros k.
  - simpl. f_equal. lia.
  - cbn [app drop_coords length]. rewrite IH.
    replace (k + 1 + Z.of_nat (length p)) with (k + Z.of_nat (S (length p))) by lia.
    destruct (bool_decide (k ∈ cs)); reflexivity.
Qed.

Lemma drop_coords_ext {A : Type} (k : Z) (cs cs' : list Z) (rows : list A) :
  (forall p, k <= p < k + Z.of_nat (length rows) -> p ∈ cs <-> p ∈ cs') ->
  drop_coords k cs rows = drop_coords k cs' rows.
Proof.
  revert k. induction rows as [|r rows IH]; intros k Hext; [reflexivity|].
  cbn [drop_coords]. rewrite (IH (k + 1)).
  - rewrite (bool_decide_ext (k ∈ cs) (k ∈ cs')); [reflexivity|].
    apply Hext. simpl. lia.
  - intros p Hp. apply Hext. simpl. lia.
Qed.

Lemma drop_coords_none {A : Type} (k : Z) (cs : list Z) (rows : list A) :
  (forall p, k <= p < k + Z.of_nat (length rows) -> p ∉ cs) ->
  drop_coords k cs rows = rows.
Proof.
  revert k. induction rows as [|r rows IH]; intros k Hout; [reflexivity|].
  cbn [drop_coords]. rewrite bool_decide_eq_false_2 by (apply Hout; simpl; lia).
  f_equal. apply IH. intros p Hp. apply Hout. simpl. lia.
Qed.

(** Removing the single row at position [x] of [p ++ r :: q] when [p]
    has [x] rows. *)
Lemma remove_rows_middle {A : Type} (x : Z) (p q : list A) (r : A) :
  x = Z.of_nat (length p) ->
  (remove_rows x (x + 1) (p ++ r :: q)).2 = p ++ q.
Proof.
  intros ->. unfold remove_rows, clip_index.
  rewrite length_app. cbn [length].
  replace (Z.of_nat (length p) <? 0) with false by (symmetry; apply Z.ltb_ge; lia).
  replace (Z.of_nat (length p) + 1 <? 0) with false by (symmetry; apply Z.ltb_ge; lia).
  rewrite Z.min_l by lia. rewrite Z.min_l by lia.
  replace (Z.of_nat (length p) <? Z.of_nat (length p) + 1) with true
    by (symmetry; apply Z.ltb_lt; lia).
  cbn [snd]. rewrite Nat2Z.id.
  replace (Z.to_nat (Z.of_nat (length p) + 1)) with (length p + 1)%nat by lia.
  rewrite take_app_length. rewrite drop_app_add. reflexivity.
Qed.

Lemma remove_rows_out_of_range {A : Type} (x : Z) (rows : list A) :
  Z.of_nat (length rows) <= x -> (remove_rows x (x + 1) rows).2 = rows.
Proof.
  intros Hx. unfold remove_rows, clip_index.
  replace (x <? 0) with false by (symmetry; apply Z.ltb_ge; lia).
  replace (x + 1 <? 0) with false by (symmetry; apply Z.ltb_ge; lia).
  rewrite !Z.min_r by lia. rewrite Z.ltb_irrefl. reflexivity.
Qed.

(** Deleting coordinate [x] from what is left after deleting the larger
    coordinates [l]. *)
Lemma drop_coords_remove_one {A : Type} (x : Z) (l : list Z) (rows : list A) :
  0 <= x -> Forall (fun c => x < c) l ->
  (remove_rows x (x + 1) (drop_coords 0 l rows)).2 = drop_coords 0 (x :: l) rows.
Proof.
  intros Hx Hl. rewrite Forall_forall in Hl.
  destruct (decide (Z.of_nat (length rows) <= x)) as [Hout|Hin].
  - rewrite !drop_coords_none.
    + apply remove_rows_out_of_range, Hout.
    + intros p Hp Hmem. apply elem_of_cons in Hmem as [->|Hmem]; [lia|].
      specialize (Hl p Hmem). lia.
    + intros p Hp Hmem. specialize (Hl p Hmem). lia.
  - assert (exists p r q, rows = p ++ r :: q /\ Z.of_nat (length p) = x)
      as (p & r & q & -> & Hp).
    { exists (take (Z.to_nat x) rows).
      destruct (drop (Z.to_nat x) rows) as [|r q] eqn:Hd.
      - apply (f_equal length) in Hd. rewrite length_drop in Hd. simpl in Hd. lia.
      - exists r, q. split.
        + rewrite <- Hd. symmetry. apply take_drop.
        + rewrite length_take. lia. }
    rewrite !drop_coords_app. cbn [drop_coords]. rewrite Z.add_0_l, Hp.
    rewrite (drop_coords_none 0 l p), (drop_coords_none 0 (x :: l) p).
    + rewrite bool_decide_eq_false_2 by (intros Hmem; specialize (Hl x Hmem); lia).
      rewrite bool_decide_eq_true_2 by left.
      rewrite remove_rows_middle by (symmetry; exact Hp). f_equal.
      apply drop_coords_ext. intros c Hc. rewrite elem_of_cons.
      split; [auto | intros [->|H]; [lia | exact H]].
    + intros c Hc Hmem. apply elem_of_cons in Hmem as [->|Hmem]; [lia|].
      specialize (Hl c Hmem). lia.
    + intros c Hc Hmem. specialize (Hl c Hmem). lia.
Qed.

(** Extending a run downwards by one coordinate removes one more row. *)
Lemma remove_rows_extend {A : Type} (x e : Z) (rows : list A) :
  0 <= x -> x + 1 < e ->
  (remove_rows x e rows).2 = (remove_rows x (x + 1) (remove_rows (x + 1) e rows).2).2.
Proof.
  intros Hx He.
  destruct (decide (Z.of_nat (length rows) <= x)) as [Hout|Hin].
  - assert ((remove_rows (x + 1) e rows).2 = rows) as ->.
    { unfold remove_rows, clip_index.
      replace (x + 1 <? 0) with false by (symmetry; apply Z.ltb_ge; lia).
      replace (e <? 0) with false by (symmetry; apply Z.ltb_ge; lia).
      rewrite !Z.min_r by lia. rewrite Z.ltb_irrefl. reflexivity. }
    rewrite remove_rows_out_of_range by exact Hout.
    unfold remove_rows, clip_index.
    replace (x <? 0) with false by (symmetry; apply Z.ltb_ge; lia).
    replace (e <? 0) with false by (symmetry; apply Z.ltb_ge; lia).
    rewrite !Z.min_r by lia. rewrite Z.ltb_irrefl. reflexivity.
  - assert (exists p r q, rows = p ++ r :: q /\ Z.of_nat (length p) = x)
      as (p & r & q & -> & Hp).
    { exists (take (Z.to_nat x) rows).
      destruct (drop (Z.to_nat x) rows) as [|r q] eqn:Hd.
      - apply (f_equal length) in Hd. rewrite length_drop in Hd. simpl in Hd. lia.
      - exists r, q. split.
        + rewrite <- Hd. symmetry. apply take_drop.
        + rewrite length_take. lia. }
    assert ((remove_rows (x + 1) e (p ++ r :: q)).2
            = p ++ r :: drop (Z.to_nat (Z.min e (x + 1 + Z.of_nat (length q)) - (x + 1))) q)
      as ->.
    { unfold remove_rows, clip_index. rewrite length_app. cbn [length].
      replace (x + 1 <? 0) with false by (symmetry; apply Z.ltb_ge; lia).
      replace (e <? 0) with false by (symmetry; apply Z.ltb_ge; lia).
      rewrite (Z.min_l (x + 1)) by lia.
      replace (Z.of_nat (length p + S (length q))) with (x + 1 + Z.of_nat (length q)) by lia.
      destruct (x + 1 <? Z.min e (x + 1 + Z.of_nat (length q))) eqn:Hlt; cbn [snd].
      - replace (Z.to_nat (x + 1)) with (length (p ++ [r])) by (rewrite length_app; simpl; lia).
        replace (p ++ r :: q) with ((p ++ [r]) ++ q) by (rewrite <- app_assoc; reflexivity).
        rewrite take_app_length.
        replace (Z.to_nat (Z.min e (x + 1 + Z.of_nat (length q))))
          with (length (p ++ [r])
                + Z.to_nat (Z.min e (x + 1 + Z.of_nat (length q)) - (x + 1)))%nat
          by (rewrite length_app; simpl; lia).
        rewrite drop_app_add. rewrite <- app_assoc. reflexivity.
      - apply Z.ltb_ge in Hlt.
        replace (Z.to_nat (Z.min e (x + 1 + Z.of_nat (length q)) - (x + 1))) with 0%nat by lia.
        rewrite drop_0. reflexivity. }
    rewrite remove_rows_middle by (symmetry; exact Hp).
    unfold remove_rows, clip_index. rewrite length_app. cbn [length].
    replace (x <? 0) with false by (symmetry; apply Z.ltb_ge; lia).
    replace (e <? 0) with false by (symmetry; apply Z.ltb_ge; lia).
    rewrite (Z.min_l x) by lia.
    replace (Z.of_nat (length p + S (length q))) with (x + 1 + Z.of_nat (length q)) by lia.
    replace (x <? Z.min e (x + 1 + Z.of_nat (length q))) with true
      by (symmetry; apply Z.ltb_lt; lia).
    cbn [snd].
    replace (Z.to_nat x) with (length p) by lia. rewrite take_app_length.
    f_equal.
    replace (Z.to_nat (Z.min e (x + 1 + Z.of_nat (length q))))
      with (length (p ++ [r])
            + Z.to_nat (Z.min e (x + 1 + Z.of_nat (length q)) - (x + 1)))%nat
      by (rewrite length_app; simpl; lia).
    replace (p ++ r :: q) with ((p ++ [r]) ++ q) by (rewrite <- app_assoc; reflexivity).
    rewrite drop_app_add. reflexivity.
Qed.

Lemma runs_nonempty (l : list Z) : Forall (fun r => r <> []) (runs l).
Proof.
  induction l as [|x l IH]; [constructor|].
  cbn [runs]. destruct (runs l) as [|[|y r] rs].
  - repeat constructor. discriminate.
  - repeat constructor. discriminate.
  - apply Forall_cons in IH as [_ IH].
    destruct (1 <? y - x); repeat constructor; try discriminate; exact IH.
Qed.

(** The runs, put end to end, are the coordinates. *)
Lemma concat_runs (l : list Z) : concat (runs l) = l.
Proof.
  induction l as [|x l IH]; [reflexivity|].
  cbn [runs]. pose proof (runs_nonempty l) as Hne.
  destruct (runs l) as [|[|y r] rs].
  - simpl in IH. subst l. reflexivity.
  - apply Forall_cons in Hne as [Hne _]. contradiction.
  - destruct (1 <? y - x); cbn [concat app] in *; rewrite IH; reflexivity.
Qed.

Lemma last_elem_of (l : list Z) (d : Z) : l <> [] -> List.last l d ∈ l.
Proof.
  intros Hl. destruct (@exists_last _ l Hl) as (l0 & z & ->).
  rewrite List.last_last. apply elem_of_app. right. left.
Qed.

Lemma remove_run_rows {A : Type} (r : list Z) (st : tstate A) (rr : list A) :
  t_rows st = Some rr ->
  t_rows (remove_run r st) = Some (remove_rows (hd 0 r) (List.last r 0 + 1) rr).2.
Proof.
  intros Hrr. unfold remove_run, do_remove_rows. rewrite Hrr. reflexivity.
Qed.

(** On strictly ascending coordinates the removals leave exactly the rows
    whose position is not among the coordinates, in their order. *)
Lemma remove_runs_rows {A : Type} (values : list Z) (st : tstate A) (rows : list A) :
  Sorted Z.lt values -> Forall (fun c => 0 <= c) values ->
  t_rows st = Some rows ->
  t_rows (foldr remove_run st (runs values)) = Some (drop_coords 0 values rows).
Proof.
  intros Hs Hnn Hrows. induction values as [|x l IH].
  - simpl. rewrite Hrows. f_equal. symmetry. apply drop_coords_none.
    intros p _ Hp. inversion Hp.
  - apply Sorted_StronglySorted in Hs; [|intros ? ? ?; lia].
    inversion Hs as [|? ? Hs' Hall]; subst.
    apply Forall_cons in Hnn as [Hx Hnn].
    specialize (IH (StronglySorted_Sorted Hs') Hnn).
    pose proof (concat_runs l) as Hcat.
    pose proof (runs_nonempty l) as Hne.
    cbn [runs]. destruct (runs l) as [|[|y r] rs] eqn:Hr.
    + simpl in Hcat. subst l. cbn [foldr].
      rewrite (remove_run_rows _ _ rows Hrows). cbn [hd List.last]. f_equal.
      rewrite <- (drop_coords_remove_one x [] rows Hx) by constructor.
      rewrite (drop_coords_none 0 [] rows); [reflexivity|].
      intros p _ Hp. inversion Hp.
    + apply Forall_cons in Hne as [Hne _]. contradiction.
    + destruct (1 <? y - x) eqn:Hgap.
      * cbn [foldr] in *. rewrite (remove_run_rows _ _ _ IH).
        cbn [hd List.last]. f_equal.
        apply drop_coords_remove_one; assumption.
      * cbn [foldr] in *.
        destruct (proj1 (remove_runs_ops rs st ltac:(rewrite Hrows; eauto))) as [rr Hrr].
        rewrite (remove_run_rows (y :: r) _ rr Hrr) in IH.
        rewrite (remove_run_rows (x :: y :: r) _ rr Hrr). f_equal.
        change (List.last (x :: y :: r) 0) with (List.last (y :: r) 0).
        change (hd 0 (x :: y :: r)) with x. change (hd 0 (y :: r)) with y in IH.
        assert (y ∈ l) as Hy by (rewrite <- Hcat; simpl; left).
        assert (y <= List.last (y :: r) 0) as Hlast.
        { pose proof (last_elem_of (y :: r) 0 ltac:(discriminate)) as Hin.
          assert (List.last (y :: r) 0 ∈ l) as Hin'.
          { rewrite <- Hcat. cbn [concat]. apply elem_of_app. left. exact Hin. }
          destruct l as [|y0 l0]; [inversion Hy|].
          simpl in Hcat. injection Hcat as Hy0 _. subst y0.
          apply elem_of_cons in Hin' as [->|Hin']; [lia|].
          inversion Hs' as [|? ? _ Hall']; subst.
          rewrite Forall_forall in Hall'. specialize (Hall' _ Hin'). lia. }
        set (b := List.last (y :: r) 0) in *.
        injection IH as IH.
        assert (y = x + 1) as Hyx.
        { rewrite Forall_forall in Hall. specialize (Hall y Hy).
          apply Z.ltb_ge in Hgap. lia. }
        rewrite Hyx in IH, Hlast.
        rewrite remove_rows_extend by lia. rewrite IH.
        apply drop_coords_remove_one; assumption.
Qed.

(** X1: [delete] on a predicate whose coordinates come back strictly
    ascending and not negative (a structured condition, a boolean mask, an
    ascending coordinate list).  It returns the number of coordinates,
    issues one [remove_rows] per maximal run of consecutive coordinates,
    the highest run first, then one flush, and leaves exactly the rows
    whose position is not among the coordinates, in their order. *)
Theorem delete_ascending `{C : Collaborators} {A : Type} (rows : list A) (w : where_t E)
  (start stop : option Z) (sel : Selection) :
  is_W_none w || (where_len w =? 0)%nat = false ->
  Selection_init (Z.of_nat (length rows)) w start stop = Ok sel ->
  select_coords sel <> [] ->
  Sorted Z.lt (select_coords sel) ->
  Forall (fun c => 0 <= c) (select_coords sel) ->
  let r := AppendableTable_delete rows w start stop in
  r.1 = Ok (Some (Z.of_nat (length (select_coords sel)))) /\
  t_ops r.2 = map run_op (rev (runs (select_coords sel))) ++ [Op_flush] /\
  t_rows r.2 = Some (drop_coords 0 (select_coords sel) rows).
Proof.
  intros Hw Hinit Hne Hsorted Hnn. unfold AppendableTable_delete.
  rewrite Hw, Hinit.
  rewrite delete_coords_ascending by assumption. cbn [fst snd].
  split; [reflexivity|].
  destruct (remove_runs_ops (runs (select_coords sel))
              {| t_rows := Some rows; t_ops := [] |} ltac:(eauto)) as [_ Hops].
  split.
  - cbn [do_flush t_ops]. rewrite Hops. reflexivity.
  - cbn [do_flush t_rows]. apply remove_runs_rows; [assumption | assumption | reflexivity].
Qed.

(** The theorem at a condition: [index >= 97] on a 100-row table selects
    the single run 97..99. *)
Lemma delete_ascending_condition :
  let r := AppendableTable_delete (C := threshold_collaborators) (seqZ 0 100)
             (W_term 97) None None in
  r.1 = Ok (Some 3) /\
  t_ops r.2 = [Op_remove_rows 97 100; Op_flush] /\
  t_rows r.2 = Some (seqZ 0 97).
Proof.
  assert (exists sel,
            Selection_init (C := threshold_collaborators)
              (Z.of_nat (length (seqZ 0 100))) (W_term 97) None None = Ok sel /\
            select_coords sel = [97; 98; 99]) as (sel & Hinit & Hsel)
    by (eexists; split; reflexivity).
  pose proof (delete_ascending (C := threshold_collaborators) (seqZ 0 100)
                (W_term 97) None None sel eq_refl Hinit) as H.
  rewrite Hsel in H.
  destruct H as (Hcount & Hops & Hrows).
  - discriminate.
  - repeat constructor.
  - repeat constructor; lia.
  - split; [exact Hcount|]. split; [exact Hops|]. rewrite Hrows. reflexivity.
Defined.

(** ** Chunked reads *)

(** With bounds that are not negative, Python's slice is the plain one. *)
Lemma py_slice_slice {X : Type} (l : list X) (a b : Z) :
  0 <= a <= b -> py_slice l a b = slice l a b.
Proof.
  intros Hab. unfold py_slice, slice, clip_index.
  replace (a <? 0) with false by (symmetry; apply Z.ltb_ge; lia).
  replace (b <? 0) with false by (symmetry; apply Z.ltb_ge; lia).
  set (n := Z.of_nat (length l)).
  destruct (decide (n <= a)) as [Hn|Hn].
  - rewrite !drop_ge by lia. rewrite !take_nil. reflexivity.
  - rewrite (Z.min_l a) by lia.
    destruct (decide (b <= n)) as [Hb|Hb].
    + rewrite Z.min_l by lia. reflexivity.
    + rewrite Z.min_r by lia. rewrite !take_ge; [reflexivity | |];
        rewrite length_drop; lia.
Qed.

Lemma length_slice_le {X : Type} (l : list X) (a b : Z) :
  (length (slice l a b) <= Z.to_nat (b - a))%nat.
Proof. unfold slice. rewrite length_take. lia. Qed.

Section TableIteratorFacts.
Context {W Row : Type}.
Variable func : option Z -> option Z -> @func_where W -> res (option (list Row)).

(** The loop visits the chunks in order; [k] turns read a chunk and one
    more turn ends the loop. *)
Lemma iter_loop_chunks (coordinates : list Z) (stop c : Z) (auto_close : bool) :
  0 < c ->
  forall (k : nat) (current : Z) (fuel : nat),
    0 <= current ->
    stop - current <= Z.of_nat k * c ->
    ((0 < k)%nat -> (Z.of_nat k - 1) * c < stop - current) ->
    (k < fuel)%nat ->
    iter_loop func fuel current stop c coordinates auto_close
    = yield_chunks func (map (coordinate_chunk coordinates current stop c) (seq 0 k)) auto_close.
Proof.
  intros Hc k. induction k as [|k IH]; intros current fuel Hcur Hup Hlow Hfuel.
  - destruct fuel as [|fuel]; [lia|]. cbn [iter_loop seq map yield_chunks].
    replace (current <? stop) with false by (symmetry; apply Z.ltb_ge; lia).
    reflexivity.
  - destruct fuel as [|fuel]; [lia|].
    specialize (Hlow ltac:(lia)).
    assert (current < stop) as Hlt by nia.
    cbn [iter_loop]. replace (current <? stop) with true by (symmetry; apply Z.ltb_lt; lia).
    cbn zeta. rewrite py_slice_slice by lia.
    cbn [seq map yield_chunks].
    assert (coordinate_chunk coordinates current stop c 0
            = slice coordinates current (Z.min (current + c) stop)) as ->.
    { unfold coordinate_chunk. f_equal; [lia | f_equal; lia]. }
    rewrite <- seq_shift, map_map.
    assert (map (fun i => coordinate_chunk coordinates current stop c (S i)) (seq 0 k)
            = map (coordinate_chunk coordinates (Z.min (current + c) stop) stop c) (seq 0 k))
      as ->.
    { destruct k as [|k]; [reflexivity|].
      rewrite Z.min_l by nia.
      apply map_ext. intros i. unfold coordinate_chunk. f_equal; [lia | f_equal; lia]. }
    rewrite <- (IH (Z.min (current + c) stop) fuel); [reflexivity | lia | nia | | lia].
    intros Hk. rewrite Z.min_l by nia. nia.
Qed.

(** The chunks put end to end are the coordinates at the positions
    [[current, stop)]. *)
Lemma concat_coordinate_chunks (coordinates : list Z) (stop c : Z) :
  0 < c ->
  forall (k : nat) (current : Z),
    0 <= current ->
    stop - current <= Z.of_nat k * c ->
    concat (map (coordinate_chunk coordinates current stop c) (seq 0 k))
    = slice coordinates current stop.
Proof.
  intros Hc k. induction k as [|k IH]; intros current Hcur Hup.
  - simpl. symmetry. apply slice_nil. lia.
  - cbn [seq map concat]. rewrite <- seq_shift, map_map.
    destruct (decide (current + c <= stop)) as [Hle|Hgt].
    + rewrite (slice_app coordinates current (current + c) stop) by lia.
      f_equal.
      * unfold coordinate_chunk. f_equal; [lia|]. rewrite Z.min_l by lia. lia.
      * rewrite <- (IH (current + c)) by lia. f_equal.
        apply map_ext. intros i. unfold coordinate_chunk. f_equal; [lia | f_equal; lia].
    + assert (coordinate_chunk coordinates current stop c 0 = slice coordinates current stop)
        as ->.
      { unfold coordinate_chunk. f_equal; [lia|]. rewrite Z.min_r by lia. reflexivity. }
      assert (concat (map (fun i => coordinate_chunk coordinates current stop c (S i)) (seq 0 k))
              = []) as ->; [|apply app_nil_r].
      clear IH Hup. generalize 0%nat. induction k as [|k IHk]; intros j; [reflexivity|].
      cbn [seq map concat]. rewrite IHk. rewrite app_nil_r.
      unfold coordinate_chunk. apply slice_nil. nia.
Qed.

(** With a chunk size that is not positive the loop never leaves
    [current < stop]. *)
Lemma iter_loop_never_ends (coordinates : list Z) (stop c : Z) (auto_close : bool) :
  c <= 0 ->
  (forall chunk, exists v, func None None (FW_coords chunk) = Ok v) ->
  forall (fuel : nat) (current : Z),
    current < stop ->
    (iter_loop func fuel current stop c coordinates auto_close).2 = Running.
Proof.
  intros Hc Hfunc fuel. induction fuel as [|fuel IH]; intros current Hlt; [reflexivity|].
  cbn [iter_loop]. replace (current <? stop) with true by (symmetry; apply Z.ltb_lt; lia).
  cbn zeta.
  destruct (Hfunc (py_slice coordinates current (Z.min (current + c) stop))) as [v ->].
  specialize (IH (Z.min (current + c) stop) ltac:(lia)).
  destruct v as [[|r v]|]; cbn [snd]; exact IH.
Qed.

End TableIteratorFacts.

(** X2: a chunked read of a table ([iterator=True] or a [chunksize], the
    chunk size [c] positive, [start] not negative).  [get_result] asks the
    storer for all coordinates matching [where], without [start] and
    [stop], and returns the iterator.  Iterating ends after
    [ceil((last - first) / c)] reads, where [first] is [start] (default 0)
    and [last] is [min(nrows, stop)]: read number [i] gets the matching
    coordinates at the positions [first + i * c] up to
    [min(first + (i + 1) * c, last)] of the coordinate list.  Put end to
    end these chunks are the coordinates at the positions [[first, last)],
    no chunk holds more than [c] coordinates, the non-empty results are
    yielded in order, and the store is closed at the end when [auto_close]
    is set. *)
Theorem iterator_chunks {W Row : Type}
  (func : option Z -> option Z -> @func_where W -> res (option (list Row)))
  (read_coordinates : W -> option Z -> option Z -> res (list Z))
  (w : W) (nrows start stop : option Z) (iterator : bool) (chunksize : option Z)
  (auto_close by_coordinates : bool) (coordinates : list Z) :
  iterator || bool_decide (is_Some chunksize) = true ->
  0 < default 100000 chunksize ->
  0 <= default 0 start ->
  read_coordinates w None None = Ok coordinates ->
  let c := default 100000 chunksize in
  let first := default 0 start in
  let last := Z.min (default 0 nrows) (default (default 0 nrows) stop) in
  let k := Z.to_nat ((last - first + c - 1) / c) in
  let chunks := map (coordinate_chunk coordinates first last c) (seq 0 k) in
  concat chunks = slice coordinates first last /\
  Forall (fun chunk => Z.of_nat (length chunk) <= c) chunks /\
  exists it : TableIterator,
    get_result func read_coordinates
      (TableIterator_init true w nrows start stop iterator chunksize auto_close)
      by_coordinates = Ok (R_iterator it) /\
    forall fuel, (k < fuel)%nat ->
      TableIterator_iter func fuel it = yield_chunks func chunks auto_close.
Proof.
  intros Hchunked Hc Hstart Hread c first last k.
  assert (last - first <= Z.of_nat k * c) as Hup.
  { unfold k. destruct (decide (last - first <= 0)) as [Hle|Hgt].
    - assert (0 <= Z.of_nat (Z.to_nat ((last - first + c - 1) / c)) * c) by nia. lia.
    - rewrite Z2Nat.id by (apply Z.div_pos; lia).
      pose proof (Z.mul_succ_div_gt (last - first + c - 1) c Hc) as H.
      nia. }
  assert ((0 < k)%nat -> (Z.of_nat k - 1) * c < last - first) as Hlow.
  { unfold k. intros Hk.
    assert (0 < (last - first + c - 1) / c) as Hpos by lia.
    rewrite Z2Nat.id by lia.
    pose proof (Z.mul_div_le (last - first + c - 1) c Hc) as H. nia. }
  cbn zeta. split; [|split].
  - apply concat_coordinate_chunks; assumption.
  - apply Forall_forall. intros chunk Hin.
    apply list_elem_of_fmap in Hin as (i & -> & _).
    unfold coordinate_chunk.
    pose proof (length_slice_le coordinates (first + Z.of_nat i * c)
                  (Z.min (first + (Z.of_nat i + 1) * c) last)) as Hlen.
    lia.
  - eexists. split.
    + unfold get_result, TableIterator_init. cbn [ti_chunksize ti_is_table ti_where].
      rewrite Hchunked. cbn [negb]. rewrite Hread. reflexivity.
    + intros fuel Hfuel. unfold TableIterator_iter.
      cbn [ti_start ti_stop ti_chunksize ti_coordinates ti_auto_close fst snd].
      apply iter_loop_chunks; assumption.
Qed.

(** Five matching rows of a ten-row table read in chunks of two: the
    chunks hold two, two and one coordinates, the two chunk positions past
    the matches give nothing, and the store is closed at the end. *)
Lemma iterator_chunks_witness :
  let func := fun (_ _ : option Z) (w : @func_where unit) =>
                match w with FW_coords c => Ok (Some c) | FW_where _ => Ok None end in
  let read_coordinates := fun (_ : unit) (_ _ : option Z) => Ok [0; 2; 4; 6; 8] in
  exists it : TableIterator,
    get_result func read_coordinates
      (TableIterator_init true tt (Some 10) None None false (Some 2) true) false
    = Ok (R_iterator it) /\
    TableIterator_iter func 6 it = ([[0; 2]; [4; 6]; [8]], Exhausted true).
Proof.
  intros func read_coordinates.
  destruct (iterator_chunks func read_coordinates tt (Some 10) None None false (Some 2)
              true false [0; 2; 4; 6; 8] eq_refl eq_refl ltac:(discriminate) eq_refl)
    as (_ & _ & it & Hget & Hiter).
  exists it. split; [exact Hget|].
  rewrite (Hiter 6%nat) by (vm_compute; lia). reflexivity.
Defined.

(** X3: a chunk size that is zero or negative.  When the range to visit
    is not empty ([start < min(nrows, stop)]) and the read function does
    not raise, iterating over the result of [get_result] never finishes:
    however many turns of the loop are allowed, the generator is still
    running, and the store is never closed. *)
Theorem iterator_chunksize_not_positive {W Row : Type}
  (func : option Z -> option Z -> @func_where W -> res (option (list Row)))
  (read_coordinates : W -> option Z -> option Z -> res (list Z))
  (w : W) (nrows start stop : option Z) (iterator : bool) (chunksize : Z)
  (auto_close by_coordinates : bool) (coordinates : list Z) :
  chunksize <= 0 ->
  default 0 start < Z.min (default 0 nrows) (default (default 0 nrows) stop) ->
  (forall chunk, exists v, func None None (FW_coords chunk) = Ok v) ->
  read_coordinates w None None = Ok coordinates ->
  exists it : TableIterator,
    get_result func read_coordinates
      (TableIterator_init true w nrows start stop iterator (Some chunksize) auto_close)
      by_coordinates = Ok (R_iterator it) /\
    forall fuel, (TableIterator_iter func fuel it).2 = Running.
Proof.
  intros Hc Hlt Hfunc Hread. eexists. split.
  - unfold get_result, TableIterator_init. cbn [ti_chunksize ti_is_table ti_where].
    rewrite orb_true_r. cbn [negb]. rewrite Hread. reflexivity.
  - intros fuel. unfold TableIterator_iter.
    cbn [ti_start ti_stop ti_chunksize ti_coordinates ti_auto_close fst snd default].
    apply iter_loop_never_ends; assumption.
Qed.

(** A chunk size of zero on a table with one row. *)
Lemma iterator_chunksize_not_positive_witness :
  let func := fun (_ _ : option Z) (_ : @func_where unit) => Ok (@None (list Z)) in
  let read_coordinates := fun (_ : unit) (_ _ : option Z) => Ok [0] in
  exists it : TableIterator,
    get_result func read_coordinates
      (TableIterator_init true tt (Some 1) None None false (Some 0) false) false
    = Ok (R_iterator it) /\
    forall fuel, (TableIterator_iter func fuel it).2 = Running.
Proof.
  intros func read_coordinates.
  apply (iterator_chunksize_not_positive func read_coordinates tt (Some 1) None None false 0
           false false [0]).
  - lia.
  - reflexivity.
  - intros chunk. eexists. reflexivity.
  - reflexivity.
Defined.

(** ** Metadata groups and the key of [read_hdf] *)

Lemma length_path_names (g : group) : Z.of_nat (length (path_names g)) = _v_depth g.
Proof.
  induction g as [|parent IH name]; [reflexivity|].
  cbn [path_names _v_depth]. rewrite length_app. simpl. lia.
Qed.

Lemma path_names_inj (g h : group) : path_names g = path_names h -> g = h.
Proof.
  revert h. induction g as [|parent IH name]; intros [|parent' name'] Heq.
  - reflexivity.
  - apply (f_equal length) in Heq. cbn [path_names] in Heq. rewrite length_app in Heq.
    simpl in Heq. lia.
  - apply (f_equal length) in Heq. cbn [path_names] in Heq. rewrite length_app in Heq.
    simpl in Heq. lia.
  - cbn [path_names] in Heq. apply app_inj_tail in Heq as [Hp ->].
    f_equal. apply IH, Hp.
Qed.

Lemma prefix_snoc {X : Type} (l k : list X) (x : X) :
  l `prefix_of` k ++ [x] <-> l `prefix_of` k \/ l = k ++ [x].
Proof.
  split.
  - intros [t Ht]. destruct t as [|y t _] using rev_ind.
    + right. rewrite app_nil_r in Ht. congruence.
    + left. rewrite app_assoc in Ht. apply app_inj_tail in Ht as [-> _].
      apply prefix_app_r. reflexivity.
  - intros [Hp| ->]; [|reflexivity]. apply prefix_app_r. exact Hp.
Qed.

Lemma metadata_walk_prefix (g parent_group : group) :
  metadata_walk g parent_group = true <->
  parent_group <> Root /\ (path_names parent_group ++ ["meta"]) `prefix_of` path_names g.
Proof.
  induction g as [|parent IH name].
  - simpl. split; [discriminate|]. intros [_ Hp].
    apply prefix_length in Hp. rewrite length_app in Hp. simpl in Hp. lia.
  - cbn [metadata_walk _v_depth path_names]. rewrite prefix_snoc.
    pose proof (length_path_names parent) as Hlen.
    destruct (1 <? _v_depth parent + 1) eqn:Hdepth.
    + apply Z.ltb_lt in Hdepth.
      destruct (bool_decide (parent = parent_group) && bool_decide (name = "meta")) eqn:Hhit.
      * apply andb_true_iff in Hhit as [Hp Hn].
        apply bool_decide_eq_true in Hp, Hn. subst. split; [|reflexivity].
        intros _. split; [|right; reflexivity].
        intros ->. simpl in Hdepth. lia.
      * rewrite IH. split; [intros [Hr Hp]; auto|].
        intros [Hr [Hp|Heq]]; [auto|].
        apply app_inj_tail in Heq as [Hnames Hname].
        apply path_names_inj in Hnames. subst.
        rewrite !bool_decide_eq_true_2 in Hhit by reflexivity. discriminate.
    + apply Z.ltb_ge in Hdepth. split; [discriminate|].
      assert (path_names parent = []) as Hnil by (apply length_zero_iff_nil; lia).
      intros [Hr [Hp|Heq]].
      * apply prefix_length in Hp. rewrite length_app in Hp. simpl in Hp. lia.
      * apply (f_equal length) in Heq. rewrite !length_app, Hnil in Heq. simpl in Heq.
        destruct parent_group; [contradiction|].
        cbn [path_names] in Heq. rewrite length_app in Heq. simpl in Heq. lia.
Qed.

Lemma _is_metadata_of_prefix (g parent_group : group) :
  _is_metadata_of g parent_group = true <->
  parent_group <> Root /\ (path_names parent_group ++ ["meta"]) `prefix_of` path_names g.
Proof.
  unfold _is_metadata_of.
  destruct (_v_depth g <=? _v_depth parent_group) eqn:Hd; [|apply metadata_walk_prefix].
  apply Z.leb_le in Hd. split; [discriminate|]. intros [_ Hp].
  apply prefix_length in Hp. rewrite length_app in Hp. simpl in Hp.
  pose proof (length_path_names g). pose proof (length_path_names parent_group). lia.
Qed.

(** X4: [_is_metadata_of(group, parent_group)] holds exactly when
    [parent_group] is not the root and [group] is the child [meta] of
    [parent_group] or lies below that child.  In particular nothing is a
    metadata group of the root, not even [/meta]. *)
Theorem is_metadata_of_iff_under_meta (g parent_group : group) :
  _is_metadata_of g parent_group = true <->
  parent_group <> Root /\ (path_names parent_group ++ ["meta"]) `prefix_of` path_names g.
Proof.
  unfold _is_metadata_of.
  destruct (_v_depth g <=? _v_depth parent_group) eqn:Hd.
  - apply Z.leb_le in Hd. split; [discriminate|]. intros [_ Hp].
    apply prefix_length in Hp. rewrite length_app in Hp. simpl in Hp.
    pose proof (length_path_names g) as Hg.
    pose proof (length_path_names parent_group) as Hparent. lia.
  - apply metadata_walk_prefix.
Qed.

(** X5: [read_hdf] on an open store without a key, in one of the modes
    [r], [r+], [a].  With no group in the file it raises [ValueError]; with
    groups it reads the first one listed when every other group is that
    group's child [meta] or lies below it, and raises [ValueError] (a key
    must be provided) otherwise.  The store, which the caller opened, is
    not closed. *)
Theorem read_hdf_infers_single_key `{C : Collaborators} {Obj : Type}
  (open_store : string -> res unit)
  (select : string -> bool -> option (where_t E) -> res Obj)
  (groups : list group) (mode : string) (w : option (where_t E)) :
  mode ∈ ["r"; "r+"; "a"] ->
  let under_meta_of (candidate g : group) :=
    candidate <> Root /\ (path_names candidate ++ ["meta"]) `prefix_of` path_names g in
  let r := read_hdf open_store select (From_store true groups) None mode w in
  match groups with
  | [] => r = (Raise (ValueError "No dataset in HDF5 file."), false)
  | candidate :: rest =>
      (Forall (under_meta_of candidate) rest ->
       r = (select (_v_pathname candidate) false (_ensure_term <$> w), false)) /\
      (~ Forall (under_meta_of candidate) rest ->
       r = (Raise (ValueError
              "key must be provided when HDF5 file contains multiple datasets."), false))
  end.
Proof.
  intros Hmode under_meta_of r. subst r. unfold read_hdf.
  rewrite bool_decide_eq_true_2 by exact Hmode. cbn [negb].
  destruct groups as [|candidate rest]; [reflexivity|].
  unfold read_hdf_select.
  destruct (forallb (fun g => _is_metadata_of g candidate) rest) eqn:Hall.
  - split; [reflexivity|]. intros Hnot. exfalso. apply Hnot.
    apply Forall_forall. intros g Hin. apply _is_metadata_of_prefix.
    rewrite forallb_forall in Hall. apply Hall. apply list_elem_of_In. exact Hin.
  - split; [|reflexivity]. intros Hf. exfalso.
    assert (forallb (fun g => _is_metadata_of g candidate) rest = true) as Hyes; [|congruence].
    apply forallb_forall. intros g Hin. apply _is_metadata_of_prefix.
    rewrite Forall_forall in Hf. apply Hf. apply list_elem_of_In. exact Hin.
Qed.

(** A file holding the table [/df] and the categories of its column [c]
    under [/df/meta/c/meta]: [read_hdf] without a key reads [/df]. *)
Lemma read_hdf_infers_single_key_witness :
  let select := fun (key : string) (_ : bool) (_ : option (where_t Z)) => Ok key in
  read_hdf (C := threshold_collaborators) (fun _ => Ok tt) select
    (From_store true [Child Root "df";
                      Child (Child (Child (Child Root "df") "meta") "c") "meta"])
    None "r" None
  = (Ok "/df", false).
Proof.
  intros select.
  refine (proj1 (read_hdf_infers_single_key (C := threshold_collaborators)
                   (fun _ => Ok tt) select
                   [Child Root "df"; Child (Child (Child (Child Root "df") "meta") "c") "meta"]
                   "r" None _) _).
  - constructor.
  - repeat constructor; [discriminate|]. exists ["c"; "meta"]. reflexivity.
Defined.

(** ** Validation against the existing table *)

Lemma py_list_eq_Forall2 {X : Type} (eqb : X -> X -> bool) (sv ov : list X) :
  py_list_eq eqb sv ov = true <-> Forall2 (fun s o => eqb s o = true) sv ov.
Proof.
  revert ov. induction sv as [|s sv IH]; intros [|o ov]; simpl.
  - split; [constructor | reflexivity].
  - split; [discriminate | inversion 1].
  - split; [discriminate | inversion 1].
  - rewrite andb_true_iff, IH. split.
    + intros [? ?]. constructor; assumption.
    + inversion 1; subst. split; assumption.
Qed.

Lemma validate_axes_ok {X : Type} (eqb : X -> X -> bool) (c : string) (sv ov : list X) :
  validate_axes eqb c sv ov = Ok tt <-> Forall2 (fun s o => eqb s o = true) sv ov.
Proof.
  unfold validate_axes. rewrite <- py_list_eq_Forall2.
  destruct (py_list_eq eqb sv ov); split; (reflexivity || discriminate).
Qed.

(** X6: [Table.validate] against an existing table passes exactly when
    the two tables have the same [table_type], as many index axes,
    non-index axes and value axes each, the index axes agree pairwise in
    name, cname, axis and pos ([IndexCol.__eq__]), the non-index axes are
    the same pairwise, and the value axes agree pairwise in name, cname,
    dtype and pos ([DataCol.__eq__]).  Kind, item size and the block items
    play no role. *)
Theorem Table_validate_ok_iff {V : Type} (self_type other_type : string)
  (self other : schema (V := V)) :
  Table_validate self_type other_type self (Some other) = Ok tt <->
  other_type = self_type /\
  Forall2 (fun a b => IndexCol_eq a b = true) (s_index_axes self) (s_index_axes other) /\
  Forall2 (fun a b => a = b) (s_non_index_axes self) (s_non_index_axes other) /\
  Forall2 (fun a b => DataCol_eq a b = true) (s_values_axes self) (s_values_axes other).
Proof.
  unfold Table_validate.
  destruct (bool_decide (other_type = self_type)) eqn:Htype; cbn [negb].
  - apply bool_decide_eq_true in Htype.
    assert (Forall2 (fun a b => a = b) (s_non_index_axes self) (s_non_index_axes other)
            <-> Forall2 (fun a b => axis_eq a b = true)
                  (s_non_index_axes self) (s_non_index_axes other)) as ->.
    { split; intros H; eapply Forall2_impl; try exact H; intros a b; unfold axis_eq;
        [apply bool_decide_eq_true_2 | apply bool_decide_eq_true_1]. }
    rewrite <- (validate_axes_ok IndexCol_eq "index_axes").
    rewrite <- (validate_axes_ok axis_eq "non_index_axes").
    rewrite <- (validate_axes_ok DataCol_eq "values_axes").
    destruct (validate_axes IndexCol_eq "index_axes" _ _) as [[]|e1]; cbn.
    + destruct (validate_axes axis_eq "non_index_axes" _ _) as [[]|e2]; cbn.
      * tauto.
      * split; [discriminate|]. intros (_ & _ & H & _). discriminate.
    + split; [discriminate|]. intros (_ & H & _). discriminate.
  - apply bool_decide_eq_false in Htype. split; [discriminate|]. tauto.
Qed.

(** ** Data columns *)

Lemma filter_all {X : Type} (f : X -> bool) (l : list X) :
  Forall (fun x => f x = true) l -> List.filter f l = l.
Proof.
  induction 1 as [|x l Hx _ IH]; [reflexivity|]. simpl. rewrite Hx, IH. reflexivity.
Qed.

Lemma filter_none {X : Type} (f : X -> bool) (l : list X) :
  Forall (fun x => f x = false) l -> List.filter f l = [].
Proof.
  induction 1 as [|x l Hx _ IH]; [reflexivity|]. simpl. rewrite Hx, IH. reflexivity.
Qed.

Lemma elem_of_filter_bool {X : Type} (f : X -> bool) (l : list X) (x : X) :
  x ∈ List.filter f l <-> x ∈ l /\ f x = true.
Proof. rewrite !list_elem_of_In. apply filter_In. Qed.

(** X8: [validate_data_columns] with [data_columns=True] returns exactly
    the labels of the first non-index axis, in their order, whatever
    [min_itemsize] holds (its keys are either labels already, or not
    labels and dropped).  The axis must not be a [MultiIndex], for which
    the call raises. *)
Theorem validate_data_columns_all (str_axis : Z -> string)
  (str_data_columns : data_columns_t -> string) (axis : Z) (axis_labels : list string)
  (others : list (Z * list string)) (info_type : Z -> option string)
  (min_itemsize : min_itemsize_items) :
  info_type axis <> Some "MultiIndex" ->
  validate_data_columns str_axis str_data_columns ((axis, axis_labels) :: others) info_type
    DC_true min_itemsize
  = Ok axis_labels.
Proof.
  intros Hinfo. unfold validate_data_columns.
  rewrite bool_decide_eq_false_2 by exact Hinfo. cbn [andb].
  f_equal. destruct min_itemsize as [| |items].
  - apply filter_all, Forall_forall. intros c Hc. apply bool_decide_eq_true_2, Hc.
  - apply filter_all, Forall_forall. intros c Hc. apply bool_decide_eq_true_2, Hc.
  - rewrite List.filter_app. rewrite filter_all, filter_none; [apply app_nil_r | |].
    + apply Forall_forall. intros c Hc. apply elem_of_filter_bool in Hc as [_ Hc].
      apply andb_true_iff in Hc as [_ Hc]. apply negb_true_iff in Hc.
      exact Hc.
    + apply Forall_forall. intros c Hc. apply bool_decide_eq_true_2, Hc.
Qed.

Lemma validate_data_columns_all_witness :
  validate_data_columns (fun _ => "1") (fun _ => "True") [(1, ["A"; "B"; "C"])]
    (fun _ => Some "Index") DC_true (MII_dict [("B", 10); ("values", 5); ("Z", 3)])
  = Ok ["A"; "B"; "C"].
Proof.
  apply (validate_data_columns_all (fun _ => "1") (fun _ => "True") 1 ["A"; "B"; "C"] []
           (fun _ => Some "Index")).
  discriminate.
Defined.

(** X9: when [validate_data_columns] returns for a list of data columns
    (or none), a label is among the returned data columns exactly when it
    is a label of the first non-index axis and either was listed or is a
    key of the [min_itemsize] dictionary other than ["values"]: naming a
    column in [min_itemsize] makes it a data column. *)
Theorem validate_data_columns_membership (str_axis : Z -> string)
  (str_data_columns : data_columns_t -> string) (axis : Z) (axis_labels : list string)
  (others : list (Z * list string)) (info_type : Z -> option string)
  (listed : list string) (min_itemsize : min_itemsize_items) (result : list string)
  (c : string) :
  validate_data_columns str_axis str_data_columns ((axis, axis_labels) :: others) info_type
    (DC_list listed) min_itemsize = Ok result ->
  c ∈ result <->
  c ∈ axis_labels /\ (c ∈ listed \/ (c ∈ min_itemsize_keys min_itemsize /\ c <> "values")).
Proof.
  unfold validate_data_columns.
  destruct (bool_decide (info_type axis = Some "MultiIndex")
            && data_columns_truthy (DC_list listed)); [discriminate|].
  intros [= <-]. rewrite elem_of_filter_bool, bool_decide_eq_true.
  destruct min_itemsize as [| |items]; cbn [min_itemsize_keys].
  - split; [intros [? ?]; auto|]. intros [Hin [Hl|[Hk _]]]; [auto | inversion Hk].
  - split; [intros [? ?]; auto|]. intros [Hin [Hl|[Hk _]]]; [auto | inversion Hk].
  - rewrite elem_of_app, elem_of_filter_bool.
    rewrite andb_true_iff, !negb_true_iff, !bool_decide_eq_false.
    split.
    + intros [[Hl|(Hk & Hv & _)] Hin]; auto.
    + intros [Hin [Hl|[Hk Hv]]]; [auto|].
      split; [|exact Hin]. destruct (decide (c ∈ listed)); auto.
Qed.

Lemma validate_data_columns_membership_witness :
  "B" ∈ ["A"; "B"] <->
  "B" ∈ ["A"; "B"; "C"] /\
  ("B" ∈ ["A"] \/ ("B" ∈ ["B"; "values"; "Z"] /\ "B" <> "values")).
Proof.
  apply (validate_data_columns_membership (fun _ => "1") (fun _ => "['A']") 1
           ["A"; "B"; "C"] [] (fun _ => None) ["A"]
           (MII_dict [("B", 10); ("values", 5); ("Z", 3)]) ["A"; "B"] "B").
  reflexivity.
Defined.

(** ** Annotations written and read back *)

Lemma set_info_fresh (info : info_t) (name key : string) :
  ci_attrs (set_info info {| ci_name := name; ci_attrs := ∅ |}) !! key
  = recorded info name key.
Proof.
  unfold set_info, recorded. cbn [ci_name].
  destruct (info !! name) as [idx|]; simpl.
  - rewrite lookup_merge. rewrite lookup_empty.
    destruct (idx !! key) as [v|]; reflexivity.
  - rewrite !lookup_empty. reflexivity.
Qed.

Lemma recorded_set_idx (info : info_t) (name key k : string) (v : option string) :
  recorded (set_idx info name key v) name k
  = if bool_decide (k = key) then v else recorded info name k.
Proof.
  unfold recorded, set_idx. rewrite lookup_insert_eq. simpl.
  destruct (bool_decide (k = key)) eqn:Hk.
  - apply bool_decide_eq_true in Hk. subst. rewrite lookup_insert_eq. reflexivity.
  - apply bool_decide_eq_false in Hk. rewrite lookup_insert_ne by congruence. reflexivity.
Qed.

Lemma recorded_get_info (info : info_t) (name k : string) :
  recorded (_get_info info name).1 name k = recorded info name k /\
  (_get_info info name).2 = default ∅ (info !! name).
Proof.
  unfold _get_info, recorded. destruct (info !! name) as [idx|] eqn:Hi; simpl.
  - rewrite Hi. split; reflexivity.
  - rewrite lookup_insert_eq. split; reflexivity.
Qed.

(** One turn of the loop of [update_info]: the name is kept, the other
    keys are not touched, and afterwards the annotation recorded for
    [key] is the column's attribute. *)
Lemma update_info_key_recorded (key : string) (st st' : info_state) :
  update_info_key key st = Ok st' ->
  ci_name (is_col st') = ci_name (is_col st) /\
  (forall k, k <> key ->
     ci_attrs (is_col st') !! k = ci_attrs (is_col st) !! k /\
     recorded (is_info st') (ci_name (is_col st)) k
     = recorded (is_info st) (ci_name (is_col st)) k) /\
  recorded (is_info st') (ci_name (is_col st)) key = ci_attrs (is_col st') !! key.
Proof.
  unfold update_info_key.
  set (name := ci_name (is_col st)).
  pose proof (fun k => proj1 (recorded_get_info (is_info st) name k)) as Hrec.
  pose proof (proj2 (recorded_get_info (is_info st) name (key))) as Hidx.
  destruct (_get_info (is_info st) name) as [info idx] eqn:Hget. cbn [fst snd] in Hrec, Hidx.
  destruct (is_conflict idx key (ci_attrs (is_col st) !! key)) eqn:Hc.
  - destruct (bool_decide (key ∈ ["freq"; "index_name"])); [|discriminate].
    intros [= <-]. cbn [is_col is_info ci_name ci_attrs].
    split; [reflexivity|]. split.
    + intros k Hk. rewrite lookup_delete_ne by congruence.
      rewrite recorded_set_idx, bool_decide_eq_false_2 by exact Hk. auto.
    + rewrite recorded_set_idx, bool_decide_eq_true_2 by reflexivity.
      rewrite lookup_delete_eq. reflexivity.
  - destruct (bool_decide (is_Some (ci_attrs (is_col st) !! key))
              || bool_decide (is_Some (mjoin (idx !! key)))) eqn:Hset.
    + intros [= <-]. cbn [is_col is_info].
      split; [reflexivity|]. split.
      * intros k Hk. rewrite recorded_set_idx, bool_decide_eq_false_2 by exact Hk. auto.
      * rewrite recorded_set_idx, bool_decide_eq_true_2 by reflexivity. reflexivity.
    + intros [= <-]. cbn [is_col is_info].
      split; [reflexivity|]. split; [auto|].
      apply orb_false_iff in Hset as [Hv He].
      apply bool_decide_eq_false in Hv, He.
      rewrite Hrec. unfold recorded. rewrite <- Hidx.
      destruct (ci_attrs (is_col st) !! key); [exfalso; apply Hv; eauto|].
      destruct (mjoin (idx !! key)); [exfalso; apply He; eauto|]. reflexivity.
Qed.

Lemma update_info_recorded (fields : list string) :
  NoDup fields ->
  forall st st' : info_state,
    update_info fields st = Ok st' ->
    ci_name (is_col st') = ci_name (is_col st) /\
    (forall k, k ∉ fields ->
       ci_attrs (is_col st') !! k = ci_attrs (is_col st) !! k /\
       recorded (is_info st') (ci_name (is_col st)) k
       = recorded (is_info st) (ci_name (is_col st)) k) /\
    (forall k, k ∈ fields ->
       recorded (is_info st') (ci_name (is_col st)) k = ci_attrs (is_col st') !! k).
Proof.
  induction 1 as [|key fields Hnotin Hnd IH]; intros st st' Hup.
  - injection Hup as <-. split; [reflexivity|]. split; [auto|]. intros k Hk. inversion Hk.
  - cbn [update_info] in Hup.
    destruct (update_info_key key st) as [st1|e] eqn:H1; [|discriminate].
    change (update_info fields st1 = Ok st') in Hup.
    apply update_info_key_recorded in H1 as (Hn1 & Hother1 & Hkey1).
    apply IH in Hup as (Hn & Hother & Hin). rewrite Hn1 in Hn, Hother, Hin.
    split; [congruence|]. split.
    + intros k Hk. rewrite not_elem_of_cons in Hk. destruct Hk as [Hne Hk].
      destruct (Hother k Hk) as [Ha Hr]. destruct (Hother1 k Hne) as [Ha1 Hr1].
      split; congruence.
    + intros k Hk. apply elem_of_cons in Hk as [->|Hk]; [|auto].
      destruct (Hother key Hnotin) as [Ha Hr]. congruence.
Qed.

(** X7: what [update_info] records can be read back.  When [update_info]
    returns, a column of the same name that has none of the annotations
    yet and takes them from the updated [info] with [set_info] ends up,
    for every informational field, with the value the written column has
    after the update: the new value where there was no conflict, and
    [None] where a conflicting [freq] or [index_name] was reset. *)
Theorem update_info_round_trip (fields : list string) (st st' : info_state) (key : string) :
  NoDup fields ->
  update_info fields st = Ok st' ->
  key ∈ fields ->
  ci_attrs (set_info (is_info st') {| ci_name := ci_name (is_col st); ci_attrs := ∅ |}) !! key
  = ci_attrs (is_col st') !! key.
Proof.
  intros Hnd Hup Hin. rewrite set_info_fresh.
  apply (update_info_recorded fields Hnd st st' Hup). exact Hin.
Qed.

(** An index column with a new frequency and a time zone, appended to a
    table that recorded another frequency: the frequency is reset, and a
    reader gets [None] for it and the time zone as written. *)
Lemma update_info_round_trip_witness :
  let st := {| is_info := {["index" := {["freq" := Some "D"]}]};
               is_col := {| ci_name := "index";
                            ci_attrs := {["freq" := "H"; "tz" := "UTC"]} |};
               is_warnings := [] |} in
  exists st',
    update_info IndexCol_info_fields st = Ok st' /\
    ci_attrs (set_info (is_info st') {| ci_name := "index"; ci_attrs := ∅ |}) !! "tz"
    = ci_attrs (is_col st') !! "tz".
Proof.
  intros st.
  eassert (update_info IndexCol_info_fields st = Ok _) as Hup by (vm_compute; reflexivity).
  eexists. split; [exact Hup|].
  apply (update_info_round_trip IndexCol_info_fields st _ "tz"); [|exact Hup|].
  - refine (bool_decide_unpack _ _). vm_compute. exact I.
  - refine (bool_decide_unpack _ _). vm_compute. exact I.
Defined.

(** ** Appending keeps the rows already stored *)

Section AppendKeepsRows.
Context {V : Type}.

Lemma write_data_chunk_extends (indexes : list (list (option V))) (mask : option (list bool))
  (values : list (list (list (option V)))) (st : tstate record) (rows : list record) :
  t_rows st = Some rows ->
  exists added, t_rows (write_data_chunk indexes mask values st).2 = Some (rows ++ added).
Proof.
  intros Hrows. unfold write_data_chunk.
  destruct (existsb _ values); [exists []; rewrite app_nil_r; exact Hrows|].
  destruct indexes as [|idx0 indexes]; [exists []; rewrite app_nil_r; exact Hrows|].
  match goal with |- context [(0 <? length ?r)%nat] => set (new := r) end.
  destruct (0 <? length new)%nat.
  - exists new. cbn [snd do_flush do_append t_rows]. rewrite Hrows. reflexivity.
  - exists []. rewrite app_nil_r. exact Hrows.
Qed.

Lemma write_chunks_extends (fuel : nat) :
  forall (i chunksize nrows : Z) (bindexes : list (list (option V)))
    (mask : option (list bool)) (bvalues : list (list (list (option V))))
    (st : tstate record) (rows : list record),
    t_rows st = Some rows ->
    exists added,
      t_rows (write_chunks fuel i chunksize nrows bindexes mask bvalues st).2
      = Some (rows ++ added).
Proof.
  induction fuel as [|fuel IH]; intros i chunksize nrows bindexes mask bvalues st rows Hrows.
  - exists []. rewrite app_nil_r. exact Hrows.
  - cbn [write_chunks]. cbn zeta.
    destruct (Z.min ((i + 1) * chunksize) nrows <=? i * chunksize);
      [exists []; rewrite app_nil_r; exact Hrows|].
    match goal with |- context [write_data_chunk ?a ?b ?c st] =>
      destruct (write_data_chunk_extends a b c st rows Hrows) as [added1 H1];
      destruct (write_data_chunk a b c st) as [[[]|e] st1]
    end; cbn [snd] in *.
    + destruct (IH (i + 1) chunksize nrows bindexes mask bvalues st1 _ H1) as [added2 H2].
      exists (added1 ++ added2). rewrite app_assoc. exact H2.
    + exists added1. exact H1.
Qed.

Lemma write_data_extends (chunksize : option Z) (dropna : bool)
  (indexes : list (list (option V))) (values : list (list (list (option V))))
  (st : tstate record) (rows : list record) :
  t_rows st = Some rows ->
  exists added, t_rows (write_data chunksize dropna indexes values st).2 = Some (rows ++ added).
Proof.
  intros Hrows. unfold write_data. cbn zeta.
  destruct (bool_decide (default 100000 chunksize = 0));
    [exists []; rewrite app_nil_r; exact Hrows|].
  destruct (Z.min (default 100000 chunksize) _ <? 0);
    [exists []; rewrite app_nil_r; exact Hrows|].
  apply write_chunks_extends, Hrows.
Qed.

Lemma validate_and_set_all_node (append : bool) (l : list axis_col) :
  forall d : disk (V := V), d_node (validate_and_set_all append l d).2 = d_node d.
Proof.
  induction l as [|a l IH]; intros d; [reflexivity|].
  cbn [validate_and_set_all].
  assert (d_node (match a with
                  | AIndex c => IndexCol_validate_and_set append c d
                  | AData c => DataCol_validate_and_set append c d
                  end).2 = d_node d) as Hstep.
  { destruct a as [c|c].
    - unfold IndexCol_validate_and_set.
      destruct (validate_col _ None); [|reflexivity].
      destruct (IndexCol_validate_attr append c d); reflexivity.
    - unfold DataCol_validate_and_set.
      destruct (validate_col _ None); [|reflexivity].
      destruct (DataCol_validate_attr append c d); [|reflexivity].
      destruct (DataCol_validate_metadata c d); [|reflexivity].
      cbn [snd]. unfold DataCol_set.
      destruct (dc_metadata c), (dc_dtype c); reflexivity. }
  destruct (match a with
            | AIndex c => IndexCol_validate_and_set append c d
            | AData c => DataCol_validate_and_set append c d
            end) as [[[]|e] d']; cbn [snd] in *.
  - rewrite IH. exact Hstep.
  - exact Hstep.
Qed.

End AppendKeepsRows.

(** X10: an append to an existing table only adds rows at the end.
    Whatever the incoming object, the chunk size and [dropna], and
    whether the write returns or raises on the way, the rows stored before
    are still there afterwards, unchanged and in their order, followed by
    the rows the write added. *)
Theorem append_keeps_existing_rows {V : Type} (table_type : string)
  (derive : option (schema (V := V)) -> res schema) (chunksize : option Z) (dropna : bool)
  (d : disk) (rows : list record) :
  t_rows (d_node d) = Some rows ->
  exists added,
    t_rows (d_node (AppendableTable_write table_type derive true chunksize dropna d).2)
    = Some (rows ++ added).
Proof.
  intros Hrows. unfold AppendableTable_write. cbn [negb andb].
  destruct (create_axes table_type derive true d) as [s|e];
    [|exists []; rewrite app_nil_r; exact Hrows].
  assert (is_exists d = true) as ->.
  { unfold is_exists. rewrite Hrows. apply bool_decide_eq_true_2. eauto. }
  pose proof (validate_and_set_all_node true (axes s)
                (set_group_attr "info" (AV_info (s_info s)) d)) as Hnode.
  destruct (validate_and_set_all true (axes s) _) as [[[]|e] d4]; cbn [snd] in *.
  - cbn [set_node d_node].
    apply write_data_extends. rewrite Hnode. exact Hrows.
  - exists []. rewrite app_nil_r, Hnode. exact Hrows.
Qed.

Lemma append_keeps_existing_rows_witness :
  exists added,
    t_rows (d_node (AppendableTable_write "appendable_frame"
                      (fun _ => Ok (sample_batch "float64")) true None false sample_disk).2)
    = Some ([([Some 0], [[Some 15]])] ++ added).
Proof.
  exact (append_keeps_existing_rows "appendable_frame"
           (fun _ => Ok (sample_batch "float64")) None false sample_disk
           [([Some 0], [[Some 15]])] eq_refl).
Defined.

(** ** A boolean mask as [where] *)

Lemma bool_index_seqZ (k : Z) (m : list bool) :
  map fst (List.filter snd (zip (seqZ k (Z.of_nat (length m))) m)) = mask_positions k m.
Proof.
  revert k. induction m as [|b m IH]; intros k; [reflexivity|].
  cbn [length]. rewrite Nat2Z.inj_succ, seqZ_cons by lia.
  replace (Z.pred (Z.succ (Z.of_nat (length m)))) with (Z.of_nat (length m)) by lia.
  cbn [zip zip_with List.filter snd]. destruct b; cbn [map fst mask_positions app].
  - f_equal. apply IH.
  - apply IH.
Qed.

(** X11: a selection whose [where] is a boolean mask.  With [first] the
    start (0 when not given) and [last] the stop (the row count when not
    given), a mask of as many entries as there are rows in
    [[first, last)] gives the coordinates [first + i] of the entries [i]
    that are [True], ascending; a mask of any other length makes the
    construction of the selection raise [IndexError]. *)
Theorem mask_selection `{C : Collaborators} (nrows : Z) (w : where_t E) (m : list bool)
  (start stop : option Z) :
  coordinate_array w = Some (A_bool m) ->
  let first := default 0 start in
  let last := default nrows stop in
  if bool_decide (length m = Z.to_nat (last - first))
  then exists sel,
      Selection_init nrows w start stop = Ok sel /\
      select_coords sel = mask_positions first m
  else exists msg, Selection_init nrows w start stop = Raise (IndexError msg).
Proof.
  intros Harr first last. unfold Selection_init. rewrite Harr. cbn.
  unfold bool_index, arange. rewrite length_seqZ. fold first last.
  destruct (bool_decide (length m = Z.to_nat (last - first))) eqn:Hlen.
  - apply bool_decide_eq_true in Hlen.
    rewrite (proj2 (Nat.eqb_eq _ _) Hlen). cbn.
    eexists. split; [reflexivity|]. unfold select_coords. cbn.
    destruct (decide (0 <= last - first)) as [Hpos|Hneg].
    + replace (last - first) with (Z.of_nat (length m)) by lia. apply bool_index_seqZ.
    + assert (length m = 0%nat) as Hnil by lia.
      apply length_zero_iff_nil in Hnil. subst m.
      destruct (seqZ first (last - first)); reflexivity.
  - apply bool_decide_eq_false in Hlen.
    rewrite (proj2 (Nat.eqb_neq _ _) Hlen). eexists. reflexivity.
Qed.

Lemma mask_selection_witness :
  exists sel,
    Selection_init (C := threshold_collaborators) 10
      (W_list [I_bool true; I_bool false; I_bool true]) (Some 2) (Some 5) = Ok sel /\
    select_coords sel = [2; 4].
Proof.
  exact (mask_selection (C := threshold_collaborators) 10
           (W_list [I_bool true; I_bool false; I_bool true]) [true; false; true]
           (Some 2) (Some 5) eq_refl).
Defined.

(** ** String blocks: the column that cannot be serialized *)

Lemma infer_string_false_mjoin (block : list (list scell)) (n i : nat) (col : list scell) :
  Forall (fun c => length c = n) block ->
  block !! i = Some col ->
  infer_string col = false ->
  infer_string (mjoin block) = false.
Proof.
  intros Hrect Hcol Hbad.
  assert (forallb is_S_str (mjoin block) = true -> forallb is_S_str col = true) as Hall.
  { rewrite !forallb_forall. intros H c Hc. apply H.
    apply list_elem_of_In. apply list_elem_of_In in Hc.
    apply list_elem_of_join. exists col. split; [exact Hc|].
    eapply list_elem_of_lookup_2, Hcol. }
  destruct col as [|c col].
  - assert (n = 0%nat) as ->.
    { rewrite Forall_forall in Hrect. symmetry. apply (Hrect []).
      eapply list_elem_of_lookup_2, Hcol. }
    assert (mjoin block = []) as ->; [|reflexivity].
    clear Hcol Hall. induction Hrect as [|c block Hc _ IH]; [reflexivity|].
    cbn. apply length_zero_iff_nil in Hc. subst c. exact IH.
  - unfold infer_string in *.
    destruct (mjoin block); [reflexivity|].
    destruct (forallb is_S_str (s :: l)); [|reflexivity].
    rewrite Hall in Hbad by reflexivity. discriminate.
Qed.

Lemma check_columns_first_bad (i : nat) :
  forall (block_items : list string) (block : list (list scell)) (item : string)
    (col : list scell),
    block_items !! i = Some item ->
    block !! i = Some col ->
    infer_string col = false ->
    Forall (fun c => infer_string c = true) (take i block) ->
    check_columns block_items block
    = Raise (TypeError ("Cannot serialize the column [" ++ item ++ "]")).
Proof.
  induction i as [|i IH]; intros [|it items] [|c block] item col Hitem Hcol Hbad Hgood;
    try discriminate.
  - injection Hitem as ->. injection Hcol as ->. cbn [check_columns]. rewrite Hbad.
    reflexivity.
  - cbn [take] in Hgood. apply Forall_cons in Hgood as [Hc Hgood].
    cbn [check_columns]. rewrite Hc. eapply IH; eassumption.
Qed.

(** X12: [set_atom_string] on a block of object dtype in which some
    column holds, once its missing values are filled with [nan_rep], a
    value that is not a string.  It raises [TypeError] naming the first
    such column of the block, whatever the existing column and
    [min_itemsize] are. *)
Theorem set_atom_string_first_bad_column (encode : string -> string) (name : string)
  (block : list (list scell)) (block_items : list string) (existing_col : option col_view)
  (min_itemsize : min_itemsize_t) (nan_rep : string) (n i : nat) (item : string)
  (col : list scell) :
  Forall (fun c => length c = n) block ->
  block_items !! i = Some item ->
  block !! i = Some col ->
  infer_string (map (fillna nan_rep) col) = false ->
  Forall (fun c => infer_string (map (fillna nan_rep) c) = true) (take i block) ->
  set_atom_string encode name block block_items existing_col min_itemsize nan_rep
  = Raise (TypeError ("Cannot serialize the column [" ++ item ++ "]")).
Proof.
  intros Hrect Hitem Hcol Hbad Hgood. unfold set_atom_string.
  assert (map (map (fillna nan_rep)) block !! i = Some (map (fillna nan_rep) col)) as Hcol'.
  { change (map (map (fillna nan_rep)) block) with (map (fillna nan_rep) <$> block).
    rewrite list_lookup_fmap, Hcol. reflexivity. }
  assert (Forall (fun c => length c = n) (map (map (fillna nan_rep)) block)) as Hrect'.
  { apply Forall_forall. intros c Hc.
    apply list_elem_of_In, in_map_iff in Hc as (c0 & <- & Hc0).
    rewrite length_map. rewrite Forall_forall in Hrect. apply Hrect.
    apply list_elem_of_In. exact Hc0. }
  rewrite (infer_string_false_mjoin _ n i _ Hrect' Hcol' Hbad).
  rewrite (check_columns_first_bad i block_items _ item _ Hitem Hcol' Hbad);
    [reflexivity|].
  change (map (map (fillna nan_rep)) block) with (map (fillna nan_rep) <$> block).
  rewrite <- fmap_take. apply Forall_fmap. exact Hgood.
Qed.

Lemma set_atom_string_first_bad_column_witness :
  set_atom_string id "values_block_0"
    [[S_str "a"; S_nan]; [S_str "b"; S_other]; [S_other; S_other]] ["A"; "B"; "C"]
    None MI_none "nan"
  = Raise (TypeError "Cannot serialize the column [B]").
Proof.
  apply (set_atom_string_first_bad_column id "values_block_0"
           [[S_str "a"; S_nan]; [S_str "b"; S_other]; [S_other; S_other]] ["A"; "B"; "C"]
           None MI_none "nan" 2 1 "B" [S_str "b"; S_other]).
  - repeat constructor.
  - reflexivity.
  - reflexivity.
  - reflexivity.
  - repeat constructor.
Defined.

(** ** Reordering the blocks of an append *)

Section ReorderBlocksFacts.
Context {B : Type}.

Lemma by_items_lookup (blocks : list (list string * B)) (items : list string) (b : B) :
  by_items blocks !! items = Some b -> (items, b) ∈ blocks.
Proof.
  unfold by_items.
  assert (forall m : gmap (list string) B,
            foldl (fun m b => <[b.1 := b.2]> m) m blocks !! items = Some b ->
            (items, b) ∈ blocks \/ m !! items = Some b) as H.
  { induction blocks as [|[k v] blocks IH]; intros m Hl; [right; exact Hl|].
    cbn [foldl] in Hl. apply IH in Hl as [Hin|Hl].
    - left. right. exact Hin.
    - cbn [fst snd] in Hl. destruct (decide (k = items)) as [->|Hne].
      + rewrite lookup_insert_eq in Hl. injection Hl as ->. left. left.
      + rewrite lookup_insert_ne in Hl by exact Hne. right. exact Hl. }
  intros Hl. apply H in Hl as [Hin|Hl]; [exact Hin|].
  rewrite lookup_empty in Hl. discriminate.
Qed.

Lemma by_items_dom (blocks : list (list string * B)) (items : list string) :
  is_Some (by_items blocks !! items) <-> items ∈ map fst blocks.
Proof.
  unfold by_items.
  assert (forall m : gmap (list string) B,
            is_Some (foldl (fun m b => <[b.1 := b.2]> m) m blocks !! items)
            <-> items ∈ map fst blocks \/ is_Some (m !! items)) as H.
  { induction blocks as [|[k v] blocks IH]; intros m.
    - cbn. split; [auto|]. intros [Hin|Hm]; [inversion Hin | exact Hm].
    - cbn [foldl map fst snd]. rewrite IH, elem_of_cons.
      destruct (decide (k = items)) as [->|Hne].
      + rewrite lookup_insert_eq. split; [auto|]. intros _. right. eauto.
      + rewrite lookup_insert_ne by exact Hne. split.
        * intros [Hin|Hm]; auto.
        * intros [[Heq|Hin]|Hm]; auto. congruence. }
  rewrite H, lookup_empty. split; [intros [Hin|[? Hm]]; [exact Hin | discriminate]|auto].
Qed.

Lemma pop_blocks_spec (existing : list (list string)) :
  forall m : gmap (list string) B,
    (forall new_blocks,
       pop_blocks m existing = Ok new_blocks ->
       map fst new_blocks = existing /\
       Forall (fun b => m !! b.1 = Some b.2) new_blocks) /\
    ((exists new_blocks, pop_blocks m existing = Ok new_blocks) <->
     NoDup existing /\ Forall (fun items => is_Some (m !! items)) existing).
Proof.
  induction existing as [|items rest IH]; intros m.
  - split.
    + intros new [= <-]. split; [reflexivity | constructor].
    + split; [intros _; split; constructor | intros _; eexists; reflexivity].
  - cbn [pop_blocks]. destruct (m !! items) as [b|] eqn:Hm.
    + destruct (IH (delete items m)) as [IH1 IH2]. split.
      * intros new Hpop.
        destruct (pop_blocks (delete items m) rest) as [tl|e] eqn:Htl; [|discriminate].
        injection Hpop as <-. destruct (IH1 tl eq_refl) as [Hfst Hall].
        split; [cbn; f_equal; exact Hfst|].
        constructor; [exact Hm|].
        eapply Forall_impl; [exact Hall|]. intros [k v] Hk. cbn [fst snd] in *.
        apply lookup_delete_Some in Hk as [_ Hk]. exact Hk.
      * rewrite NoDup_cons, Forall_cons. split.
        -- intros [new Hpop].
           destruct (pop_blocks (delete items m) rest) as [tl|e] eqn:Htl; [|discriminate].
           destruct (proj1 IH2 (ex_intro _ tl eq_refl)) as [Hnd Hdom].
           split; [split; [|exact Hnd] | split; [eauto|]].
           ++ intros Hin. rewrite Forall_forall in Hdom. specialize (Hdom _ Hin).
              rewrite lookup_delete_eq in Hdom. destruct Hdom; discriminate.
           ++ eapply Forall_impl; [exact Hdom|]. intros k [v Hk].
              apply lookup_delete_Some in Hk as [_ Hk]. eauto.
        -- intros [[Hnotin Hnd] [_ Hdom]].
           destruct (proj2 IH2) as [tl Htl].
           { split; [exact Hnd|]. apply Forall_forall. intros k Hk.
             rewrite Forall_forall in Hdom. destruct (Hdom k Hk) as [v Hv].
             exists v. apply lookup_delete_Some. split; [|exact Hv].
             intros ->. contradiction. }
           rewrite Htl. eexists. reflexivity.
    + split; [discriminate|]. split.
      * intros [new Hpop]. discriminate.
      * intros [_ Hdom]. apply Forall_cons in Hdom as [[v Hv] _]. congruence.
Qed.

End ReorderBlocksFacts.

(** X13: on an append [create_axes] reorders the blocks after the value
    axes of the existing table.  The step succeeds exactly when the item
    lists of the existing value axes are pairwise different and each of
    them is the item list of some block; otherwise it raises.  When it
    succeeds the new blocks carry the existing item lists, in the order of
    the existing table, and each of them is one of the blocks given. *)
Theorem reorder_blocks_follows_existing {B : Type} (blocks : list (list string * B))
  (existing : list (list string)) :
  ((exists new_blocks, reorder_blocks blocks (Some existing) = Ok new_blocks) <->
   NoDup existing /\ Forall (fun items => items ∈ map fst blocks) existing) /\
  (forall new_blocks,
     reorder_blocks blocks (Some existing) = Ok new_blocks ->
     map fst new_blocks = existing /\ Forall (fun b => b ∈ blocks) new_blocks).
Proof.
  unfold reorder_blocks.
  destruct (pop_blocks_spec existing (by_items blocks)) as [Hok Hiff]. split.
  - rewrite Hiff. split; intros [Hnd Hdom]; (split; [exact Hnd|]);
      (eapply Forall_impl; [exact Hdom|]); intros items; apply by_items_dom.
  - intros new Hpop. destruct (Hok new Hpop) as [Hfst Hall]. split; [exact Hfst|].
    eapply Forall_impl; [exact Hall|]. intros [k v] Hk. apply by_items_lookup, Hk.
Qed.

(** ** Reading several tables together *)

Section SelectAsMultipleFacts.
Context `{C : Collaborators}.

Lemma mapM_res_length {X Y : Type} (f : X -> res Y) (l : list X) (k : list Y) :
  mapM f l = Ok k -> length k = length l.
Proof.
  revert k. induction l as [|x l IH]; intros k Hm.
  - injection Hm as <-. reflexivity.
  - cbn in Hm. destruct (f x) as [y|e]; [|discriminate]. cbn in Hm.
    destruct (mapM f l) as [k'|e]; [|discriminate]. cbn in Hm.
    injection Hm as <-. cbn. f_equal. apply IH. reflexivity.
Qed.

Lemma validate_rows_same (n : Z) (tbls : list storer_view) :
  forall keys : list string,
    length tbls = length keys ->
    Forall (fun t => sv_is_table t = true) tbls ->
    (Forall (fun t => sv_nrows t = Some n) tbls ->
     validate_rows (zip tbls keys) (Some n) = Ok (Some n)) /\
    (~ Forall (fun t => sv_nrows t = Some n) tbls ->
     validate_rows (zip tbls keys) (Some n)
     = Raise (ValueError "all tables must have exactly the same nrows!")).
Proof.
  induction tbls as [|t tbls IH]; intros [|k keys] Hlen Htab; try discriminate.
  - split; [reflexivity|]. intros Hnot. exfalso. apply Hnot. constructor.
  - apply Forall_cons in Htab as [Ht Htab]. injection Hlen as Hlen.
    destruct (IH keys Hlen Htab) as [IHok IHbad].
    cbn [zip zip_with validate_rows]. rewrite Ht. cbn [negb].
    destruct (bool_decide (sv_nrows t = Some n)) eqn:Hn.
    + apply bool_decide_eq_true in Hn. split.
      * intros Hall. apply Forall_cons in Hall as [_ Hall]. apply IHok, Hall.
      * intros Hnot. apply IHbad. intros Hall. apply Hnot. constructor; assumption.
    + apply bool_decide_eq_false in Hn. split; [|reflexivity].
      intros Hall. apply Forall_cons in Hall as [Hn' _]. contradiction.
Qed.

End SelectAsMultipleFacts.

(** X14: [select_as_multiple] on two keys or more that all resolve to
    tables, the selector (the first key when none is given) having [n]
    rows.  When every table has [n] rows, the call without iterator and
    chunk size reads the coordinates of [where] on the selector, within
    [[start or 0, min(n, stop))], reads every key at these coordinates,
    in the order of [keys], and concatenates the results.  When some table
    has another row count it raises [ValueError], iterator or not. *)
Theorem select_as_multiple_same_rows `{C : Collaborators} {Row : Type}
  (get_storer : string -> res storer_view)
  (select : string -> where_t E -> option Z -> option Z -> bool -> option Z
            -> res (@iterator_result (where_t E) Row))
  (read : string -> option Z -> option Z -> @func_where (where_t E)
          -> res (option (list Row)))
  (read_coordinates : string -> where_t E -> option Z -> option Z -> res (list Z))
  (concat_objs : list (option (list Row)) -> Z -> res (option (list Row)))
  (first_of_set : list Z -> Z)
  (k0 k1 : string) (more : list string) (w : where_t E) (selector : option string)
  (start stop : option Z) (auto_close : bool)
  (tbls : list storer_view) (s : storer_view) (n : Z) (axes : list Z) :
  let keys := k0 :: k1 :: more in
  let sel := default k0 selector in
  mapM get_storer keys = Ok tbls ->
  get_storer sel = Ok s ->
  Forall (fun t => sv_is_table t = true) (s :: tbls) ->
  sv_nrows s = Some n ->
  mapM (fun t => match sv_axis t with
                 | Some a => Ok a
                 | None => Raise (IndexError "list index out of range")
                 end) tbls = Ok axes ->
  let first := Some (default 0 start) in
  let last := Some (Z.min n (default n stop)) in
  (Forall (fun t => sv_nrows t = Some n) tbls ->
   select_as_multiple get_storer select read read_coordinates concat_objs first_of_set
     (K_list keys) w selector start stop false None auto_close
   = (coords ← read_coordinates sel (_ensure_term w) first last;
      v ← read_all read concat_objs keys (first_of_set axes) first last (FW_coords coords);
      Ok (R_value v auto_close))) /\
  (~ Forall (fun t => sv_nrows t = Some n) tbls ->
   forall (iterator : bool) (chunksize : option Z),
     select_as_multiple get_storer select read read_coordinates concat_objs first_of_set
       (K_list keys) w selector start stop iterator chunksize auto_close
     = Raise (ValueError "all tables must have exactly the same nrows!")).
Proof.
  intros keys sel Htbls Hs Htab Hn Haxes first last.
  apply Forall_cons in Htab as [Hst Htab].
  pose proof (mapM_res_length _ _ _ Htbls) as Hlen.
  destruct (validate_rows_same n tbls keys Hlen Htab) as [Hok Hbad].
  split.
  - intros Hall. unfold select_as_multiple. subst keys. cbv beta iota zeta. fold sel.
    rewrite Htbls. cbn [mbind res_bind bind]. rewrite Hs. cbn [mbind res_bind bind].
    cbn [validate_rows]. rewrite Hst. cbn [negb]. rewrite Hn, (Hok Hall).
    cbn [mbind res_bind bind]. rewrite Haxes. cbn [mbind res_bind bind].
    unfold get_result, TableIterator_init.
    change (default 0 (Some n)) with n.
    cbn [ti_chunksize ti_is_table ti_where ti_start ti_stop ti_auto_close fst snd orb].
    rewrite bool_decide_eq_false_2 by (apply is_Some_None). cbn [negb].
    fold first last.
    destruct (read_coordinates sel (_ensure_term w) first last) as [coords|e]; reflexivity.
  - intros Hnot iterator chunksize. unfold select_as_multiple. subst keys.
    cbv beta iota zeta. fold sel.
    rewrite Htbls. cbn [mbind res_bind bind]. rewrite Hs. cbn [mbind res_bind bind].
    cbn [validate_rows]. rewrite Hst. cbn [negb]. rewrite Hn, (Hbad Hnot). reflexivity.
Qed.

Lemma select_as_multiple_same_rows_witness :
  let get_storer := fun k : string =>
    if bool_decide (k ∈ ["a"; "b"])
    then Ok {| sv_pathname := "/t"; sv_is_table := true; sv_nrows := Some 3; sv_axis := Some 1 |}
    else Raise (KeyError "No object named key in the file") in
  let select := fun (_ : string) (_ : where_t Z) (_ _ : option Z) (_ : bool) (_ : option Z) =>
    Ok (@R_value (where_t Z) (string * Z) None false) in
  let read := fun (k : string) (_ _ : option Z) (w : @func_where (where_t Z)) =>
    match w with
    | FW_coords c => Ok (Some (map (fun i => (k, i)) c))
    | FW_where _ => Ok None
    end in
  let concat_objs := fun (objs : list (option (list (string * Z)))) (_ : Z) =>
    Ok (Some (mjoin (omap id objs))) in
  select_as_multiple (C := threshold_collaborators) get_storer select read
    (fun _ _ _ _ => Ok [0; 2]) concat_objs (hd 0) (K_list ["a"; "b"]) W_none None
    None None false None false
  = Ok (R_value (Some [("a", 0); ("a", 2); ("b", 0); ("b", 2)]) false).
Proof.
  intros get_storer select read concat_objs.
  refine (proj1 (select_as_multiple_same_rows (C := threshold_collaborators)
                   get_storer select read (fun _ _ _ _ => Ok [0; 2]) concat_objs (hd 0)
                   "a" "b" [] W_none None None None false
                   [{| sv_pathname := "/t"; sv_is_table := true; sv_nrows := Some 3; sv_axis := Some 1 |};
                    {| sv_pathname := "/t"; sv_is_table := true; sv_nrows := Some 3; sv_axis := Some 1 |}]
                   {| sv_pathname := "/t"; sv_is_table := true; sv_nrows := Some 3; sv_axis := Some 1 |}
                   3 [1; 1] _ _ _ _ _) _).
  - reflexivity.
  - reflexivity.
  - repeat constructor.
  - reflexivity.
  - reflexivity.
  - repeat constructor.
Defined.

(** ** Writing to the store *)

Section StorePathFacts.

Lemma append_cons (x : Ascii.ascii) (a b : string) : String x a +:+ b = String x (a +:+ b).
Proof. reflexivity. Qed.

Lemma append_nil_l (b : string) : "" +:+ b = b.
Proof. reflexivity. Qed.

Lemma append_assoc (a b c : string) : (a +:+ b) +:+ c = a +:+ (b +:+ c).
Proof.
  induction a as [|x a IH]; [reflexivity|]. rewrite !append_cons, IH. reflexivity.
Qed.

Lemma append_nil_r (a : string) : a +:+ "" = a.
Proof.
  induction a as [|x a IH]; [reflexivity|]. rewrite append_cons, IH. reflexivity.
Qed.

Lemma length_append (a b : string) :
  String.length (a +:+ b) = (String.length a + String.length b)%nat.
Proof.
  induction a as [|x a IH]; [reflexivity|].
  rewrite append_cons. cbn [String.length]. rewrite IH. reflexivity.
Qed.

Lemma string_prefix_length (a b : string) :
  String.prefix a b = true -> (String.length a <= String.length b)%nat.
Proof.
  revert a. induction b as [|y b IH]; intros [|x a]; simpl; try lia; try discriminate.
  destruct (Ascii.ascii_dec x y); [|discriminate].
  intros H. apply IH in H. lia.
Qed.

Lemma split_on_cons (s : string) : exists w ws, split_on slash s = w :: ws.
Proof.
  induction s as [|a s (w & ws & IH)]; simpl; [eauto|].
  destruct (Ascii.eqb a slash); [eauto|]. rewrite IH. eauto.
Qed.

Lemma split_on_no_slash (n s : string) :
  no_slash n = true ->
  split_on slash (n +:+ s)
  = (n +:+ hd "" (split_on slash s)) :: tl (split_on slash s).
Proof.
  induction n as [|a n IH]; intros Hn.
  - rewrite append_nil_l. destruct (split_on_cons s) as (w & ws & ->). reflexivity.
  - cbn [no_slash] in Hn. apply andb_true_iff in Hn as [Ha Hn].
    apply negb_true_iff in Ha. rewrite append_cons. cbn [split_on]. rewrite Ha, (IH Hn).
    reflexivity.
Qed.

Lemma split_on_pathname (names : list string) :
  Forall valid_name names -> split_on slash (pathname names) = "" :: names.
Proof.
  induction 1 as [|n rest [_ Hn] _ IH]; [reflexivity|].
  change (pathname (n :: rest)) with (String slash (n +:+ pathname rest)).
  cbn [split_on]. rewrite Ascii.eqb_refl, (split_on_no_slash _ _ Hn), IH.
  cbn [hd tl]. rewrite append_nil_r. reflexivity.
Qed.

(** A key in normal form splits into its names, after an empty string
    when it starts with a slash. *)
Lemma split_on_key (key : string) (names : list string) :
  Forall valid_name names ->
  absolute key = pathname names ->
  split_on slash key = names \/ split_on slash key = "" :: names.
Proof.
  intros Hvalid Habs. unfold absolute in Habs.
  destruct (String.prefix "/" key).
  - right. rewrite Habs. apply split_on_pathname, Hvalid.
  - left. destruct Hvalid as [|n rest [_ Hn] Hrest]; [discriminate|].
    change (pathname (n :: rest)) with ("/" +:+ (n +:+ pathname rest)) in Habs.
    apply String.app_inj in Habs. subst key.
    rewrite (split_on_no_slash _ _ Hn), (split_on_pathname _ Hrest).
    cbn [hd tl]. rewrite append_nil_r. reflexivity.
Qed.

Lemma pathname_app (l r : list string) : pathname (l ++ r) = pathname l +:+ pathname r.
Proof.
  induction l as [|n l IH]; [reflexivity|].
  cbn [app pathname]. rewrite IH, !append_assoc. reflexivity.
Qed.

Lemma length_pathname_pos (names : list string) :
  names <> [] -> (0 < String.length (pathname names))%nat.
Proof. destruct names; [congruence|]. intros _. simpl. lia. Qed.

Lemma endswith_char_app (c : Ascii.ascii) (a b : string) :
  b <> "" -> endswith_char c (a +:+ b) = endswith_char c b.
Proof.
  intros Hb. induction a as [|x a IH]; [reflexivity|].
  rewrite append_cons. cbn [endswith_char]. rewrite IH.
  destruct (a +:+ b) eqn:Hab; [|reflexivity].
  destruct a; [contradiction | discriminate].
Qed.

Lemma endswith_no_slash (n : string) : no_slash n = true -> endswith_char slash n = false.
Proof.
  induction n as [|a n IH]; [reflexivity|].
  cbn [no_slash endswith_char]. intros H. apply andb_true_iff in H as [Ha Hn].
  apply negb_true_iff in Ha. destruct n; [exact Ha | apply IH, Hn].
Qed.

Lemma endswith_pathname (names : list string) :
  Forall valid_name names -> names <> [] -> endswith_char slash (pathname names) = false.
Proof.
  induction 1 as [|n rest [Hne Hn] Hrest IH]; [congruence|]. intros _.
  cbn [pathname]. destruct rest as [|m rest].
  - cbn [pathname]. rewrite append_nil_r, endswith_char_app by exact Hne.
    apply endswith_no_slash, Hn.
  - rewrite <- append_assoc, endswith_char_app; [apply IH; discriminate|].
    discriminate.
Qed.

Lemma next_path (pre : list string) (c : string) :
  Forall valid_name pre ->
  (if endswith_char slash (reached pre) then reached pre else reached pre +:+ "/") +:+ c
  = pathname (pre ++ [c]).
Proof.
  intros Hpre. destruct pre as [|n pre].
  - cbn. rewrite append_nil_r. reflexivity.
  - unfold reached. rewrite endswith_pathname by (exact Hpre || discriminate).
    rewrite pathname_app. cbn [pathname]. rewrite append_nil_r, append_assoc.
    reflexivity.
Qed.

Lemma reached_snoc (pre : list string) (c : string) :
  reached (pre ++ [c]) = pathname (pre ++ [c]).
Proof. unfold reached. destruct (pre ++ [c]) eqn:H; [|reflexivity]. destruct pre; discriminate. Qed.

Lemma create_groups_spec (names : list string) :
  forall (pre : list string) (group : option (string * gnode)) (nodes : gmap string gnode),
    Forall valid_name pre -> Forall valid_name names -> names <> [] ->
    let r := create_groups names (reached pre) group nodes in
    let key := pathname (pre ++ names) in
    exists g,
      r.1 = Some (key, g) /\
      r.2 !! key = Some g /\
      (nodes !! key = None -> g = new_group) /\
      (forall p x, nodes !! p = Some x -> r.2 !! p = Some x) /\
      (forall p, (String.length key < String.length p)%nat -> r.2 !! p = nodes !! p).
Proof.
  induction names as [|c rest IH]; intros pre group nodes Hpre Hnames Hne; [congruence|].
  apply Forall_cons in Hnames as [[Hc Hslash] Hrest].
  cbn [create_groups]. rewrite bool_decide_eq_false_2 by exact Hc.
  cbv zeta.
  change (?a ++ c)%string with (a +:+ c).
  change (reached pre ++ "/")%string with (reached pre +:+ "/").
  rewrite (next_path pre c Hpre), <- reached_snoc.
  assert (Forall valid_name (pre ++ [c])) as Hpre'.
  { apply Forall_app. split; [exact Hpre|]. repeat constructor; assumption. }
  replace (pre ++ c :: rest) with ((pre ++ [c]) ++ rest) by (rewrite <- app_assoc; reflexivity).
  destruct rest as [|c' rest'].
  - rewrite app_nil_r, reached_snoc. cbn [create_groups].
    destruct (nodes !! pathname (pre ++ [c])) as [g|] eqn:Hlook.
    + exists g. cbn [fst snd]. split; [reflexivity|]. split; [exact Hlook|].
      split; [congruence|]. split; auto.
    + exists new_group. cbn [fst snd]. split; [reflexivity|]. split; [|split; [reflexivity|split]].
      * apply lookup_insert_eq.
      * intros p x Hp. rewrite lookup_insert_ne; [exact Hp|]. congruence.
      * intros p Hlen. rewrite lookup_insert_ne; [reflexivity|].
        intros <-. lia.
  - assert (String.length (pathname (pre ++ [c]))
            < String.length (pathname ((pre ++ [c]) ++ c' :: rest')))%nat as Hshort.
    { rewrite (pathname_app (pre ++ [c])), length_append.
      assert (0 < String.length (pathname (c' :: rest')))%nat
        by (apply length_pathname_pos; discriminate).
      lia. }
    destruct (nodes !! reached (pre ++ [c])) as [g|] eqn:Hlook.
    + apply (IH (pre ++ [c])); [exact Hpre' | exact Hrest | discriminate].
    + destruct (IH (pre ++ [c]) (Some (reached (pre ++ [c]), new_group))
                  (<[reached (pre ++ [c]) := new_group]> nodes) Hpre' Hrest)
        as (g & H1 & H2 & H3 & H4 & H5); [discriminate|].
      rewrite reached_snoc in *.
      exists g. split; [exact H1|]. split; [exact H2|]. split; [|split].
      * intros Hnone. apply H3. rewrite lookup_insert_ne; [exact Hnone|].
        intros Heq. rewrite Heq in Hshort. lia.
      * intros p x Hp. apply H4. rewrite lookup_insert_ne; [exact Hp|]. congruence.
      * intros p Hlen. rewrite (H5 p Hlen). apply lookup_insert_ne.
        intros <-. lia.
Qed.

(** On a key in normal form the loop creates the groups named by the
    key, whether the key starts with a slash or not. *)
Lemma create_groups_key (key : string) (names : list string) (nodes : gmap string gnode) :
  Forall valid_name names ->
  absolute key = pathname names ->
  create_groups (split_on slash key) "/" None nodes = create_groups names "/" None nodes.
Proof.
  intros Hvalid Habs. destruct (split_on_key key names Hvalid Habs) as [-> | ->];
    reflexivity.
Qed.

Lemma absolute_nonempty (key : string) (names : list string) :
  absolute key = pathname names -> names <> [].
Proof.
  intros Habs ->. unfold absolute in Habs. cbn [pathname] in Habs.
  destruct (String.prefix "/" key) eqn:Hp.
  - subst key. vm_compute in Hp. discriminate.
  - rewrite append_cons in Habs. discriminate.
Qed.

Lemma under_self (path : string) : under path path = true.
Proof. unfold under. rewrite bool_decide_eq_true_2 by reflexivity. reflexivity. Qed.

Lemma under_length (path p : string) :
  under path p = true -> p = path \/ (String.length path < String.length p)%nat.
Proof.
  unfold under. intros H. apply orb_true_iff in H as [H|H].
  - left. apply bool_decide_eq_true in H. exact H.
  - right. apply string_prefix_length in H. rewrite length_append in H. simpl in H. lia.
Qed.

Lemma lookup_remove_node (path p : string) (store : hdfstore) :
  h_nodes (remove_node path store) !! p
  = if under path p then None else h_nodes store !! p.
Proof.
  unfold remove_node, set_nodes. cbn [h_nodes].
  destruct (under path p) eqn:Hu.
  - apply map_lookup_filter_None. right. intros x _. cbn [fst]. congruence.
  - destruct (h_nodes store !! p) as [x|] eqn:Hp.
    + apply map_lookup_filter_Some. split; [exact Hp | exact Hu].
    + apply map_lookup_filter_None. left. exact Hp.
Qed.

End StorePathFacts.

(** X15: [put] of an empty object in table format stores nothing.  On an
    open store and a key in normal form the call returns without an
    error and without calling the storer; with [append] the file is left
    as it was, and without it the node under the key is removed with
    everything below it, so that the key is absent afterwards, while the
    nodes elsewhere stay as they were. *)
Theorem put_empty_table_stores_nothing
  (error_context : gnode -> option value_view -> option string -> string)
  (storer_write :
     storer_class -> string -> value_view -> bool -> bool -> hdfstore -> res unit * hdfstore)
  (create_index : storer_class -> string -> hdfstore -> res unit * hdfstore)
  (default_format : option string)
  (store : hdfstore) (key : string) (names : list string) (value : value_view)
  (format : string) (append index complib dropna : bool) :
  h_is_open store = true ->
  Forall valid_name names ->
  absolute key = pathname names ->
  v_empty value = true ->
  _validate_format format = Ok "table" ->
  exists store',
    HDFStore_put error_context storer_write create_index default_format store key value
      (Some format) append index complib dropna = (Ok tt, store') /\
    if append then store' = store
    else get_node store' key = Ok None /\
         forall p, under (absolute key) p = false ->
                   h_nodes store' !! p = h_nodes store !! p.
Proof.
  intros Hopen _ _ Hempty Hformat. unfold HDFStore_put. rewrite Hformat.
  unfold _write_to_group, get_node. rewrite Hopen. cbn [negb]. cbv zeta.
  rewrite Hempty, bool_decide_eq_true_2 by reflexivity. cbn [andb orb].
  destruct (h_nodes store !! absolute key) as [old|] eqn:Hold; cbn [fmap option_fmap option_map].
  - destruct append; cbn [negb].
    + exists store. split; reflexivity.
    + exists (remove_node (absolute key) store). split; [reflexivity|]. split.
      * unfold get_node. cbn [remove_node set_nodes h_is_open]. rewrite Hopen. cbn [negb].
        cbv zeta. rewrite lookup_remove_node, under_self. reflexivity.
      * intros p Hp. rewrite lookup_remove_node, Hp. reflexivity.
  - exists store. split; [reflexivity|]. destruct append; [reflexivity|]. split.
    + unfold get_node. rewrite Hopen. cbn [negb]. cbv zeta. rewrite Hold. reflexivity.
    + reflexivity.
Qed.

Lemma put_empty_table_stores_nothing_witness :
  let store := {| h_path := "store.h5"; h_is_open := true;
                  h_nodes := {["/df" := with_object_info (Fixed_storer FrameFixed) new_group;
                               "/df/axis0" := new_group;
                               "/s" := new_group]} |} in
  let value := {| v_class := Is_DataFrame; v_empty := true; v_nlevels := Some 1 |} in
  exists store',
    HDFStore_put (fun _ _ _ => "") (fun _ _ _ _ _ st => (Ok tt, st)) (fun _ _ st => (Ok tt, st))
      None store "df" value (Some "t") false true false false = (Ok tt, store') /\
    get_node store' "df" = Ok None /\
    forall p, under (absolute "df") p = false -> h_nodes store' !! p = h_nodes store !! p.
Proof.
  intros store value.
  apply (put_empty_table_stores_nothing (fun _ _ _ => "") (fun _ _ _ _ _ st => (Ok tt, st))
           (fun _ _ st => (Ok tt, st)) None store "df" ["df"] value "t" false true false false).
  - reflexivity.
  - repeat constructor. discriminate.
  - reflexivity.
  - reflexivity.
  - reflexivity.
Defined.

(** X16: [put] in fixed format with a compression library on a key, in
    normal form, that holds a node.  The call raises [ValueError] (compression is not
    supported on fixed format stores) without calling the storer, but
    only after the node was removed and a new group created: afterwards
    the key names an empty group that carries the type of the new object
    and the version, everything that was below the key is gone, and the
    nodes elsewhere are kept. *)
Theorem put_fixed_with_complib_replaces_node
  (error_context : gnode -> option value_view -> option string -> string)
  (storer_write :
     storer_class -> string -> value_view -> bool -> bool -> hdfstore -> res unit * hdfstore)
  (create_index : storer_class -> string -> hdfstore -> res unit * hdfstore)
  (default_format : option string)
  (store : hdfstore) (key : string) (names : list string) (old : gnode) (value : value_view)
  (format : string) (index dropna : bool) :
  h_is_open store = true ->
  Forall valid_name names ->
  absolute key = pathname names ->
  h_nodes store !! absolute key = Some old ->
  v_class value <> Is_other ->
  _validate_format format = Ok "fixed" ->
  let s := Fixed_storer match v_class value with
                        | Is_Series => SeriesFixed
                        | _ => FrameFixed
                        end in
  exists store',
    HDFStore_put error_context storer_write create_index default_format store key value
      (Some format) false index true dropna
    = (Raise (ValueError "Compression not supported on Fixed format stores"), store') /\
    get_node store' key = Ok (Some (absolute key, with_object_info s new_group)) /\
    (forall p, p <> absolute key -> under (absolute key) p = true ->
               h_nodes store' !! p = None) /\
    (forall p x, under (absolute key) p = false -> h_nodes store !! p = Some x ->
                 h_nodes store' !! p = Some x).
Proof.
  intros Hopen Hvalid Habs Hold Hclass Hformat s. unfold HDFStore_put. rewrite Hformat.
  unfold _write_to_group, get_node. rewrite Hopen. cbn [negb]. cbv zeta.
  rewrite Hold. cbn [fmap option_fmap option_map negb].
  rewrite (bool_decide_eq_false_2 ("fixed" = "table")) by discriminate.
  cbn [orb]. rewrite andb_false_r.
  rewrite (create_groups_key key names _ Hvalid Habs).
  pose proof (absolute_nonempty key names Habs) as Hne.
  destruct (create_groups_spec names [] None (h_nodes (remove_node (absolute key) store))
              (Forall_nil_2 _) Hvalid Hne) as (g & Hgroup & Hkey & Hnew & Hkeep & Hlong).
  cbn [app reached] in Hgroup, Hkey, Hnew, Hkeep, Hlong. rewrite <- Habs in *.
  rewrite lookup_remove_node, under_self in Hnew. specialize (Hnew eq_refl). subst g.
  rewrite Hgroup.
  assert (_create_storer error_context new_group (Some "fixed") (Some value) = Ok s) as ->.
  { subst s. unfold _create_storer. cbn [n_pandas_type new_group].
    destruct (v_class value); [reflexivity | reflexivity | contradiction]. }
  assert (is_table s = false) as Hs by reflexivity.
  rewrite Hs. cbn [negb andb].
  eexists. split; [reflexivity|]. split; [|split].
  - cbn [set_object_info set_nodes h_is_open h_nodes remove_node]. rewrite Hopen.
    cbn [negb]. rewrite lookup_alter_eq.
    cbn [remove_node set_nodes h_nodes] in Hkey. rewrite Hkey. reflexivity.
  - intros p Hp Hunder. cbn [set_object_info set_nodes h_nodes].
    rewrite lookup_alter_ne by congruence.
    destruct (under_length _ _ Hunder) as [->|Hlen]; [contradiction|].
    rewrite (Hlong p Hlen), lookup_remove_node, Hunder. reflexivity.
  - intros p x Hp Hx. cbn [set_object_info set_nodes h_nodes].
    rewrite lookup_alter_ne by (intros <-; rewrite under_self in Hp; discriminate).
    apply Hkeep. rewrite lookup_remove_node, Hp. exact Hx.
Qed.

Lemma put_fixed_with_complib_replaces_node_witness :
  let store := {| h_path := "store.h5"; h_is_open := true;
                  h_nodes := {["/df" := with_table_type AppendableFrameTable
                                          (with_object_info (Table_storer AppendableFrameTable)
                                             new_group);
                               "/df/table" := new_group;
                               "/s" := new_group]} |} in
  let value := {| v_class := Is_Series; v_empty := false; v_nlevels := Some 1 |} in
  exists store',
    HDFStore_put (fun _ _ _ => "") (fun _ _ _ _ _ st => (Ok tt, st)) (fun _ _ st => (Ok tt, st))
      None store "df" value (Some "fixed") false true true false
    = (Raise (ValueError "Compression not supported on Fixed format stores"), store') /\
    get_node store' "df"
    = Ok (Some ("/df", with_object_info (Fixed_storer SeriesFixed) new_group)) /\
    (forall p, p <> "/df" -> under "/df" p = true -> h_nodes store' !! p = None) /\
    (forall p x, under "/df" p = false -> h_nodes store !! p = Some x ->
                 h_nodes store' !! p = Some x).
Proof.
  intros store value.
  apply (put_fixed_with_complib_replaces_node (fun _ _ _ => "")
           (fun _ _ _ _ _ st => (Ok tt, st)) (fun _ _ st => (Ok tt, st)) None store "df" ["df"]
           (with_table_type AppendableFrameTable
              (with_object_info (Table_storer AppendableFrameTable) new_group))
           value "fixed" true false).
  - reflexivity.
  - repeat constructor. discriminate.
  - reflexivity.
  - reflexivity.
  - discriminate.
  - reflexivity.
Defined.

(** X17: [append] to a key, in normal form, whose node was written in
    fixed format (its [pandas_type] is [series] or [frame]).  For an object that is not
    empty and whatever valid format is asked for, the call raises
    [ValueError] (one can only append to tables); the storer is not
    called and the file is left exactly as it was. *)
Theorem append_to_fixed_node_rejected
  (error_context : gnode -> option value_view -> option string -> string)
  (storer_write :
     storer_class -> string -> value_view -> bool -> bool -> hdfstore -> res unit * hdfstore)
  (create_index : storer_class -> string -> hdfstore -> res unit * hdfstore)
  (default_format : option string) (dropna_table : bool)
  (store : hdfstore) (key : string) (names : list string) (g : gnode) (pt : string)
  (value : value_view) (format fmt : string) (dropna : option bool)
  (index complib : bool) :
  h_is_open store = true ->
  Forall valid_name names ->
  absolute key = pathname names ->
  h_nodes store !! absolute key = Some g ->
  n_pandas_type g = Some pt ->
  pt ∈ ["series"; "frame"] ->
  v_empty value = false ->
  _validate_format format = Ok fmt ->
  HDFStore_append error_context storer_write create_index default_format dropna_table
    store key value (Some format) true false dropna index complib
  = (Raise (ValueError "Can only append to Tables"), store).
Proof.
  intros Hopen _ _ Hnode Hpt Hfixed Hempty Hformat. unfold HDFStore_append.
  rewrite Hformat. unfold _write_to_group, get_node. rewrite Hopen. cbn [negb]. cbv zeta.
  rewrite Hnode, Hempty. cbn [fmap option_fmap option_map negb andb].
  assert (exists c, _create_storer error_context g (Some fmt) (Some value)
                    = Ok (Fixed_storer c)) as [c ->].
  { unfold _create_storer. rewrite Hpt.
    apply elem_of_cons in Hfixed as [->|Hfixed]; [exists SeriesFixed; reflexivity|].
    apply elem_of_cons in Hfixed as [->|Hfixed]; [exists FrameFixed; reflexivity|].
    inversion Hfixed. }
  reflexivity.
Qed.

Lemma append_to_fixed_node_rejected_witness :
  let store := {| h_path := "store.h5"; h_is_open := true;
                  h_nodes := {["/df" := with_object_info (Fixed_storer FrameFixed) new_group]} |} in
  let value := {| v_class := Is_DataFrame; v_empty := false; v_nlevels := Some 1 |} in
  HDFStore_append (fun _ _ _ => "") (fun _ _ _ _ _ st => (Ok tt, st))
    (fun _ _ st => (Ok tt, st)) None false store "/df" value (Some "table") true false None
    true false
  = (Raise (ValueError "Can only append to Tables"), store).
Proof.
  intros store value.
  apply (append_to_fixed_node_rejected (fun _ _ _ => "") (fun _ _ _ _ _ st => (Ok tt, st))
           (fun _ _ st => (Ok tt, st)) None false store "/df" ["df"]
           (with_object_info (Fixed_storer FrameFixed) new_group) "frame" value
           "table" "table" None true false).
  - reflexivity.
  - repeat constructor. discriminate.
  - reflexivity.
  - reflexivity.
  - reflexivity.
  - refine (bool_decide_unpack _ _). vm_compute. exact I.
  - reflexivity.
  - reflexivity.
Defined.

(** X18: the attributes a storer records identify it.  Whatever the group
    held before, once a storer has recorded its [pandas_type] and
    version, and a table storer its [table_type], [_create_storer] on
    that group without a value or format, as a read does, returns the
    same storer class; this holds for each of the two fixed and six table
    classes. *)
Theorem storer_round_trip
  (error_context : gnode -> option value_view -> option string -> string)
  (s : storer_class) (g : gnode) :
  let written :=
    match s with
    | Fixed_storer _ => with_object_info s g
    | Table_storer c => with_table_type c (with_object_info s g)
    end in
  _create_storer error_context written None None = Ok s.
Proof.
  intros written. subst written. unfold _create_storer.
  destruct s as [[]|[]]; reflexivity.
Qed.

(** ** Splitting a frame over several tables *)

Section AppendToMultipleFacts.

(** The columns listed for the keys of [d], and the keys whose value is
    [None]. *)
Lemma find_remain_spec (d : list (string * option (list string))) :
  forall (remain_key : option string) (remain_values : list string),
    find_remain d remain_key remain_values
    = match remain_key, map fst (List.filter (fun kv => bool_decide (kv.2 = None)) d) with
      | None, [] => Ok (None, remain_values ++ mjoin (omap snd d))
      | None, [k] => Ok (Some k, remain_values ++ mjoin (omap snd d))
      | Some k, [] => Ok (Some k, remain_values ++ mjoin (omap snd d))
      | _, _ =>
          Raise (ValueError "append_to_multiple can only have one value in d that is None")
      end.
Proof.
  induction d as [|[k [v|]] d IH]; intros remain_key remain_values.
  - cbn. rewrite app_nil_r. destruct remain_key; reflexivity.
  - cbn [find_remain List.filter snd omap mjoin]. rewrite IH.
    rewrite bool_decide_eq_false_2 by discriminate.
    change (omap snd ((k, Some v) :: d)) with (v :: omap snd d).
    cbn [mjoin]. destruct remain_key, (map fst _) as [|k1 [|k2 l]];
      rewrite <- ?app_assoc; reflexivity.
  - cbn [find_remain List.filter snd]. rewrite bool_decide_eq_true_2 by reflexivity.
    cbn [map fst]. change (omap snd ((k, None) :: d)) with (omap snd d).
    destruct remain_key as [k0|].
    + destruct (map fst _); reflexivity.
    + rewrite IH. destruct (map fst _) as [|k1 [|k2 l]]; reflexivity.
Qed.

Lemma get_loc_lookup (x : string) (l : list string) (i : nat) :
  get_loc x l = Some i -> l !! i = Some x.
Proof.
  revert i. induction l as [|y l IH]; intros i; [discriminate|].
  cbn [get_loc]. destruct (bool_decide (y = x)) eqn:Hy.
  - apply bool_decide_eq_true in Hy. intros [= <-]. subst. reflexivity.
  - destruct (get_loc x l) as [j|]; [|discriminate]. intros [= <-]. apply IH. reflexivity.
Qed.

Lemma get_loc_elem (x : string) (l : list string) :
  x ∈ l -> exists i, get_loc x l = Some i.
Proof.
  induction l as [|y l IH]; intros Hin; [inversion Hin|].
  cbn [get_loc]. destruct (bool_decide (y = x)) eqn:Hy; [eauto|].
  apply bool_decide_eq_false in Hy.
  apply elem_of_cons in Hin as [->|Hin]; [congruence|].
  destruct (IH Hin) as [i ->]. eauto.
Qed.

Lemma positions_cons (P : string -> bool) (y : string) (l : list string) :
  y ∉ l ->
  positions P (y :: l) = (if P y then [0] else []) ++ map Z.succ (positions P l).
Proof.
  intros Hy. unfold positions. cbn [List.filter].
  assert (map (fun x => match get_loc x (y :: l) with
                        | Some i => Z.of_nat i
                        | None => -1
                        end) (List.filter P l)
          = map Z.succ (map (fun x => match get_loc x l with
                                      | Some i => Z.of_nat i
                                      | None => -1
                                      end) (List.filter P l))) as Htl.
  { rewrite map_map. apply map_ext_in. intros x Hx.
    apply filter_In in Hx as [Hx _]. apply list_elem_of_In in Hx.
    cbn [get_loc]. rewrite bool_decide_eq_false_2 by (intros ->; contradiction).
    destruct (get_loc_elem x l Hx) as [i ->]. cbn. lia. }
  destruct (P y).
  - cbn [map app]. rewrite Htl. cbn [get_loc].
    rewrite bool_decide_eq_true_2 by reflexivity. reflexivity.
  - cbn [app]. exact Htl.
Qed.

Lemma positions_spec (P : string -> bool) (l : list string) :
  NoDup l ->
  Sorted Z.le (positions P l) /\
  Forall (fun p => 0 <= p) (positions P l) /\
  Index_take l (positions P l) = Ok (List.filter P l).
Proof.
  assert (forall k : list string, Forall (fun p => 0 <= p) (positions P k)) as Hpos.
  { intros k. unfold positions. apply Forall_forall. intros p Hp.
    apply list_elem_of_In, in_map_iff in Hp as (x & <- & Hx).
    apply filter_In in Hx as [Hx _]. apply list_elem_of_In in Hx.
    destruct (get_loc_elem x k Hx) as [i ->]. lia. }
  intros Hnd. split; [|split].
  - induction Hnd as [|y l Hy Hnd IH]; [constructor|].
    rewrite positions_cons by exact Hy.
    assert (Sorted Z.le (map Z.succ (positions P l))) as Hs.
    { change (map Z.succ (positions P l)) with (Z.succ <$> positions P l).
      apply (Sorted_fmap _ Z.le); [intros; lia | exact IH]. }
    destruct (P y); [|exact Hs]. cbn [app]. constructor; [exact Hs|].
    specialize (Hpos l).
    destruct (positions P l) as [|p ps]; [constructor|].
    constructor. apply Forall_cons in Hpos as [Hp _]. cbn [map]. lia.
  - apply Hpos.
  - unfold positions, Index_take.
    match goal with |- mapM ?f _ = _ => set (take1 := f) end.
    assert (forall k : list string,
              Forall (fun x => x ∈ l) k ->
              mapM take1 (map (fun x => match get_loc x l with
                                        | Some i => Z.of_nat i
                                        | None => -1
                                        end) k) = Ok k) as Hk.
    { induction k as [|x k IHk]; intros Hin; [reflexivity|].
      apply Forall_cons in Hin as [Hx Hin]. cbn [map mapM].
      rewrite (IHk Hin).
      destruct (get_loc_elem x l Hx) as [i Hi]. rewrite Hi. unfold take1. cbv zeta.
      assert ((Z.of_nat i <? 0) = false) as Hlt by (apply Z.ltb_ge; lia).
      rewrite !Hlt. cbv iota. rewrite ?Hlt.
      rewrite Nat2Z.id, (get_loc_lookup _ _ _ Hi). reflexivity. }
    apply Hk. apply Forall_forall. intros x Hx.
    apply list_elem_of_In, filter_In in Hx as [Hx _]. apply list_elem_of_In. exact Hx.
Qed.

(** The column list computed for the key whose value is [None]: the
    columns of the frame that no other key lists, in the order of the
    frame. *)
Lemma remaining_columns_spec (ordered remain_values : list string) :
  NoDup ordered ->
  remaining_columns ordered remain_values
  = Ok (List.filter (fun c => bool_decide (c ∉ remain_values)) ordered).
Proof.
  intros Hnd. unfold remaining_columns, get_indexer.
  rewrite bool_decide_eq_true_2 by exact Hnd. cbn [mbind res_bind bind].
  set (P := fun c : string => bool_decide (c ∉ remain_values)).
  destruct (positions_spec P ordered Hnd) as (Hsorted & _ & Htake).
  assert (merge_sort Z.le
            (map (fun x => match get_loc x ordered with
                           | Some i => Z.of_nat i
                           | None => -1
                           end) (Index_difference ordered remain_values))
          = positions P ordered) as ->; [|exact Htake].
  apply (Sorted_unique Z.le); [apply Sorted_merge_sort, _ | exact Hsorted |].
  rewrite merge_sort_Permutation. unfold positions, Index_difference.
  change (map ?f ?l) with (f <$> l). apply fmap_Permutation.
  rewrite merge_sort_Permutation.
  assert (remove_dups ordered = ordered) as ->; [|reflexivity].
  clear -Hnd. induction Hnd as [|y l Hy Hnd IH]; [reflexivity|].
  cbn [remove_dups]. destruct (decide_rel elem_of y l); [contradiction|].
  rewrite IH. reflexivity.
Qed.

Lemma NoDup_keys_value {A : Type} (d : list (string * A)) (k : string) (v1 v2 : A) :
  NoDup (map fst d) -> (k, v1) ∈ d -> (k, v2) ∈ d -> v1 = v2.
Proof.
  induction d as [|[k' v'] d IH]; intros Hnd H1 H2; [inversion H1|].
  cbn [map fst] in Hnd. apply NoDup_cons in Hnd as [Hk Hnd].
  assert (forall v : A, (k', v) ∈ d -> False) as Hfresh.
  { intros v Hv. apply Hk. apply list_elem_of_In, in_map_iff.
    exists (k', v). split; [reflexivity|]. apply list_elem_of_In. exact Hv. }
  apply elem_of_cons in H1 as [H1|H1]; apply elem_of_cons in H2 as [H2|H2].
  - congruence.
  - injection H1 as -> ->. destruct (Hfresh _ H2).
  - injection H2 as -> ->. destruct (Hfresh _ H1).
  - apply IH; assumption.
Qed.

(** The dictionary after the value [None] has been replaced. *)
Lemma split_value_spec (ordered : list string) (d : list (string * option (list string))) :
  NoDup (map fst d) ->
  NoDup ordered ->
  (length (List.filter (fun kv => bool_decide (kv.2 = None)) d) <= 1)%nat ->
  split_value ordered d
  = Ok (map (fun kv =>
               (kv.1, default (List.filter (fun c => bool_decide (c ∉ mjoin (omap snd d)))
                                 ordered) kv.2)) d).
Proof.
  intros Hkeys Hnd Hnones. unfold split_value. rewrite find_remain_spec.
  assert (forall kv, kv ∈ d -> kv.2 = None ->
            kv ∈ List.filter (fun kv => bool_decide (kv.2 = None)) d) as Hin.
  { intros kv Hkv Hnone. apply list_elem_of_In, filter_In.
    split; [apply list_elem_of_In, Hkv | apply bool_decide_eq_true_2, Hnone]. }
  destruct (List.filter (fun kv => bool_decide (kv.2 = None)) d) as [|n0 [|n1 nones]] eqn:Hf;
    [| |cbn [length] in Hnones; lia].
  - cbn [map mbind res_bind bind fst]. f_equal. apply map_ext_in. intros [k [v|]] Hkv.
    + reflexivity.
    + apply list_elem_of_In in Hkv. specialize (Hin _ Hkv eq_refl). inversion Hin.
  - cbn [map mbind res_bind bind fst snd app].
    rewrite (remaining_columns_spec _ _ Hnd). cbn [mbind res_bind bind].
    f_equal. apply map_ext_in. intros [k [v|]] Hkv; apply list_elem_of_In in Hkv.
    + cbn [fst snd default]. rewrite bool_decide_eq_false_2; [reflexivity|].
      intros ->.
      assert (n0 ∈ d /\ n0.2 = None) as [Hn0 Hnone].
      { assert (In n0 (List.filter (fun kv => bool_decide (kv.2 = None)) d)) as H0
          by (rewrite Hf; left; reflexivity).
        apply filter_In in H0 as [H0 Hb]. split; [apply list_elem_of_In, H0|].
        apply bool_decide_eq_true in Hb. exact Hb. }
      destruct n0 as [k0 v0]. cbn [fst snd] in *. subst v0.
      pose proof (NoDup_keys_value d k0 _ _ Hkeys Hkv Hn0). discriminate.
    + specialize (Hin _ Hkv eq_refl). apply list_elem_of_singleton in Hin. subst n0.
      cbn [fst snd default]. rewrite bool_decide_eq_true_2 by reflexivity. reflexivity.
Qed.

End AppendToMultipleFacts.

(** X19: how [append_to_multiple] splits the columns of a frame.  For a
    dictionary [d] that contains the selector and a frame whose columns
    are pairwise different, without [axes] and [dropna]: with at most one
    value [None] in [d], the call appends to the keys of [d] in their
    order, each key receiving the frame reindexed to the columns listed
    for it and the key whose value is [None] receiving the columns of the
    frame that no other key lists, in the order of the frame; the
    selector is given the data columns passed, or its own columns when
    none are passed.  With two values [None] or more it raises
    [ValueError] and appends nothing.  With exactly one value [None]
    every column of the frame goes to some table. *)
Theorem append_to_multiple_splits_columns {Frame St : Type}
  (columns_of : Frame -> list string) (reindex : list string -> Frame -> Frame)
  (sync_rows : list (list string) -> Frame -> res Frame)
  (append : string -> Frame -> data_columns_t -> St -> res unit * St)
  (d : list (string * option (list string))) (value : Frame) (selector : string)
  (data_columns : data_columns_t) (st : St) :
  NoDup (map fst d) ->
  NoDup (columns_of value) ->
  selector ∈ map fst d ->
  let nones := List.filter (fun kv => bool_decide (kv.2 = None)) d in
  let listed := mjoin (omap snd d) in
  let remaining := List.filter (fun c => bool_decide (c ∉ listed)) (columns_of value) in
  let resolved := map (fun kv => (kv.1, default remaining kv.2)) d in
  let r := append_to_multiple columns_of reindex sync_rows append (Some d) value selector
             data_columns false false st in
  ((length nones <= 1)%nat ->
   r = append_each reindex append selector
         match data_columns with
         | DC_none => DC_list (default [] (dict_get selector resolved))
         | dc => dc
         end value resolved st) /\
  ((1 < length nones)%nat ->
   r = (Raise (ValueError "append_to_multiple can only have one value in d that is None"),
        st)) /\
  (length nones = 1%nat ->
   forall c, c ∈ columns_of value -> exists kv, kv ∈ resolved /\ c ∈ kv.2).
Proof.
  intros Hkeys Hnd Hsel nones listed remaining resolved r. subst r.
  unfold append_to_multiple. rewrite bool_decide_eq_true_2 by exact Hsel. cbn [negb].
  split; [|split].
  - intros Hnones. rewrite (split_value_spec _ _ Hkeys Hnd Hnones). reflexivity.
  - intros Hnones. unfold split_value. rewrite find_remain_spec. fold nones.
    destruct nones as [|n0 [|n1 nones]]; [cbn in Hnones; lia | cbn in Hnones; lia|].
    reflexivity.
  - intros Hnones c Hc. destruct (decide (c ∈ listed)) as [Hl|Hl].
    + apply list_elem_of_join in Hl as (v & Hcv & Hv).
      apply list_elem_of_omap in Hv as ([k o] & Hkv & Ho). cbn [snd] in Ho. subst o.
      exists (k, v). split; [|exact Hcv].
      apply list_elem_of_In, in_map_iff. exists (k, Some v).
      split; [reflexivity | apply list_elem_of_In, Hkv].
    + destruct nones as [|[k0 v0] [|n1 nones']] eqn:Hf; try discriminate.
      assert (In (k0, v0) (List.filter (fun kv => bool_decide (kv.2 = None)) d)) as H0.
      { fold nones. rewrite Hf. left. reflexivity. }
      apply filter_In in H0 as [H0 Hb]. apply bool_decide_eq_true in Hb.
      cbn [snd] in Hb. subst v0.
      exists (k0, remaining). split.
      * apply list_elem_of_In, in_map_iff. exists (k0, None). split; [reflexivity | exact H0].
      * apply list_elem_of_In, filter_In. split; [apply list_elem_of_In, Hc|].
        apply bool_decide_eq_true_2, Hl.
Qed.

Lemma append_to_multiple_splits_columns_witness :
  let d := [("left", Some ["B"; "A"]); ("right", None)] in
  let append := fun (k : string) (val : list string) (dc : data_columns_t)
                    (st : list (string * list string * data_columns_t)) =>
                  (Ok tt, st ++ [(k, val, dc)]) in
  append_to_multiple id (fun v _ => v) (fun _ v => Ok v) append (Some d)
    ["A"; "B"; "C"; "D"] "left" DC_none false false []
  = (Ok tt, [("left", ["B"; "A"], DC_list ["B"; "A"]); ("right", ["C"; "D"], DC_none)]).
Proof.
  intros d append.
  refine (proj1 (append_to_multiple_splits_columns id (fun v _ => v) (fun _ v => Ok v) append
                   d ["A"; "B"; "C"; "D"] "left" DC_none [] _ _ _) _).
  - refine (bool_decide_unpack _ _). vm_compute. exact I.
  - refine (bool_decide_unpack _ _). vm_compute. exact I.
  - refine (bool_decide_unpack _ _). vm_compute. exact I.
  - vm_compute. lia.
Defined.

(** ** Coordinates narrowed by filters *)

Section ReadCoordinatesFacts.
Context `{C : Collaborators}.
Context {V : Type}.

Lemma foldl_min_le (l : list Z) : forall x c, c ∈ x :: l -> foldl Z.min x l <= c.
Proof.
  induction l as [|y l IH]; intros x c Hc.
  - apply list_elem_of_singleton in Hc. subst. reflexivity.
  - cbn [foldl]. apply elem_of_cons in Hc as [->|Hc].
    + etransitivity; [apply (IH _ (Z.min x y)); left|]. lia.
    + apply elem_of_cons in Hc as [->|Hc].
      * etransitivity; [apply (IH _ (Z.min x y)); left|]. lia.
      * apply IH. right. exact Hc.
Qed.

Lemma foldl_min_elem (l : list Z) : forall x, foldl Z.min x l ∈ x :: l.
Proof.
  induction l as [|y l IH]; intros x; [left|].
  cbn [foldl]. specialize (IH (Z.min x y)).
  apply elem_of_cons in IH as [Heq|Hin].
  - rewrite Heq. destruct (Z.min_spec x y) as [[_ ->]|[_ ->]]; [left | right; left].
  - right. right. exact Hin.
Qed.

Lemma foldl_max_ge (l : list Z) : forall x c, c ∈ x :: l -> c <= foldl Z.max x l.
Proof.
  induction l as [|y l IH]; intros x c Hc.
  - apply list_elem_of_singleton in Hc. subst. reflexivity.
  - cbn [foldl]. apply elem_of_cons in Hc as [->|Hc].
    + etransitivity; [|apply (IH _ (Z.max x y)); left]. lia.
    + apply elem_of_cons in Hc as [->|Hc].
      * etransitivity; [|apply (IH _ (Z.max x y)); left]. lia.
      * apply IH. right. exact Hc.
Qed.

Lemma bool_index_filter (coords : list Z) (test : Z -> bool) :
  bool_index coords (map test coords) = Ok (List.filter test coords).
Proof.
  unfold bool_index. rewrite length_map, Nat.eqb_refl. f_equal.
  induction coords as [|c coords IH]; [reflexivity|].
  cbn [map zip zip_with List.filter snd]. destruct (test c); cbn [map fst]; rewrite IH;
    reflexivity.
Qed.

Variable axes : list axis_view.
Variable column_values : string -> list V.

Lemma filter_coords_spec (coords : list Z) (field : string) (test : V -> bool)
  (a : axis_view) :
  List.find (fun a => bool_decide (field = av_name a)) axes = Some a ->
  av_is_data_indexable a = true ->
  coords <> [] ->
  Forall (fun c => 0 <= c < Z.of_nat (length (column_values field))) coords ->
  filter_coords axes column_values coords (field, test)
  = Ok (List.filter (passes (column_values field) test) coords).
Proof.
  intros Haxis Hindexable Hne Hrange. unfold filter_coords.
  destruct coords as [|c0 coords]; [congruence|].
  cbn [np_min np_max mbind res_bind bind fst snd].
  set (lo := foldl Z.min c0 coords). set (hi := foldl Z.max c0 coords).
  set (all := c0 :: coords) in *.
  assert (forall c, c ∈ all -> lo <= c <= hi) as Hbounds.
  { intros c Hc. split; [apply foldl_min_le, Hc | apply foldl_max_ge, Hc]. }
  assert (0 <= lo) as Hlo.
  { pose proof (foldl_min_elem coords c0) as Hin. fold lo all in Hin.
    rewrite Forall_forall in Hrange. apply Hrange in Hin. lia. }
  unfold read_column. rewrite Haxis, Hindexable. cbn [negb mbind res_bind bind]. cbv zeta.
  change (default 0 (Some lo)) with lo.
  change (default (Z.of_nat (length (column_values field))) (Some (hi + 1))) with (hi + 1).
  cbn [mbind res_bind bind].
  set (column := column_values field) in *.
  assert (lo <= hi) as Hlohi.
  { assert (c0 ∈ all) as H0 by left. apply Hbounds in H0. lia. }
  rewrite py_slice_slice by lia.
  assert (iloc (slice column lo (hi + 1)) (map (fun c => c - lo) all)
          = Ok (omap (fun c => column !! Z.to_nat c) all)
          /\ length (omap (fun c => column !! Z.to_nat c) all) = length all
          /\ map test (omap (fun c => column !! Z.to_nat c) all)
             = map (passes column test) all) as (-> & _ & Htests).
  { assert (forall k : list Z,
              Forall (fun c => c ∈ all) k ->
              iloc (slice column lo (hi + 1)) (map (fun c => c - lo) k)
              = Ok (omap (fun c => column !! Z.to_nat c) k)
              /\ length (omap (fun c => column !! Z.to_nat c) k) = length k
              /\ map test (omap (fun c => column !! Z.to_nat c) k)
                 = map (passes column test) k) as Hk.
    { induction k as [|c k IHk]; intros Hin; [repeat split|].
      apply Forall_cons in Hin as [Hc Hin]. destruct (IHk Hin) as (IH1 & IH2 & IH3).
      pose proof (Hbounds c Hc) as Hcb.
      assert (0 <= c < Z.of_nat (length column)) as Hcr.
      { rewrite Forall_forall in Hrange. apply Hrange, Hc. }
      destruct (lookup_lt_is_Some_2 column (Z.to_nat c)) as [v Hv]; [lia|].
      unfold iloc in *. cbn [map mapM]. rewrite IH1. cbv zeta.
      assert ((c - lo <? 0) = false) as Hlt by (apply Z.ltb_ge; lia).
      rewrite !Hlt. cbv iota. rewrite ?Hlt.
      rewrite lookup_slice by lia.
      replace (Z.to_nat lo + Z.to_nat (c - lo))%nat with (Z.to_nat c) by lia.
      rewrite Hv. cbn [mbind res_bind bind].
      change (omap (fun c => column !! Z.to_nat c) (c :: k))
        with (match column !! Z.to_nat c with
              | Some v => v :: omap (fun c => column !! Z.to_nat c) k
              | None => omap (fun c => column !! Z.to_nat c) k
              end).
      rewrite Hv.
      split; [reflexivity|]. split; [cbn [length]; congruence|].
      cbn [map]. rewrite IH3. unfold passes at 2. rewrite Hv. reflexivity. }
    apply Hk. apply Forall_forall. auto. }
  cbn [mbind res_bind bind]. rewrite Htests. apply bool_index_filter.
Qed.

Lemma filter_filter_andb {X : Type} (f g : X -> bool) (l : list X) :
  List.filter g (List.filter f l) = List.filter (fun x => f x && g x) l.
Proof.
  induction l as [|x l IH]; [reflexivity|].
  cbn [List.filter]. destruct (f x); cbn [List.filter andb]; [|exact IH].
  destruct (g x); rewrite IH; reflexivity.
Qed.

Lemma filter_all_coords_spec (filters : list (string * (V -> bool))) :
  forall coords : list Z,
    Forall (fun entry =>
              exists a, List.find (fun a => bool_decide (entry.1 = av_name a)) axes = Some a
                        /\ av_is_data_indexable a = true) filters ->
    Forall (fun entry =>
              Forall (fun c => 0 <= c < Z.of_nat (length (column_values entry.1))) coords)
           filters ->
    List.filter (fun c => forallb (fun entry => passes (column_values entry.1) entry.2 c)
                            filters) coords <> [] ->
    filter_all_coords axes column_values coords filters
    = Ok (List.filter (fun c => forallb (fun entry => passes (column_values entry.1) entry.2 c)
                                  filters) coords).
Proof.
  induction filters as [|[field test] filters IH]; intros coords Haxes Hrange Hkept.
  - cbn [filter_all_coords forallb]. f_equal. symmetry. apply filter_all.
    apply Forall_forall. auto.
  - apply Forall_cons in Haxes as [(a & Haxis & Hindexable) Haxes].
    apply Forall_cons in Hrange as [Hr Hrange]. cbn [fst snd] in *.
    assert (coords <> []) as Hne by (intros ->; apply Hkept; reflexivity).
    cbn [filter_all_coords]. rewrite (filter_coords_spec _ _ _ a Haxis Hindexable Hne Hr).
    cbn [mbind res_bind bind]. cbn [forallb fst snd] in Hkept |- *.
    rewrite <- filter_filter_andb in Hkept |- *.
    apply IH; [exact Haxes | | exact Hkept].
    eapply Forall_impl; [exact Hrange|]. intros entry He. cbn beta in He |- *.
    apply Forall_forall. intros c Hc. rewrite Forall_forall in He. apply He.
    apply list_elem_of_In, filter_In in Hc as [Hc _]. apply list_elem_of_In, Hc.
Qed.

End ReadCoordinatesFacts.

(** X20: [read_coordinates] for a selection that carries filters, each on
    a data indexable axis of the table, the coordinates of the selection
    lying within the columns.  The result is the coordinates of the
    selection whose column values pass every filter, in the order of the
    selection, whenever at least one coordinate passes; the window
    [[min, max + 1)] read from each column does not change the outcome.
    When the selection has no coordinate at all, the first filter makes
    the call raise [ValueError]. *)
Theorem read_coordinates_filters `{C : Collaborators} {V : Type}
  (axes : list axis_view) (column_values : string -> list V)
  (filter_format : Filter -> list (string * (V -> bool)))
  (nrows : Z) (w : where_t E) (start stop : option Z) (sel : Selection) (f : Filter) :
  Selection_init nrows w start stop = Ok sel ->
  sel_filter sel = Some f ->
  Forall (fun entry =>
            exists a, List.find (fun a => bool_decide (entry.1 = av_name a)) axes = Some a
                      /\ av_is_data_indexable a = true) (filter_format f) ->
  Forall (fun entry =>
            Forall (fun c => 0 <= c < Z.of_nat (length (column_values entry.1)))
                   (select_coords sel)) (filter_format f) ->
  let coords := select_coords sel in
  let kept :=
    List.filter (fun c => forallb (fun entry => passes (column_values entry.1) entry.2 c)
                            (filter_format f)) coords in
  let r := Table_read_coordinates axes column_values filter_format true nrows w start stop in
  (kept <> [] -> r = Ok (Some kept)) /\
  (coords = [] -> filter_format f <> [] -> exists msg, r = Raise (ValueError msg)).
Proof.
  intros Hinit Hfilter Haxes Hrange coords kept r. subst r.
  unfold Table_read_coordinates. cbn [negb]. rewrite Hinit. cbn [mbind res_bind bind].
  rewrite Hfilter. fold coords. split.
  - intros Hkept.
    rewrite (filter_all_coords_spec axes column_values _ coords Haxes Hrange Hkept).
    reflexivity.
  - intros Hnil Hne. rewrite Hnil.
    destruct (filter_format f) as [|entry rest]; [congruence|].
    eexists. reflexivity.
Qed.

(** Collaborators for a predicate made of a threshold on the index and a
    list of accepted values: the threshold is pushed down as the
    condition, the list is kept as a filter. *)
Definition isin_collaborators : Collaborators :=
  {| E := Z * list Z; Condition := Z; Filter := list Z;
     maybe_expression := fun _ => true;
     Term := fun e => e;
     expr_len := fun _ => 1%nat;
     PyTablesExpr := fun w => match w with
                              | W_term e => Ok e
                              | _ => Raise (ValueError "cannot process expression")
                              end;
     evaluate := fun e => Ok (Some e.1, Some e.2);
     get_where_list := threshold_get_where_list;
     get_where_list_sorted := threshold_get_where_list_sorted |}.

Lemma read_coordinates_filters_witness :
  Table_read_coordinates (C := isin_collaborators)
    [{| av_name := "index"; av_is_data_indexable := true |}]
    (fun _ => [10; 20; 30; 40; 50])
    (fun f : list Z => [("index", fun v : Z => bool_decide (v ∈ f))])
    true 5 (W_term (1, [20; 40])) None None
  = Ok (Some [1; 3]).
Proof.
  assert (exists sel,
            Selection_init (C := isin_collaborators) 5 (W_term (1, [20; 40])) None None = Ok sel
            /\ sel_filter sel = Some [20; 40]
            /\ select_coords sel = [1; 2; 3; 4]) as (sel & Hsel & Hf & Hc).
  { eexists. split; [reflexivity|]. split; reflexivity. }
  pose proof (read_coordinates_filters (C := isin_collaborators)
                [{| av_name := "index"; av_is_data_indexable := true |}]
                (fun _ => [10; 20; 30; 40; 50])
                (fun f : list Z => [("index", fun v : Z => bool_decide (v ∈ f))])
                5 (W_term (1, [20; 40])) None None sel [20; 40] Hsel Hf) as H.
  cbv zeta in H. rewrite Hc in H. destruct H as [H _].
  - repeat constructor. eexists. split; reflexivity.
  - constructor; [|constructor].
    repeat (constructor; [vm_compute; split; congruence|]). constructor.
  - apply H. vm_compute. discriminate.
Defined.

(** ** Indexing the columns of a table *)

Section CreateIndexFacts.





End CreateIndexFacts.




